(** * hang/watch/video/source.ts: the video [Source]

    A shallow embedding of the rendition selector and decoder host of the
    watch path (js/hang/src/watch/video/source.ts).  The pure parts
    (capability filter, rendition selection) are functions over the
    catalog's rendition object; the reactive part is a transition system
    over the fields of the [Source] class, one transition per effect run,
    decoder callback segment or external call.

    The platform and the libraries the class is written against are
    parameters: the decoder's [isConfigSupported] and [Hex.toBytes], each
    with the inputs on which it throws, and [Time.Milli.fromMicro].
    [Sync] appears only as the point where the decoder's callback
    suspends.  The signals library is not among the sources; what the
    model takes from it is stated where it is used. *)

From Stdlib Require Import ZArith QArith Lia Bool List Sorted.
From stdpp Require Import base option list strings gmap.

Local Open Scope Z_scope.

(** ** JavaScript values *)

(** Truthiness of the values the source tests with [!x] or [x && ..]. *)
Definition truthy_str (s : string) : bool :=
  if decide (s = "") then false else true.

Definition truthy_ostr (s : option string) : bool :=
  match s with Some x => truthy_str x | None => false end.

Definition truthy_num (n : Z) : bool := negb (n =? 0).

Definition truthy_onum (n : option Z) : bool :=
  match n with Some x => truthy_num x | None => false end.

(** [a < b] on JavaScript numbers, taken as exact rationals (pixel counts
    and timestamps are far below 2^53). *)
Definition Qltb (a b : Q) : bool :=
  match (a ?= b)%Q with Lt => true | _ => false end.

(** The product of two JavaScript numbers with integer values is the
    exact product rounded to the nearest double: 53 significant bits, ties
    to even, and [Infinity] from 2^1024 - 2^970 on.  [Infinity] is
    represented by 2^1024, above every double and equal to itself, which
    is all that [<] and [>] see of it. *)
Definition round53 (n : Z) : Z :=
  let k := Z.log2 n in
  if k <? 53 then n
  else
    let sh := k - 52 in
    let q := Z.shiftr n sh in
    let r := Z.land n (Z.ones sh) in
    let half := Z.shiftl 1 (sh - 1) in
    let q' := if (half <? r) || ((r =? half) && Z.odd q) then q + 1 else q in
    Z.shiftl q' sh.

Definition Infinity : Z := 2 ^ 1024.

Definition double (n : Z) : Z :=
  let m := round53 (Z.abs n) in
  Z.sgn n * (if Infinity <=? m then Infinity else m).

Definition num_mul (a b : Z) : Z := double (a * b).

(** A JavaScript object used as a record of named entries: the list that
    [Object.entries] returns, for an object whose prototype is
    [Object.prototype].  [obj_set] is the assignment [o[k] = v] for a key
    other than [__proto__]: an existing key keeps its position, a new key
    goes last. *)

(** The properties every such object inherits. *)
Definition Object_prototype : list string :=
  ["constructor"; "__defineGetter__"; "__defineSetter__"; "hasOwnProperty";
   "__lookupGetter__"; "__lookupSetter__"; "isPrototypeOf";
   "propertyIsEnumerable"; "toString"; "valueOf"; "__proto__";
   "toLocaleString"].

Definition inherited (k : string) : bool :=
  bool_decide (k ∈ Object_prototype).

Section Obj.
Context {V : Type}.

Definition Obj := list (string * V).

Fixpoint obj_get (o : Obj) (k : string) : option V :=
  match o with
  | [] => None
  | (k', v) :: o' => if decide (k' = k) then Some v else obj_get o' k
  end.

Fixpoint obj_set (o : Obj) (k : string) (v : V) : Obj :=
  match o with
  | [] => [(k, v)]
  | (k', v') :: o' =>
      if decide (k' = k) then (k, v) :: o' else (k', v') :: obj_set o' k v
  end.

(** Whether [k] is an own property of [o]. *)
Definition obj_has (o : Obj) (k : string) : bool :=
  match obj_get o k with Some _ => true | None => false end.

(** [k in o], which also finds what [o] inherits. *)
Definition obj_in (o : Obj) (k : string) : bool :=
  obj_has o k || inherited k.

Definition obj_keys (o : Obj) : list string := o.*1.
End Obj.
Arguments Obj : clear implicits.

(** ** Catalog *)

Inductive Container :=
| Cmaf (timescale : Z)
| Legacy.

(** Modelled from the spec: [Catalog.VideoConfig] is declared in
    ../../catalog, which is not among the sources; the fields are those of
    the spec's data model (3, VideoConfig), the optional ones as options. *)
Record VideoConfig := mkVideoConfig {
  codec : string;
  codedWidth : option Z;
  codedHeight : option Z;
  description : option string;
  optimizeForLatency : option bool;
  container : Container;
}.

#[global] Instance Container_eq_dec : EqDecision Container.
Proof. solve_decision. Defined.
#[global] Instance VideoConfig_eq_dec : EqDecision VideoConfig.
Proof. solve_decision. Defined.

Record Target := mkTarget {
  pixels : option Q;
  rendition : option string;
}.

(** ** Rendition selection: [Source.#selectRendition] *)

Module Select.

(** Number.MAX_SAFE_INTEGER / 2 - 1 *)
Definition MAX_SAFE_INTEGER : Z := 2 ^ 53 - 1.
Definition default_pixels : Q := (MAX_SAFE_INTEGER # 2) - 1.

(** The four variables of the loop. *)
Record Best := mkBest {
  larger : option string;
  largerSize : option Z;
  smaller : option string;
  smallerSize : option Z;
}.

Definition best0 : Best := mkBest None None None None.

(** [size] of a rendition, or [None] when the loop skips it.  The sizes
    are JavaScript numbers with integer values (the catalog's int
    fields), so the product is the rounded one. *)
Definition area (r : VideoConfig) : option Z :=
  if negb (truthy_onum (codedHeight r)) || negb (truthy_onum (codedWidth r))
  then None
  else match codedHeight r, codedWidth r with
       | Some h, Some w => Some (num_mul h w)
       | _, _ => None
       end.

(** One iteration of the loop body. *)
Definition visit (px : Q) (b : Best) (e : string * VideoConfig) : Best :=
  match area (snd e) with
  | None => b
  | Some size =>
      if Qltb px (inject_Z size)
         && (negb (truthy_onum (largerSize b))
             || match largerSize b with Some l => size <? l | None => false end)
      then mkBest (Some (fst e)) (Some size) (smaller b) (smallerSize b)
      else if Qltb (inject_Z size) px
              && (negb (truthy_onum (smallerSize b))
                  || match smallerSize b with Some l => l <? size | None => false end)
      then mkBest (larger b) (largerSize b) (Some (fst e)) (Some size)
      else b
  end.

Definition scan (px : Q) (entries : Obj VideoConfig) : Best :=
  fold_left (visit px) entries best0.

Definition selectRendition (renditions : Obj VideoConfig)
    (target : option Target) : option string :=
  match renditions with
  | [] => None
  | [e] => Some (fst e)
  | e0 :: _ =>
      let px := default default_pixels (target ≫= pixels) in
      let b := scan px renditions in
      if truthy_ostr (larger b) then larger b
      else if truthy_ostr (smaller b) then smaller b
      else Some (fst e0)
  end.

End Select.

(** ** Capability filter: [Source.#runSupported] *)

Module Supported.
Section Platform.

(** The argument of [VideoDecoder.isConfigSupported]: the properties the
    source puts in the object literal, absent ones as [None]. *)
Record DecoderConfig := mkDecoderConfig {
  dc_codec : string;
  dc_codedWidth : option Z;
  dc_codedHeight : option Z;
  dc_description : option (list Byte.byte);
  dc_optimizeForLatency : option bool;
  dc_container : option Container;
}.

(** The platform decoder's answer and [Hex.toBytes] (../../util/hex), and
    the inputs on which they throw instead of answering:
    [isConfigSupported] rejects a config that is not valid, [Hex.toBytes]
    a string that is not hex. *)
Variable isConfigSupported : DecoderConfig -> bool.
Variable toBytes : string -> list Byte.byte.
Variable isConfigSupported_throws : DecoderConfig -> bool.
Variable toBytes_throws : string -> bool.

Definition probe (r : VideoConfig) : DecoderConfig :=
  match container r with
  | Cmaf _ =>
      mkDecoderConfig (codec r) None None None
        (Some (default true (optimizeForLatency r))) None
  | Legacy =>
      let description :=
        if truthy_ostr (description r) then toBytes <$> description r
        else None in
      mkDecoderConfig (codec r) (codedWidth r) (codedHeight r) description
        (Some (default true (optimizeForLatency r))) (Some (container r))
  end.

(** Whether the iteration for [r] throws: in [Hex.toBytes], which is
    called for a legacy rendition with a non-empty description, or in
    the awaited [isConfigSupported]. *)
Definition throws (r : VideoConfig) : bool :=
  match container r with
  | Cmaf _ => isConfigSupported_throws (probe r)
  | Legacy =>
      match description r with
      | Some d => truthy_str d && toBytes_throws d
      | None => false
      end
      || isConfigSupported_throws (probe r)
  end.

(** The local object [supported]: its own entries, and the rendition that
    has replaced its prototype, if any. *)
Record Built := mkBuilt {
  own : Obj VideoConfig;
  proto : option VideoConfig;
}.

(** [supported[name] = rendition].  The name [__proto__] reaches the
    setter of [Object.prototype], which replaces the prototype and adds no
    entry. *)
Definition assign (b : Built) (name : string) (r : VideoConfig) : Built :=
  if decide (name = "__proto__") then mkBuilt (own b) (Some r)
  else mkBuilt (obj_set (own b) name r) (proto b).

(** One iteration of the loop over [Object.entries(renditions)]; [None]
    once an iteration has thrown. *)
Definition check (acc : option Built) (e : string * VideoConfig)
    : option Built :=
  match acc with
  | None => None
  | Some b =>
      if throws (snd e) then None
      else if isConfigSupported (probe (snd e))
      then Some (assign b (fst e) (snd e))
      else Some b
  end.

(** How the spawned task ends: with [#supported.set(supported)], after
    [console.warn] or not, or with an exception that leaves the loop, after
    which neither statement is reached. *)
Inductive Outcome :=
| Written (supported : Built) (warned : bool)
| Thrown.

Definition runSupported (catalog : option (Obj VideoConfig)) : Outcome :=
  let renditions := default [] catalog in
  match fold_left check renditions (Some (mkBuilt [] None)) with
  | Some b =>
      Written b
        ((length (obj_keys (own b)) =? 0)%nat
         && (0 <? length (obj_keys renditions))%nat)
  | None => Thrown
  end.

End Platform.
End Supported.

(** ** The [Source] class *)

Module Source.

Definition EffectId := nat.

(** A [VideoFrame] object: its identity and its [timestamp] property
    (microseconds). *)
Record VideoFrame := mkFrame {
  handle : nat;
  vf_timestamp : Z;
}.

#[global] Instance VideoFrame_eq_dec : EqDecision VideoFrame.
Proof. solve_decision. Defined.

(** [RequiredDecoderConfig]: a config whose [codedWidth] and
    [codedHeight] have been set to [undefined]. *)
Definition RequiredDecoderConfig := VideoConfig.

Definition required (c : VideoConfig) : RequiredDecoderConfig :=
  mkVideoConfig (codec c) None None (description c) (optimizeForLatency c)
    (container c).

(** What [supported[selected]] evaluates to.  Beside the configs of the
    object's own entries, the lookup finds what the object inherits from
    [Object.prototype], a function (or, for [__proto__], the prototype
    itself), which TypeScript takes for a config. *)
Inductive Found :=
| Config (c : VideoConfig)
| Inherited (k : string).

(** The object [{ ...supported[selected], codedWidth: undefined,
    codedHeight: undefined }].  An inherited function, like [undefined],
    has no enumerable property of its own to spread, which leaves the
    object [Bare]: the two undefined properties and nothing else. *)
Inductive Stripped :=
| Req (c : RequiredDecoderConfig)
| Bare.

#[global] Instance Found_eq_dec : EqDecision Found.
Proof. solve_decision. Defined.
#[global] Instance Stripped_eq_dec : EqDecision Stripped.
Proof. solve_decision. Defined.

Definition lookup (o : Obj VideoConfig) (k : string) : option Found :=
  match obj_get o k with
  | Some c => Some (Config c)
  | None => if inherited k then Some (Inherited k) else None
  end.

Definition strip (v : option Found) : Stripped :=
  match v with
  | Some (Config c) => Req (required c)
  | Some (Inherited _) | None => Bare
  end.

(** What [#runTrack] builds around one [Effect]: the subscription to the
    track [tr_name] and the decoder, both closed by the effect's
    cleanups.  [tr_active] records that the effect has run
    [effect.set(this.active, name)], whose cleanup sets [active] back to
    [undefined]. *)
Record Track := mkTrack {
  tr_broadcast : nat;
  tr_name : string;
  tr_config : Stripped;
  tr_open : bool;
  tr_active : bool;
}.

Definition closed (t : Track) : Track :=
  mkTrack (tr_broadcast t) (tr_name t) (tr_config t) false (tr_active t).

Definition promoted (t : Track) : Track :=
  mkTrack (tr_broadcast t) (tr_name t) (tr_config t) (tr_open t) true.

Record VideoStats := mkStats {
  frameCount : Z;
  timestamp : Z;
  bytesReceived : Z;
}.

Inductive BufferState := empty | filled.

(** A write to the [frame] signal. *)
Inductive FrameWrite :=
| Placeholder (f : VideoFrame)   (* frame.set before the wait *)
| Emitted (f : VideoFrame)       (* frame.update after the wait *)
| Cleared.                       (* frame.update to undefined *)

(** A call of the decoder's [output] callback suspended at its await. *)
Record Invocation := mkInvocation {
  inv_effect : EffectId;
  inv_name : string;
  inv_frame : VideoFrame;
}.

Record State := mkState {
  (* signals *)
  broadcast : option nat;
  enabled : bool;
  supported : Obj VideoConfig;                    (* #supported *)
  target : option Target;
  selected : option string;                       (* #selected *)
  selectedConfig : option Stripped;               (* #selectedConfig *)
  config : option Found;                          (* #config *)
  active : option string;
  frame : option VideoFrame;
  timestamp_ : option Q;                          (* #timestamp *)
  bufferStatus : BufferState;
  stats : option VideoStats;                      (* #stats *)
  (* private fields *)
  pendingEffect : option EffectId;                (* #pending *)
  activeEffect : option EffectId;                 (* #active *)
  (* the heap and the scheduler *)
  tracks : gmap EffectId Track;
  signalsOpen : bool;          (* #signals has not been closed *)
  pendingCleanup : bool;       (* #runPending registered its cleanup *)
  pendingDirty : bool;         (* #runPending is scheduled to re-run *)
  bufferDirty : bool;          (* #runBuffer is scheduled to re-run *)
  waiting : list Invocation;
  fresh : nat;                 (* next object identity *)
  closedFrames : gset nat;     (* VideoFrames on which close() ran *)
  frameLog : list FrameWrite;  (* writes to [frame], oldest first *)
}.

Definition set_broadcast v
    '(mkState _ b c d e f g h i j k l m n o p q r x s t u w) :=
  mkState v b c d e f g h i j k l m n o p q r x s t u w.
Definition set_enabled v
    '(mkState a _ c d e f g h i j k l m n o p q r x s t u w) :=
  mkState a v c d e f g h i j k l m n o p q r x s t u w.
Definition set_supported v
    '(mkState a b _ d e f g h i j k l m n o p q r x s t u w) :=
  mkState a b v d e f g h i j k l m n o p q r x s t u w.
Definition set_target v
    '(mkState a b c _ e f g h i j k l m n o p q r x s t u w) :=
  mkState a b c v e f g h i j k l m n o p q r x s t u w.
Definition set_selected v
    '(mkState a b c d _ f g h i j k l m n o p q r x s t u w) :=
  mkState a b c d v f g h i j k l m n o p q r x s t u w.
Definition set_selectedConfig v
    '(mkState a b c d e _ g h i j k l m n o p q r x s t u w) :=
  mkState a b c d e v g h i j k l m n o p q r x s t u w.
Definition set_config v
    '(mkState a b c d e f _ h i j k l m n o p q r x s t u w) :=
  mkState a b c d e f v h i j k l m n o p q r x s t u w.
Definition set_active v
    '(mkState a b c d e f g _ i j k l m n o p q r x s t u w) :=
  mkState a b c d e f g v i j k l m n o p q r x s t u w.
Definition set_frame v
    '(mkState a b c d e f g h _ j k l m n o p q r x s t u w) :=
  mkState a b c d e f g h v j k l m n o p q r x s t u w.
Definition set_timestamp v
    '(mkState a b c d e f g h i _ k l m n o p q r x s t u w) :=
  mkState a b c d e f g h i v k l m n o p q r x s t u w.
Definition set_bufferStatus v
    '(mkState a b c d e f g h i j _ l m n o p q r x s t u w) :=
  mkState a b c d e f g h i j v l m n o p q r x s t u w.
Definition set_stats v
    '(mkState a b c d e f g h i j k _ m n o p q r x s t u w) :=
  mkState a b c d e f g h i j k v m n o p q r x s t u w.
Definition set_pendingEffect v
    '(mkState a b c d e f g h i j k l _ n o p q r x s t u w) :=
  mkState a b c d e f g h i j k l v n o p q r x s t u w.
Definition set_activeEffect v
    '(mkState a b c d e f g h i j k l m _ o p q r x s t u w) :=
  mkState a b c d e f g h i j k l m v o p q r x s t u w.
Definition set_tracks v
    '(mkState a b c d e f g h i j k l m n _ p q r x s t u w) :=
  mkState a b c d e f g h i j k l m n v p q r x s t u w.
Definition set_signalsOpen v
    '(mkState a b c d e f g h i j k l m n o _ q r x s t u w) :=
  mkState a b c d e f g h i j k l m n o v q r x s t u w.
Definition set_pendingCleanup v
    '(mkState a b c d e f g h i j k l m n o p _ r x s t u w) :=
  mkState a b c d e f g h i j k l m n o p v r x s t u w.
Definition set_pendingDirty v
    '(mkState a b c d e f g h i j k l m n o p q _ x s t u w) :=
  mkState a b c d e f g h i j k l m n o p q v x s t u w.
Definition set_bufferDirty v
    '(mkState a b c d e f g h i j k l m n o p q r _ s t u w) :=
  mkState a b c d e f g h i j k l m n o p q r v s t u w.
Definition set_waiting v
    '(mkState a b c d e f g h i j k l m n o p q r x _ t u w) :=
  mkState a b c d e f g h i j k l m n o p q r x v t u w.
Definition set_fresh v
    '(mkState a b c d e f g h i j k l m n o p q r x s _ u w) :=
  mkState a b c d e f g h i j k l m n o p q r x s v u w.
Definition set_closedFrames v
    '(mkState a b c d e f g h i j k l m n o p q r x s t _ w) :=
  mkState a b c d e f g h i j k l m n o p q r x s t v w.
Definition set_frameLog v
    '(mkState a b c d e f g h i j k l m n o p q r x s t u _) :=
  mkState a b c d e f g h i j k l m n o p q r x s t u v.

Section Run.

(** [Time.Milli.fromMicro] (@moq/lite). *)
Variable fromMicro : Z -> Q.

(** Modelled from the spec: the [Signal] and [Effect] classes
    (@moq/signals) are not among the sources.  Following the spec
    (5, cancellation; 9, signals and effects) a signal is a cell, an effect
    is re-run when a signal it read changes value, and closing an effect
    scope runs its cleanups and resolves its cancel token.  [changed] is
    the test that schedules a re-run. *)
Definition changed {A} `{EqDecision A} (old new : A) : bool :=
  bool_decide (old <> new).

Definition is_open (e : EffectId) (s : State) : bool :=
  match tracks s !! e with Some t => tr_open t | None => false end.

(** [frame.close()] and [frame.clone()] *)
Definition closeFrame (f : VideoFrame) (s : State) : State :=
  set_closedFrames ({[handle f]} ∪ closedFrames s) s.

Definition clone (f : VideoFrame) (s : State) : VideoFrame * State :=
  (mkFrame (fresh s) (vf_timestamp f), set_fresh (S (fresh s)) s).

(** [effect.close()] on the effect of a track.  The cleanups run last
    registered first: the one of [effect.set(this.active, name)], if the
    effect has run it, sets [active] back to [undefined]; those registered
    by [#runTrack] close the decoder and the subscription, and reset
    [#timestamp] when the effect is [#active]. *)
Definition closeEffect (e : EffectId) (s : State) : State :=
  match tracks s !! e with
  | Some t =>
      if tr_open t then
        let s1 := set_tracks (<[e := closed t]> (tracks s)) s in
        let s2 := if tr_active t then set_active None s1 else s1 in
        if decide (activeEffect s = Some e) then set_timestamp None s2 else s2
      else s
  | None => s
  end.

(** [x?.close()] *)
Definition closeEffect_opt (o : option EffectId) (s : State) : State :=
  match o with Some e => closeEffect e s | None => s end.

(** A write to the [frame] signal schedules [#runBuffer] when it changes
    the value. *)
Definition write_frame (v : option VideoFrame) (s : State) : State :=
  set_bufferDirty (bufferDirty s || changed (frame s) v) (set_frame v s).

Definition closePrev (s : State) : State :=
  match frame s with Some prev => closeFrame prev s | None => s end.

(** [this.frame.update((prev) => { prev?.close(); return undefined; })] *)
Definition clearFrame (s : State) : State :=
  let s := closePrev s in
  set_frameLog (frameLog s ++ [Cleared]) (write_frame None s).

(** Writes from outside the class. *)
Definition setBroadcast (v : option nat) (s : State) : State :=
  set_pendingDirty (pendingDirty s || changed (broadcast s) v)
    (set_broadcast v s).

Definition setEnabled (v : bool) (s : State) : State :=
  set_bufferDirty (bufferDirty s || changed (enabled s) v)
    (set_pendingDirty (pendingDirty s || changed (enabled s) v)
       (set_enabled v s)).

(** [#runSelected].

    Modelled from the spec: the signals library is not among the sources.
    The spec gives an effect scope registered cleanups, run when the scope
    is closed, and tasks that re-run on change.  [effect.set(signal, v)]
    is taken as the write of [v] together with a registered cleanup that
    writes [undefined], run before the effect re-runs and when it is
    closed, so that what an effect sets lasts as long as its run; and an
    effect that reads a signal is scheduled when the signal's value after
    a run differs from its value before.  A re-run of [#runSelected] thus
    starts from the three selection signals cleared, and [#runPending] is
    scheduled when [#selected] or [#selectedConfig] ends up with another
    value. *)
Definition choose (s : State) : option string :=
  let manual := target s ≫= rendition in
  if truthy_ostr manual && obj_in (supported s) (default "" manual)
  then manual
  else Select.selectRendition (supported s) (target s).

Definition clearSelected (s : State) : State :=
  set_selectedConfig None (set_config None (set_selected None s)).

Definition runSelected (s : State) : State :=
  let s0 := clearSelected s in
  let s1 :=
    if negb (enabled s) then s0
    else
      let sel := choose s in
      if negb (truthy_ostr sel) then s0
      else
        let full := lookup (supported s) (default "" sel) in
        set_selectedConfig (Some (strip full))
          (set_config full (set_selected sel s0)) in
  let dirty :=
    changed (selected s) (selected s1)
    || changed (selectedConfig s) (selectedConfig s1) in
  set_pendingDirty (pendingDirty s || dirty) s1.

(** [#runTrack]: subscribe and create the decoder.  With a [Bare]
    config the call then throws a TypeError at [config.container.kind],
    before the decoder is configured and before any read loop is
    spawned. *)
Definition runTrack (e : EffectId) (b : nat) (name : string)
    (c : Stripped) (s : State) : State :=
  set_tracks (<[e := mkTrack b name c true false]> (tracks s)) s.

(** The branch of [#runPending] taken when a precondition is missing. *)
Definition teardown (s : State) : State :=
  let s := closeEffect_opt (activeEffect s) s in
  let s := set_activeEffect None s in
  clearFrame s.

Definition lost (s : State) : bool :=
  negb (bool_decide (is_Some (broadcast s)))
  || negb (truthy_ostr (selected s))
  || negb (bool_decide (is_Some (selectedConfig s)))
  || negb (enabled s).

(** [#runPending], preceded by the cleanup its previous run registered. *)
Definition runPending (s : State) : State :=
  let s :=
    if pendingCleanup s then closeEffect_opt (pendingEffect s) s else s in
  let s := set_pendingCleanup false (set_pendingDirty false s) in
  if lost s then teardown s
  else
    match broadcast s, selected s, selectedConfig s with
    | Some b, Some name, Some c =>
        let e := fresh s in
        let s := set_fresh (S e) s in
        let s := set_pendingEffect (Some e) s in
        let s := set_pendingCleanup true s in
        runTrack e b name c s
    | _, _, _ => s
    end.

(** Whether this run of [#runPending] ends in the TypeError of
    [#runTrack]. *)
Definition runPending_throws (s : State) : bool :=
  negb (lost s) && bool_decide (selectedConfig s = Some Bare).

(** The comparison [timestamp < (this.#timestamp.peek() ?? 0)]. *)
Definition late (us : Z) (s : State) : bool :=
  Qltb (fromMicro us) (default 0%Q (timestamp_ s)).

(** The decoder's [output] callback, up to its await. *)
Definition output_pre (e : EffectId) (name : string) (us : Z) (s : State)
    : State :=
  let f := mkFrame (fresh s) us in
  let s := set_fresh (S (fresh s)) s in
  if late us s then closeFrame f s
  else
    let s :=
      match frame s with
      | None =>
          let '(c, s) := clone f s in
          set_frameLog (frameLog s ++ [Placeholder c])
            (write_frame (Some c) s)
      | Some _ => s
      end in
    set_waiting (waiting s ++ [mkInvocation e name f]) s.

(** The rest of the callback; [ok] is the result of the race between the
    Sync wait and [effect.cancel].  The promotion ends with
    [effect.set(this.active, name)] on the effect of the promoted
    pipeline, which the track records. *)
Definition output_post (i : Invocation) (ok : bool) (s : State) : State :=
  let f := inv_frame i in
  if negb ok then closeFrame f s
  else if late (vf_timestamp f) s then closeFrame f s
  else
    let s := set_timestamp (Some (fromMicro (vf_timestamp f))) s in
    let s := closePrev s in
    let '(c, s) := clone f s in
    let s :=
      set_frameLog (frameLog s ++ [Emitted c]) (write_frame (Some c) s) in
    let s :=
      if decide (pendingEffect s = Some (inv_effect i)) then
        let s := closeEffect_opt (activeEffect s) s in
        let s := set_activeEffect (Some (inv_effect i)) s in
        let s := set_pendingEffect None s in
        set_tracks (alter promoted (inv_effect i) (tracks s))
          (set_active (Some (inv_name i)) s)
      else s in
    closeFrame f s.

(** The stats update of [#runLegacyTrack] and [#runCmafTrack], run for a
    frame or sample read from the track before [decoder.decode]. *)
Definition receive (us byteLength : Z) (s : State) : State :=
  set_stats
    (Some (mkStats (default 0 (frameCount <$> stats s) + 1) us
             (default 0 (bytesReceived <$> stats s) + byteLength))) s.

(** [#runBuffer] *)
Definition runBuffer (s : State) : State :=
  let isBufferEmpty := enabled s && negb (bool_decide (is_Some (frame s))) in
  set_bufferDirty false
    (set_bufferStatus (if isBufferEmpty then empty else filled) s).

(** [close()]: [#signals.close()] runs the cleanups of the effects of
    [#signals], that of [#runPending] and those of the [effect.set] calls
    of [#runSelected]. *)
Definition close (s : State) : State :=
  let s := clearFrame s in
  let s := set_signalsOpen false s in
  let s := clearSelected s in
  if pendingCleanup s
  then closeEffect_opt (pendingEffect s) (set_pendingCleanup false s)
  else s.

(** *** Runs *)

(** The events of a run: writes to the input signals from outside
    ([SetSupported r] is the [#supported.set] that ends the task of
    [#runSupported], for an object with the entries [r] and the default
    prototype), runs of the three effects, a sample read from the track of
    a pipeline, a frame delivered by its decoder, the resumption of the
    [k]-th suspended callback, an error of a decoder, and [close()]. *)
Inductive Event :=
| SetBroadcast (b : option nat)
| SetEnabled (b : bool)
| SetTarget (t : option Target)
| SetSupported (r : Obj VideoConfig)
| RunSelected
| RunPending
| RunBuffer
| Receive (e : EffectId) (us byteLength : Z)
| Output (e : EffectId) (us : Z)
| Resume (k : nat)
| DecoderError (e : EffectId)
| Close.

(** One event, or [None] when it cannot happen in [s]: effects of
    [#signals] run only while it is open, a decoder delivers frames only
    until it is closed, and a suspended callback resumes with [ok] exactly
    when its effect has not been closed.  A run of [#runPending] that ends
    in the TypeError of [#runTrack] is no step either: what becomes of an
    exception thrown by an effect is decided by the signals library, which
    is not among the sources. *)
Definition step (s : State) (ev : Event) : option State :=
  match ev with
  | SetBroadcast b => Some (setBroadcast b s)
  | SetEnabled b => Some (setEnabled b s)
  | SetTarget t => Some (set_target t s)
  | SetSupported r => Some (set_supported r s)
  | RunSelected => if signalsOpen s then Some (runSelected s) else None
  | RunPending =>
      if signalsOpen s && pendingDirty s && negb (runPending_throws s)
      then Some (runPending s) else None
  | RunBuffer =>
      if signalsOpen s && bufferDirty s then Some (runBuffer s) else None
  | Receive e us n =>
      if is_open e s then Some (receive us n s) else None
  | Output e us =>
      match tracks s !! e with
      | Some t => if tr_open t then Some (output_pre e (tr_name t) us s) else None
      | None => None
      end
  | Resume k =>
      match waiting s !! k with
      | Some i =>
          Some (output_post i (is_open (inv_effect i) s)
                  (set_waiting (delete k (waiting s)) s))
      | None => None
      end
  | DecoderError e => if is_open e s then Some (closeEffect e s) else None
  | Close => Some (close s)
  end.

Fixpoint run (s : State) (evs : list Event) : option State :=
  match evs with
  | [] => Some s
  | ev :: evs' =>
      match step s ev with Some s' => run s' evs' | None => None end
  end.

(** The state the constructor leaves. *)
Definition init (b : option nat) (en : bool) : State :=
  mkState b en [] None None None None None None None empty None None None
    ∅ true false true true [] 0%nat ∅ [].

Definition reachable (s : State) : Prop :=
  exists b en evs, run (init b en) evs = Some s.

End Run.
End Source.

(** ** Decoder configuration: [#runLegacyTrack] and [#runCmafTrack] *)

Module Configure.
Section Hex.

Variable toBytes : string -> list Byte.byte.






End Hex.
End Configure.

(** ** A caller: the rendition menu of the watch UI *)

Module WatchUI.

(** [setActiveRendition] of WatchUIContextProvider.tsx:
    [target.update((prev) => ({ ...prev, rendition: name }))]. *)
Definition setActiveRendition (name : option string) (s : Source.State)
    : Source.State :=
  Source.set_target (Some (mkTarget (Source.target s ≫= pixels) name)) s.

End WatchUI.

(** ** Observations on states and runs *)

Import Source.

(** [bufferStatus] agrees with [enabled] and [frame]. *)
Definition buffer_invariant (s : State) : Prop :=
  bufferStatus s = empty <-> enabled s = true /\ frame s = None.

(** What [#runBuffer] reads and writes, and what any other transition does
    to it: the status is kept, and if the effect is not scheduled
    afterwards then it was not before and its inputs are unchanged. *)
Definition buffer_view (s : State) : BufferState * bool * option VideoFrame * bool :=
  (bufferStatus s, bufferDirty s, frame s, enabled s).

Definition buffer_step (s s' : State) : Prop :=
  bufferStatus s' = bufferStatus s
  /\ (bufferDirty s' = false ->
      bufferDirty s = false /\ frame s' = frame s /\ enabled s' = enabled s).

(** Rendition selection, read off the loop.  An entry qualifies upwards
    when it has an area above the target and downwards when it has one
    below; of two areas the better is the one closer to the target. *)
Definition qualifies (up : bool) (px : Q) (e : string * VideoConfig)
    (size : Z) : Prop :=
  Select.area e.2 = Some size
  /\ if up then (px < inject_Z size)%Q else (inject_Z size < px)%Q.

Definition better (up : bool) (a b : Z) : Prop :=
  if up then a < b else b < a.

(** [name] is the first entry of [l] with the best qualifying area. *)
Definition picked (up : bool) (px : Q) (l : Obj VideoConfig)
    (name : string) (size : Z) : Prop :=
  exists l1 r l2,
    l = l1 ++ (name, r) :: l2
    /\ qualifies up px (name, r) size
    /\ (forall e size', e ∈ l1 -> qualifies up px e size' -> better up size size')
    /\ (forall e size', e ∈ l2 -> qualifies up px e size' -> ~ better up size' size).

Definition slot (up : bool) (b : Select.Best) : option string * option Z :=
  if up then (Select.larger b, Select.largerSize b)
  else (Select.smaller b, Select.smallerSize b).

Definition slot_inv (up : bool) (px : Q) (l : Obj VideoConfig)
    (b : Select.Best) : Prop :=
  match slot up b with
  | (Some n, Some size) => size <> 0 /\ picked up px l n size
  | (None, None) => forall e size, e ∈ l -> ~ qualifies up px e size
  | _ => False
  end.

(** Two catalog configs that differ at most in codedWidth and codedHeight. *)
Definition same_but_coded_size (c1 c2 : VideoConfig) : Prop :=
  codec c1 = codec c2
  /\ description c1 = description c2
  /\ optimizeForLatency c1 = optimizeForLatency c2
  /\ container c1 = container c2.

(** The timestamps (microseconds) of the frames written to [frame], and of
    those written after the wait. *)
Definition published (l : list FrameWrite) : list Z :=
  omap (fun w => match w with
                 | Placeholder f | Emitted f => Some (vf_timestamp f)
                 | Cleared => None
                 end) l.

Definition emitted (l : list FrameWrite) : list Z :=
  omap (fun w => match w with
                 | Emitted f => Some (vf_timestamp f)
                 | Placeholder _ | Cleared => None
                 end) l.

(** Effect identities are allocated in order, and the active pipeline is
    never the pending one. *)
Definition ids_ok (s : State) : Prop :=
  (forall a, activeEffect s = Some a ->
     (a < fresh s)%nat /\ pendingEffect s <> Some a)
  /\ (forall p, pendingEffect s = Some p -> (p < fresh s)%nat).

(** The events of a running pipeline: samples read, frames decoded,
    callbacks resumed, the buffer effect. *)
Definition pipeline_event (ev : Event) : bool :=
  match ev with
  | Receive _ _ _ | Output _ _ | Resume _ | RunBuffer => true
  | _ => false
  end.

(** What one event of a running pipeline does to the log and to
    [#timestamp], while no pipeline is both pending and preceded by an
    active one. *)
Definition advance (fromMicro : Z -> Q) (s s' : State) : Prop :=
  (pendingEffect s' = None \/ activeEffect s' = None)
  /\ exists d, frameLog s' = frameLog s ++ d
       /\ (emitted d = [] /\ timestamp_ s' = timestamp_ s
           \/ exists us, emitted d = [us]
                /\ timestamp_ s' = Some (fromMicro us)
                /\ (default 0 (timestamp_ s) <= fromMicro us)%Q).

(** The part of the state that concerns [VideoFrame] objects. *)
Definition frame_view (s : State)
    : option VideoFrame * list Invocation * nat * gset nat * list FrameWrite :=
  (frame s, waiting s, fresh s, closedFrames s, frameLog s).

(** The closed frames after [prev?.close()]. *)
Definition closed_with (o : option VideoFrame) (c : gset nat) : gset nat :=
  match o with Some p => {[handle p]} ∪ c | None => c end.

(** The frames written to [frame], and the frames held by suspended
    callbacks. *)
Definition written (l : list FrameWrite) : list VideoFrame :=
  omap (fun w => match w with
                 | Placeholder f | Emitted f => Some f
                 | Cleared => None
                 end) l.

Definition waiting_handles (l : list Invocation) : list nat :=
  (fun i => handle (inv_frame i)) <$> l.

(** Ownership of the frames: closed frames are old ones; the published
    frame and the frames of suspended callbacks are distinct and open; a
    frame that was published is still published or has been closed. *)
Definition frames_ok (s : State) : Prop :=
  (forall h, h ∈ closedFrames s -> (h < fresh s)%nat)
  /\ (forall f, frame s = Some f ->
        (handle f < fresh s)%nat
        /\ (handle f ∉ closedFrames s)
        /\ (handle f ∉ waiting_handles (waiting s)))
  /\ (forall h, h ∈ waiting_handles (waiting s) ->
        (h < fresh s)%nat /\ (h ∉ closedFrames s))
  /\ NoDup (waiting_handles (waiting s))
  /\ (forall c, c ∈ written (frameLog s) ->
        frame s = Some c \/ handle c ∈ closedFrames s).

(** The track table after [effect.close()]. *)
Definition close_in (e : EffectId) (m : gmap EffectId Track)
    : gmap EffectId Track :=
  match m !! e with
  | Some t =>
      if tr_open t then <[e := closed t]> m else m
  | None => m
  end.

Definition close_in_opt (o : option EffectId) (m : gmap EffectId Track)
    : gmap EffectId Track :=
  match o with Some e => close_in e m | None => m end.

Definition open_in (e : EffectId) (m : gmap EffectId Track) : bool :=
  match m !! e with Some t => tr_open t | None => false end.

(** The tracks once the cleanup of [#runPending] has run. *)
Definition cleaned (s : State) : gmap EffectId Track :=
  if pendingCleanup s then close_in_opt (pendingEffect s) (tracks s)
  else tracks s.

(** The part of the state that concerns the pipelines. *)
Definition pipe_view (s : State)
    : gmap EffectId Track * option EffectId * option EffectId * bool * nat :=
  (tracks s, pendingEffect s, activeEffect s, pendingCleanup s, fresh s).

(** The signals that only [#runSelected] and the read loops write, and
    whether [#signals] is open. *)
Definition inputs_view (s : State)
    : option VideoStats * option string * option Found
      * option Stripped * bool :=
  (stats s, selected s, config s, selectedConfig s, signalsOpen s).

(** The rendition name a suspended callback carries is the name of the
    track its pipeline subscribed to. *)
Definition name_in (e : EffectId) (m : gmap EffectId Track) : option string :=
  tr_name <$> m !! e.

Definition names_ok (s : State) : Prop :=
  forall i, i ∈ waiting s ->
    name_in (inv_effect i) (tracks s) = Some (inv_name i).

(** The pipelines: their effects are old identities, an open one is
    [#pending] or [#active], and an open [#pending] is closed by the
    cleanup of [#runPending]. *)
Definition pipelines_ok (s : State) : Prop :=
  (forall e t, tracks s !! e = Some t -> (e < fresh s)%nat)
  /\ (forall e, is_open e s = true ->
        pendingEffect s = Some e \/ activeEffect s = Some e)
  /\ (forall p, pendingEffect s = Some p -> is_open p s = true ->
        pendingCleanup s = true).

(** The selection signals are written together: nothing is selected, or
    a rendition with its config, or a name that [supported] only inherits,
    with what the lookup finds under it. *)
Definition selection_ok (s : State) : Prop :=
  match selected s with
  | None => config s = None /\ selectedConfig s = None
  | Some n =>
      truthy_str n = true
      /\ ((exists c, config s = Some (Config c)
                     /\ selectedConfig s = Some (Req (required c)))
          \/ (inherited n = true
              /\ config s = Some (Inherited n)
              /\ selectedConfig s = Some Bare))
  end.

(** No timestamp below zero is recorded or shown. *)
Definition nonneg (fromMicro : Z -> Q) (s : State) : Prop :=
  (forall t, timestamp_ s = Some t -> (0 <= t)%Q)
  /\ Forall (fun us => (0 <= fromMicro us)%Q) (published (frameLog s)).

(** The samples read in a run, and the counters of the stats. *)
Definition samples (evs : list Event) : list (Z * Z) :=
  omap (fun ev => match ev with
                  | Receive _ us n => Some (us, n)
                  | _ => None
                  end) evs.

Definition stat_frames (s : State) : Z := default 0 (frameCount <$> stats s).
Definition stat_bytes (s : State) : Z := default 0 (bytesReceived <$> stats s).

(** Exact conversion of microseconds to milliseconds, and a catalog of two
    renditions, for the worked runs below. *)
Definition ms (us : Z) : Q := us # 1000.

Definition cfg (w h : Z) : VideoConfig :=
  mkVideoConfig "avc1.640028" (Some w) (Some h) None None Legacy.

Definition hd_sd : Obj VideoConfig :=
  [("sd", cfg 100 100); ("hd", cfg 200 200)].

(** A viewer enables the source on broadcast 7; "hd" is selected and its
    pipeline is opened as effect 0. *)
Definition start : list Event :=
  [SetSupported hd_sd; SetBroadcast (Some 7%nat); SetEnabled true;
   RunSelected; RunPending].

(** The state a run from a fresh, disabled source ends in. *)
Definition after (evs : list Event) : State :=
  default (init None false) (run ms (init None false) evs).

(** The first decoded frame of pipeline 0, suspended at its wait. *)
Definition first_call : Invocation :=
  mkInvocation 0%nat "hd" (mkFrame 1%nat 100000).

(** * Properties *)

(** ** Rendition selection *)

(** C2.  With the renditions sd (100x100) and hd (200x200) and a target of
    exactly 10000 pixels, the smallest rendition whose area is at least the
    target is sd; [selectRendition] returns hd, because the loop compares
    with [size > pixels] and a rendition of exactly the target area is
    neither "larger" nor "smaller". *)
Theorem selectRendition_skips_exact_match :
  Select.area (cfg 100 100) = Some 10000
  /\ Select.selectRendition hd_sd (Some (mkTarget (Some (inject_Z 10000)) None))
     = Some "hd".
Proof. split; vm_compute; reflexivity. Qed.

(** When every rendition has exactly the target area the loop selects
    nothing and the first entry is returned through the "no width/height
    information" fallback. *)
Example selectRendition_all_exact :
  Select.selectRendition [("a", cfg 100 100); ("b", cfg 50 200)]
    (Some (mkTarget (Some (inject_Z 10000)) None)) = Some "a".
Proof. vm_compute; reflexivity. Qed.

(** Away from an exact match the selection rounds up, then down. *)
Example selectRendition_round_up :
  Select.selectRendition hd_sd (Some (mkTarget (Some (inject_Z 9999)) None))
  = Some "sd".
Proof. vm_compute; reflexivity. Qed.

Example selectRendition_round_down :
  Select.selectRendition hd_sd (Some (mkTarget (Some (inject_Z 50000)) None))
  = Some "hd".
Proof. vm_compute; reflexivity. Qed.

Example selectRendition_default_largest :
  Select.selectRendition hd_sd None = Some "hd".
Proof. vm_compute; reflexivity. Qed.

(** Above 2^53 the areas are rounded.  The exact products below are
    2^54 + 2^28 + 1 and 2^54 + 2^28; both are the double 2^54 + 2^28, so
    the second rendition is not smaller than the first and the first is
    returned. *)
Example selectRendition_rounded_tie :
  let a := cfg 134217729 134217729 in
  let b := cfg 268435456 67108865 in
  Select.area a = Select.area b
  /\ Select.selectRendition [("a", a); ("b", b)]
       (Some (mkTarget (Some (inject_Z 1000)) None)) = Some "a".
Proof. split; vm_compute; reflexivity. Qed.

(** Rounding to a double keeps the sign, and is the identity below
    2^53. *)
Lemma round53_pos (a : Z) : 0 < a -> 0 < round53 a.
Proof.
  intros Ha. unfold round53. destruct (Z.ltb_spec (Z.log2 a) 53) as [|Hk]; [done|].
  set (sh := Z.log2 a - 52). assert (Hsh : 0 < sh) by (unfold sh; lia).
  assert (Hq : 0 < Z.shiftr a sh).
  { rewrite Z.shiftr_div_pow2 by lia. apply Z.div_str_pos. split; [lia|].
    transitivity (2 ^ Z.log2 a); [|by apply Z.log2_spec].
    apply Z.pow_le_mono_r; unfold sh; lia. }
  rewrite Z.shiftl_mul_pow2 by lia.
  apply Z.mul_pos_pos; [|lia].
  destruct (_ || _); lia.
Qed.

Lemma double_nonzero (n : Z) : n <> 0 -> double n <> 0.
Proof.
  intros Hn. unfold double.
  pose proof (round53_pos (Z.abs n)) as Hpos.
  assert (0 < Infinity) by done.
  destruct (Z.leb_spec Infinity (round53 (Z.abs n))); nia.
Qed.

Lemma double_small (n : Z) : Z.abs n < 2 ^ 53 -> double n = n.
Proof.
  intros Hn. unfold double, round53.
  destruct (Z.ltb_spec (Z.log2 (Z.abs n)) 53) as [_|Hk].
  - destruct (Z.leb_spec Infinity (Z.abs n)) as [Hinf|_].
    + unfold Infinity in Hinf.
      assert (2 ^ 53 < 2 ^ 1024) by (apply Z.pow_lt_mono_r; lia). lia.
    + lia.
  - exfalso. destruct (decide (Z.abs n = 0)) as [H0|H0].
    + rewrite H0 in Hk. simpl in Hk. lia.
    + assert (2 ^ 53 <= Z.abs n); [|lia].
      transitivity (2 ^ Z.log2 (Z.abs n)); [|apply Z.log2_spec; lia].
      apply Z.pow_le_mono_r; lia.
Qed.

Section SelectFacts.
Variable px : Q.

Lemma Qltb_true (a b : Q) : Qltb a b = true <-> (a < b)%Q.
Proof.
  unfold Qltb. rewrite Qlt_alt. destruct (a ?= b)%Q; intuition congruence.
Qed.

Lemma area_nonzero (r : VideoConfig) (size : Z) :
  Select.area r = Some size -> size <> 0.
Proof.
  unfold Select.area, truthy_onum, truthy_num.
  destruct (codedHeight r) as [h|], (codedWidth r) as [w|]; simpl.
  - destruct (Z.eqb_spec h 0), (Z.eqb_spec w 0); simpl; try congruence.
    intros [= <-]. apply double_nonzero. lia.
  - rewrite orb_true_r. congruence.
  - congruence.
  - congruence.
Qed.

Lemma qualifies_exclusive (e : string * VideoConfig) (a b : Z) :
  qualifies true px e a -> qualifies false px e b -> False.
Proof.
  intros [Ha Hlt] [Hb Hgt]. rewrite Ha in Hb. injection Hb as <-.
  apply (Qlt_irrefl px). by eapply Qlt_trans.
Qed.

(** The loop body keeps both pairs of variables as described. *)
Lemma visit_inv (up : bool) (l : Obj VideoConfig) (b : Select.Best)
    (e : string * VideoConfig) :
  slot_inv true px l b -> slot_inv false px l b ->
  slot_inv up px (l ++ [e]) (Select.visit px b e).
Proof.
  intros Hup Hdn. unfold Select.visit.
  destruct (Select.area e.2) as [size|] eqn:Ha.
  2:{ (* skipped entry *)
    assert (Hkeep : forall u, slot_inv u px l b -> slot_inv u px (l ++ [e]) b).
    { intros u. unfold slot_inv. destruct (slot u b) as [[n|] [sz|]]; try done.
      - intros (Hnz & l1 & r & l2 & -> & Hq & H1 & H2). split; [done|].
        exists l1, r, (l2 ++ [e]). rewrite <- app_assoc. split_and!; try done.
        intros e' sz' [Hin | Hin]%elem_of_app; [by eapply H2|].
        apply list_elem_of_singleton in Hin as ->.
        intros [Hq' _]. congruence.
      - intros Hnone e' sz' [Hin | Hin]%elem_of_app; [by apply Hnone|].
        apply list_elem_of_singleton in Hin as ->. intros [Hq' _]. congruence. }
    destruct up; by apply Hkeep. }
  pose proof (area_nonzero _ _ Ha) as Hnz.
  destruct (Qltb px (inject_Z size)) eqn:Habove; simpl.
  - (* the entry is above the target *)
    apply Qltb_true in Habove.
    assert (Hq : qualifies true px e size) by (by split).
    assert (Hnq : forall sz', ~ qualifies false px e sz').
    { intros sz' Hq'. by eapply qualifies_exclusive. }
    assert (Hdn' : slot_inv false px (l ++ [e]) b).
    { revert Hdn. unfold slot_inv. destruct (slot false b) as [[n|] [sz|]]; try done.
      - intros (? & l1 & r & l2 & -> & ? & H1 & H2). split; [done|].
        exists l1, r, (l2 ++ [e]). rewrite <- app_assoc. split_and!; try done.
        intros e' sz' [Hin | Hin]%elem_of_app; [by eapply H2|].
        apply list_elem_of_singleton in Hin as ->. intros Hq'. by destruct (Hnq sz').
      - intros Hnone e' sz' [Hin | Hin]%elem_of_app; [by apply Hnone|].
        apply list_elem_of_singleton in Hin as ->. apply Hnq. }
    revert Hup. unfold slot_inv at 1. simpl.
    destruct (Select.larger b) as [n|] eqn:Hn,
             (Select.largerSize b) as [sz|] eqn:Hsz; try done; simpl.
    + intros (Hsz0 & l1 & r & l2 & -> & Hqn & H1 & H2).
      unfold truthy_num. destruct (Z.eqb_spec sz 0) as [|_]; [done|]. simpl.
      destruct (Z.ltb_spec size sz) as [Hlt|Hge].
      * (* strictly better: the entry replaces the choice *)
        destruct up; [|exact Hdn' || (destruct b; exact Hdn')].
        unfold slot_inv. simpl. split; [done|].
        exists (l1 ++ (n, r) :: l2), e.2, []. destruct e as [en er]; simpl.
        split_and!; try done.
        -- intros e' sz' Hin Hq'. simpl.
           apply elem_of_app in Hin as [Hin | Hin].
           ++ specialize (H1 _ _ Hin Hq'). simpl in H1. lia.
           ++ apply elem_of_cons in Hin as [-> | Hin].
              ** destruct Hqn as [Hqa _], Hq' as [Hqa' _].
                 rewrite Hqa in Hqa'. injection Hqa' as <-. done.
              ** specialize (H2 _ _ Hin Hq'). simpl in H2. lia.
        -- intros e' sz' Hin. inversion Hin.
      * (* not better: the choice stays *)
        destruct (Qltb (inject_Z size) px) eqn:Hbelow.
        { apply Qltb_true in Hbelow. exfalso.
          apply (Qlt_irrefl px). by eapply Qlt_trans. }
        simpl. destruct up; [|exact Hdn'].
        unfold slot_inv. simpl. rewrite Hn, Hsz. split; [done|].
        exists l1, r, (l2 ++ [e]). rewrite <- app_assoc. split_and!; try done.
        intros e' sz' [Hin | Hin]%elem_of_app; [by eapply H2|].
        apply list_elem_of_singleton in Hin as ->.
        intros [Hqa' _]. rewrite Ha in Hqa'. injection Hqa' as <-. simpl. lia.
    + intros Hnone.
      destruct up; [|exact Hdn' || (destruct b; exact Hdn')].
      unfold slot_inv. simpl. split; [done|].
      exists l, e.2, []. destruct e as [en er]; simpl. split_and!; try done.
      * intros e' sz' Hin Hq'. by destruct (Hnone _ _ Hin Hq').
      * intros e' sz' Hin. inversion Hin.
  - (* the entry is not above the target *)
    assert (Hnq : forall sz', ~ qualifies true px e sz').
    { intros sz' [Hqa Hlt]. rewrite Ha in Hqa. injection Hqa as <-.
      apply Qltb_true in Hlt. congruence. }
    assert (Hup' : forall b', Select.larger b' = Select.larger b ->
              Select.largerSize b' = Select.largerSize b ->
              slot_inv true px (l ++ [e]) b').
    { intros b' Hl' Hs'. revert Hup. unfold slot_inv. simpl. rewrite Hl', Hs'.
      destruct (Select.larger b) as [n|], (Select.largerSize b) as [sz|]; try done.
      - intros (? & l1 & r & l2 & -> & ? & H1 & H2). split; [done|].
        exists l1, r, (l2 ++ [e]). rewrite <- app_assoc. split_and!; try done.
        intros e' sz' [Hin | Hin]%elem_of_app; [by eapply H2|].
        apply list_elem_of_singleton in Hin as ->. intros Hq'. by destruct (Hnq sz').
      - intros Hnone e' sz' [Hin | Hin]%elem_of_app; [by apply Hnone|].
        apply list_elem_of_singleton in Hin as ->. apply Hnq. }
    destruct (Qltb (inject_Z size) px) eqn:Hbelow; simpl.
    2:{ (* exactly the target: neither pair changes *)
      destruct up; [by apply Hup'|].
      assert (Hnq' : forall sz', ~ qualifies false px e sz').
      { intros sz' [Hqa Hlt]. rewrite Ha in Hqa. injection Hqa as <-.
        apply Qltb_true in Hlt. congruence. }
      revert Hdn. unfold slot_inv. destruct (slot false b) as [[n|] [sz|]]; try done.
      - intros (? & l1 & r & l2 & -> & ? & H1 & H2). split; [done|].
        exists l1, r, (l2 ++ [e]). rewrite <- app_assoc. split_and!; try done.
        intros e' sz' [Hin | Hin]%elem_of_app; [by eapply H2|].
        apply list_elem_of_singleton in Hin as ->. intros Hq'. by destruct (Hnq' sz').
      - intros Hnone e' sz' [Hin | Hin]%elem_of_app; [by apply Hnone|].
        apply list_elem_of_singleton in Hin as ->. apply Hnq'. }
    apply Qltb_true in Hbelow.
    assert (Hq : qualifies false px e size) by (by split).
    revert Hdn. unfold slot_inv at 1. simpl.
    destruct (Select.smaller b) as [n|] eqn:Hn,
             (Select.smallerSize b) as [sz|] eqn:Hsz; try done; simpl.
    + intros (Hsz0 & l1 & r & l2 & -> & Hqn & H1 & H2).
      unfold truthy_num. destruct (Z.eqb_spec sz 0) as [|_]; [done|]. simpl.
      destruct (Z.ltb_spec sz size) as [Hlt|Hge].
      * destruct up; [by apply Hup'|].
        unfold slot_inv. simpl. split; [done|].
        exists (l1 ++ (n, r) :: l2), e.2, []. destruct e as [en er]; simpl.
        split_and!; try done.
        -- intros e' sz' Hin Hq'. simpl.
           apply elem_of_app in Hin as [Hin | Hin].
           ++ specialize (H1 _ _ Hin Hq'). simpl in H1. lia.
           ++ apply elem_of_cons in Hin as [-> | Hin].
              ** destruct Hqn as [Hqa _], Hq' as [Hqa' _].
                 rewrite Hqa in Hqa'. injection Hqa' as <-. done.
              ** specialize (H2 _ _ Hin Hq'). simpl in H2. lia.
        -- intros e' sz' Hin. inversion Hin.
      * destruct up; [by apply Hup'|].
        unfold slot_inv. simpl. rewrite Hn, Hsz. split; [done|].
        exists l1, r, (l2 ++ [e]). rewrite <- app_assoc. split_and!; try done.
        intros e' sz' [Hin | Hin]%elem_of_app; [by eapply H2|].
        apply list_elem_of_singleton in Hin as ->.
        intros [Hqa' _]. rewrite Ha in Hqa'. injection Hqa' as <-. simpl. lia.
    + intros Hnone. destruct up; [by apply Hup'|].
      unfold slot_inv. simpl. split; [done|].
      exists l, e.2, []. destruct e as [en er]; simpl. split_and!; try done.
      * intros e' sz' Hin Hq'. by destruct (Hnone _ _ Hin Hq').
      * intros e' sz' Hin. inversion Hin.
Qed.

Lemma scan_from (up : bool) (l pre : Obj VideoConfig) (b : Select.Best) :
  slot_inv true px pre b -> slot_inv false px pre b ->
  slot_inv up px (pre ++ l) (fold_left (Select.visit px) l b).
Proof.
  revert pre b. induction l as [|e l IH]; intros pre b Hup Hdn; simpl.
  - rewrite app_nil_r. by destruct up.
  - replace (pre ++ e :: l) with ((pre ++ [e]) ++ l)
      by (by rewrite <- app_assoc).
    apply IH; by apply visit_inv.
Qed.

Lemma scan_inv (up : bool) (l : Obj VideoConfig) :
  slot_inv up px l (Select.scan px l).
Proof.
  apply (scan_from up l []); unfold slot_inv; destruct up; simpl;
    intros e size Hin; inversion Hin.
Qed.

End SelectFacts.

(** Away from exact matches [selectRendition] does what the loop is
    written for.  With at least two renditions, all with non-empty names,
    it returns the first entry of smallest area above the target; when no
    area is above the target, the first entry of largest area below it;
    and when no entry has an area above or below the target (none has
    dimensions, or all have exactly the target area), the first entry.
    The area is the one the loop compares, the product of the two sizes
    as a JavaScript number: two renditions whose exact products differ
    but round to the same double tie, and the first one is kept
    ([selectRendition_rounded_tie]). *)
Lemma selectRendition_rounds (renditions : Obj VideoConfig)
    (target : option Target) :
  (2 <= length renditions)%nat ->
  (forall e, e ∈ renditions -> e.1 <> "") ->
  let px := default Select.default_pixels (target ≫= pixels) in
  exists name,
    Select.selectRendition renditions target = Some name
    /\ ((exists size, picked true px renditions name size)
        \/ ((forall e size, e ∈ renditions -> ~ qualifies true px e size)
            /\ exists size, picked false px renditions name size)
        \/ ((forall e size, e ∈ renditions -> ~ qualifies true px e size)
            /\ (forall e size, e ∈ renditions -> ~ qualifies false px e size)
            /\ fst <$> head renditions = Some name)).
Proof.
  intros Hlen Hnames px.
  destruct renditions as [|e0 [|e1 rest]]; simpl in Hlen; try lia.
  unfold Select.selectRendition. fold px.
  set (l := e0 :: e1 :: rest) in *.
  pose proof (scan_inv px true l) as Hup.
  pose proof (scan_inv px false l) as Hdn.
  unfold slot_inv in Hup, Hdn. simpl in Hup, Hdn.
  assert (Htruthy : forall up n size, picked up px l n size ->
            truthy_ostr (Some n) = true).
  { intros up n size (l1 & r & l2 & Hl & _). simpl. unfold truthy_str.
    destruct (decide (n = "")) as [->|]; [|done].
    destruct (Hnames ("", r)); [|done]. rewrite Hl. set_solver. }
  destruct (Select.larger (Select.scan px l)) as [n|],
           (Select.largerSize (Select.scan px l)) as [sz|]; try done.
  - destruct Hup as [_ Hup]. rewrite (Htruthy _ _ _ Hup). eauto.
  - simpl.
    destruct (Select.smaller (Select.scan px l)) as [n|],
             (Select.smallerSize (Select.scan px l)) as [sz|]; try done.
    + destruct Hdn as [_ Hdn]. rewrite (Htruthy _ _ _ Hdn). eauto 10.
    + simpl. exists e0.1. split; [done|]. right. right. done.
Qed.

(** What is selected is the name of an entry. *)
Lemma picked_key (up : bool) (px : Q) (l : Obj VideoConfig) (n : string)
    (size : Z) :
  picked up px l n size -> n ∈ obj_keys l.
Proof.
  intros (l1 & r & l2 & -> & _). unfold obj_keys.
  rewrite fmap_app, elem_of_app. right. simpl. left.
Qed.

Lemma selectRendition_key (renditions : Obj VideoConfig)
    (target : option Target) (n : string) :
  Select.selectRendition renditions target = Some n ->
  n ∈ obj_keys renditions.
Proof.
  destruct renditions as [|e0 [|e1 rest]]; simpl; [done | |].
  - intros [= <-]. left.
  - set (l := e0 :: e1 :: rest).
    set (px := default Select.default_pixels (target ≫= pixels)).
    pose proof (scan_inv px true l) as Hup.
    pose proof (scan_inv px false l) as Hdn.
    unfold slot_inv in Hup, Hdn. simpl in Hup, Hdn.
    destruct (Select.larger (Select.scan px l)) as [n1|],
             (Select.largerSize (Select.scan px l)) as [sz1|]; try done;
      simpl.
    + destruct Hup as [_ Hup]. apply picked_key in Hup.
      destruct (truthy_str n1); [by intros [= <-]|].
      destruct (Select.smaller (Select.scan px l)) as [n2|],
               (Select.smallerSize (Select.scan px l)) as [sz2|]; try done;
        simpl.
      * destruct Hdn as [_ Hdn]. apply picked_key in Hdn.
        destruct (truthy_str n2); intros [= <-]; [done | left].
      * intros [= <-]. left.
    + destruct (Select.smaller (Select.scan px l)) as [n2|],
               (Select.smallerSize (Select.scan px l)) as [sz2|]; try done;
        simpl.
      * destruct Hdn as [_ Hdn]. apply picked_key in Hdn.
        destruct (truthy_str n2); intros [= <-]; [done | left].
      * intros [= <-]. left.
Qed.

Lemma obj_has_key {V} (o : Obj V) (k : string) :
  k ∈ obj_keys o -> obj_has o k = true.
Proof.
  unfold obj_has. induction o as [|[k' v] o IH]; simpl.
  - intros H. inversion H.
  - intros [-> | Hin]%elem_of_cons.
    + by destruct (decide (k' = k')).
    + destruct (decide (k' = k)); [done | by apply IH].
Qed.

(** The name [#runSelected] selects is a key of [#supported], or the
    manual choice when that names something [#supported] inherits. *)
Lemma choose_key (s : Source.State) (n : string) :
  Source.choose s = Some n ->
  obj_has (Source.supported s) n = true
  \/ (Source.target s ≫= rendition = Some n /\ inherited n = true).
Proof.
  unfold Source.choose.
  destruct (Source.target s ≫= rendition) as [m|] eqn:Hm; simpl.
  - destruct (truthy_str m && obj_in (Source.supported s) m) eqn:Hc.
    + intros [= <-]. apply andb_true_iff in Hc as [_ Hin].
      unfold obj_in in Hin. apply orb_true_iff in Hin as [Hin | Hin]; auto.
    + intros H. left. apply obj_has_key. by eapply selectRendition_key.
  - intros H. left. apply obj_has_key. by eapply selectRendition_key.
Qed.

(** What the lookup of a key finds. *)
Lemma lookup_own (o : Obj VideoConfig) (k : string) :
  obj_has o k = true ->
  exists c, obj_get o k = Some c /\ Source.lookup o k = Some (Source.Config c).
Proof.
  unfold obj_has, Source.lookup. destruct (obj_get o k) as [c|]; [eauto | done].
Qed.

(** ** Capability filter *)

Section SupportedFacts.
Variable isConfigSupported : Supported.DecoderConfig -> bool.
Variable toBytes : string -> list Byte.byte.
Variable isConfigSupported_throws : Supported.DecoderConfig -> bool.
Variable toBytes_throws : string -> bool.

Abbreviation probe := (Supported.probe toBytes).
Abbreviation throws :=
  (Supported.throws toBytes isConfigSupported_throws toBytes_throws).
Abbreviation check :=
  (Supported.check isConfigSupported toBytes isConfigSupported_throws
     toBytes_throws).
Abbreviation runSupported :=
  (Supported.runSupported isConfigSupported toBytes isConfigSupported_throws
     toBytes_throws).
Abbreviation keep :=
  (fun e : string * VideoConfig => isConfigSupported (probe e.2)).

Lemma obj_set_fresh {V} (o : Obj V) k (v : V) :
  k ∉ obj_keys o -> obj_set o k v = o ++ [(k, v)].
Proof.
  induction o as [|[k' v'] o IH]; simpl; intros Hk; [done|].
  apply not_elem_of_cons in Hk as [Hne Hk].
  destruct (decide (k' = k)); [congruence|]. by rewrite IH.
Qed.

Lemma obj_keys_filter {V} (P : string * V -> bool) (o : Obj V) k :
  k ∈ obj_keys (List.filter P o) -> k ∈ obj_keys o.
Proof.
  unfold obj_keys. induction o as [|e o IH]; simpl; [done|].
  destruct (P e); simpl; rewrite !elem_of_cons; tauto.
Qed.

(** The loop while no iteration throws and no rendition is named
    [__proto__]. *)
Lemma fold_check (rs acc : Obj VideoConfig) (p : option VideoConfig) :
  NoDup (obj_keys (acc ++ rs)) ->
  (forall k, k ∈ obj_keys acc -> k ∉ obj_keys rs) ->
  "__proto__" ∉ obj_keys rs ->
  (forall e, e ∈ rs -> throws e.2 = false) ->
  fold_left check rs (Some (Supported.mkBuilt acc p))
  = Some (Supported.mkBuilt (acc ++ List.filter keep rs) p).
Proof.
  revert acc. induction rs as [|[k r] rs IH]; intros acc Hnd Hdisj Hpr Hth; simpl.
  - by rewrite app_nil_r.
  - assert (Hk : k ∉ obj_keys acc).
    { intros Hin. apply (Hdisj _ Hin). simpl. left. }
    assert (Hk' : k ∉ obj_keys rs).
    { unfold obj_keys in *. rewrite fmap_app in Hnd.
      apply NoDup_app in Hnd as (_ & _ & Hnd). simpl in Hnd.
      by apply NoDup_cons in Hnd as [? _]. }
    simpl in Hpr. apply not_elem_of_cons in Hpr as [Hkp Hpr].
    assert (Hr : throws r = false) by (apply (Hth (k, r)); left).
    assert (Hth' : forall e, e ∈ rs -> throws e.2 = false).
    { intros e He. apply Hth. by right. }
    rewrite Hr. destruct (isConfigSupported (probe r)) eqn:Hs.
    + unfold Supported.assign. simpl.
      destruct (decide (k = "__proto__")) as [->|_]; [done|].
      rewrite obj_set_fresh by done. rewrite IH; try done.
      * by rewrite <- app_assoc.
      * by rewrite <- app_assoc.
      * intros k0. unfold obj_keys. rewrite fmap_app, elem_of_app. simpl.
        rewrite list_elem_of_singleton. intros [Hin | ->]; [|done].
        intros Hin'. apply (Hdisj _ Hin). simpl. by right.
    + apply IH; try done.
      * unfold obj_keys in *. rewrite fmap_app in *. simpl in Hnd.
        apply NoDup_app in Hnd as (Ha & Hd & Hr').
        apply NoDup_cons in Hr' as [_ Hr'].
        apply NoDup_app; split_and!; [done | | done].
        intros x Hx Hx'. apply (Hd x Hx). by right.
      * intros k0 Hin Hin'. apply (Hdisj _ Hin). simpl. by right.
Qed.

(** The loop once an iteration throws. *)
Lemma fold_check_thrown (rs : Obj VideoConfig) :
  fold_left check rs None = None.
Proof. induction rs as [|e rs IH]; [done | exact IH]. Qed.

Lemma fold_check_throws (rs : Obj VideoConfig) (acc : option Supported.Built) :
  (exists e, e ∈ rs /\ throws e.2 = true) ->
  fold_left check rs acc = None.
Proof.
  revert acc. induction rs as [|e0 rs IH]; intros acc (e & He & Hth).
  - inversion He.
  - simpl. apply elem_of_cons in He as [-> | He].
    + destruct acc as [b|]; simpl; [|apply fold_check_thrown].
      rewrite Hth. apply fold_check_thrown.
    + apply IH. eauto.
Qed.

(** C9.  For a catalog whose renditions have distinct names (a JavaScript
    object), none of them [__proto__], [#runSupported] asks the platform
    decoder once per rendition with the probe described: for cmaf only the
    codec and optimizeForLatency, for legacy the whole config with the
    description decoded from hex (none when it is absent or empty).  When
    neither [Hex.toBytes] nor the decoder throws, the renditions written to
    [#supported] are exactly those the decoder supports, in catalog order,
    and the warning is issued exactly when none is kept although the
    catalog has renditions.  When one of them throws for some rendition,
    the task ends there: no warning is issued and [#supported] is not
    written. *)
Theorem runSupported_filters (renditions : Obj VideoConfig) :
  NoDup (obj_keys renditions) ->
  "__proto__" ∉ obj_keys renditions ->
  (forall r ts, container r = Cmaf ts ->
     probe r = Supported.mkDecoderConfig (codec r) None None None
                 (Some (default true (optimizeForLatency r))) None)
  /\ (forall r, container r = Legacy ->
        Supported.dc_codec (probe r) = codec r
        /\ Supported.dc_optimizeForLatency (probe r)
           = Some (default true (optimizeForLatency r))
        /\ Supported.dc_codedWidth (probe r) = codedWidth r
        /\ Supported.dc_codedHeight (probe r) = codedHeight r
        /\ (forall d, description r = Some d -> d <> "" ->
              Supported.dc_description (probe r) = Some (toBytes d))
        /\ (description r = None \/ description r = Some "" ->
            Supported.dc_description (probe r) = None))
  /\ ((forall e, e ∈ renditions -> throws e.2 = false) ->
      exists warned,
        runSupported (Some renditions)
        = Supported.Written
            (Supported.mkBuilt (List.filter keep renditions) None) warned
        /\ (warned = true
            <-> List.filter keep renditions = [] /\ renditions <> []))
  /\ ((exists e, e ∈ renditions /\ throws e.2 = true) ->
      runSupported (Some renditions) = Supported.Thrown).
Proof.
  intros Hnd Hpr. split_and!.
  - intros r ts Hc. unfold Supported.probe. by rewrite Hc.
  - intros r Hc. unfold Supported.probe. rewrite Hc. simpl. split_and!; try done.
    + intros d Hd Hne. rewrite Hd. simpl. unfold truthy_str.
      by destruct (decide (d = "")).
    + by intros [-> | ->].
  - intros Hth. unfold Supported.runSupported. simpl.
    rewrite (fold_check renditions [] None); try done.
    + eexists. split; [reflexivity|]. simpl.
      unfold obj_keys. rewrite !length_fmap.
      destruct (List.filter keep renditions), renditions; simpl;
        intuition (congruence || discriminate).
    + intros k Hk. inversion Hk.
  - intros Hth. unfold Supported.runSupported. simpl.
    by rewrite fold_check_throws.
Qed.

End SupportedFacts.

(** A decoder that supports only H.264 and throws on nothing, and a hex
    decoder that is never called on the catalog below. *)
Lemma runSupported_filters_witness :
  let ok := fun d => bool_decide (Supported.dc_codec d = "avc1.640028") in
  NoDup (obj_keys hd_sd)
  /\ ("__proto__" ∉ obj_keys hd_sd)
  /\ Supported.runSupported ok (fun _ => []) (fun _ => false) (fun _ => false)
       (Some hd_sd)
     = Supported.Written (Supported.mkBuilt hd_sd None) false.
Proof.
  intros ok.
  assert (H1 : NoDup (obj_keys hd_sd)).
  { apply (bool_decide_unpack _). vm_compute. exact I. }
  assert (H2 : "__proto__" ∉ obj_keys hd_sd).
  { apply (bool_decide_unpack _). vm_compute. exact I. }
  split; [exact H1|]. split; [exact H2|].
  assert (H3 : forall e, e ∈ hd_sd ->
            Supported.throws (fun _ => []) (fun _ => false) (fun _ => false)
              e.2 = false).
  { intros e _. unfold Supported.throws. destruct (container e.2); [done|].
    destruct (description e.2); simpl; [by rewrite andb_false_r | done]. }
  destruct (runSupported_filters ok (fun _ => []) (fun _ => false)
              (fun _ => false) hd_sd H1 H2) as (_ & _ & H & _).
  destruct (H H3) as (warned & Hrun & Hw).
  assert (Hwf : warned = false).
  { destruct warned; [|reflexivity].
    destruct (proj1 Hw eq_refl) as [Hf _]. vm_compute in Hf. discriminate Hf. }
  rewrite Hrun, Hwf. vm_compute. reflexivity.
Defined.

(** C9, counterexample.  A legacy rendition whose description has an odd
    number of hex digits, with a hex decoder that throws on such a string
    and a decoder that supports nothing.  [Hex.toBytes] throws inside the
    loop, so the task ends before the warning and before
    [#supported.set]: no rendition is kept, the catalog is not empty, and
    no warning is issued. *)
Lemma runSupported_throw_skips_warning :
  let bad :=
    mkVideoConfig "avc1.640028" (Some 200) (Some 200) (Some "abc") None Legacy in
  let odd := fun d => Nat.odd (String.length d) in
  Supported.runSupported (fun _ => false) (fun _ => []) (fun _ => false) odd
    (Some [("hd", bad)])
  = Supported.Thrown
  /\ (forall warned,
        Supported.runSupported (fun _ => false) (fun _ => []) (fun _ => false)
          odd (Some [("hd", bad)])
        <> Supported.Written (Supported.mkBuilt [] None) warned).
Proof. intros bad odd. split; [vm_compute; reflexivity | done]. Qed.

(** ** The callback of the decoder *)

Section SourceFacts.
Variable fromMicro : Z -> Q.

Abbreviation late := (Source.late fromMicro).
Abbreviation output_pre := (Source.output_pre fromMicro).
Abbreviation output_post := (Source.output_post fromMicro).

(** C6.  A decoded frame that is not late is published at once, before the
    wait, exactly when no frame is published; when one is published the
    [frame] signal is left alone.  Either way the callback then suspends. *)
Theorem placeholder_latch (s : State) (e : EffectId) (name : string) (us : Z) :
  late us s = false ->
  let s' := output_pre e name us s in
  let f := mkFrame (fresh s) us in
  (frame s = None ->
     exists c, vf_timestamp c = us
       /\ frame s' = Some c
       /\ frameLog s' = frameLog s ++ [Placeholder c])
  /\ (forall g, frame s = Some g ->
        frame s' = Some g /\ frameLog s' = frameLog s)
  /\ waiting s' = waiting s ++ [mkInvocation e name f]
  /\ timestamp_ s' = timestamp_ s.
Proof.
  intros Hlate. unfold Source.output_pre.
  destruct s; simpl in *. unfold Source.late in *; simpl in *.
  rewrite Hlate. destruct frame0; simpl.
  - split_and!; [done | | done | done]. intros g [= <-]. by split.
  - split_and!; [| done | done | done]. intros _. eexists. split; [|split; reflexivity]. reflexivity.
Qed.

(** *** Closing an effect *)

(** [effect.close()] touches the track table and [#timestamp] only. *)
Lemma closeEffect_shape (e : EffectId) (s : State) :
  exists m t ac,
    closeEffect e s = set_timestamp t (set_active ac (set_tracks m s))
    /\ (forall e', e' <> e -> m !! e' = tracks s !! e')
    /\ (forall tr, m !! e = Some tr -> tr_open tr = false)
    /\ (t = timestamp_ s \/ t = None /\ activeEffect s = Some e /\ is_open e s = true).
Proof.
  unfold closeEffect, is_open. destruct (tracks s !! e) as [tr|] eqn:Hl.
  - destruct (tr_open tr) eqn:Ho.
    + exists (<[e:=closed tr]> (tracks s)),
        (if decide (activeEffect s = Some e) then None else timestamp_ s),
        (if tr_active tr then None else active s).
      split_and!.
      * destruct (decide (activeEffect s = Some e)), (tr_active tr);
          destruct s; reflexivity.
      * intros e' Hne. by rewrite lookup_insert_ne.
      * intros tr'. rewrite lookup_insert_eq. by intros [= <-].
      * destruct (decide (activeEffect s = Some e)); auto.
    + exists (tracks s), (timestamp_ s), (active s). split_and!; auto.
      * destruct s; reflexivity.
      * intros tr'. rewrite Hl. by intros [= <-].
  - exists (tracks s), (timestamp_ s), (active s). split_and!; auto.
    + destruct s; reflexivity.
    + intros tr'. by rewrite Hl.
Qed.


Lemma closeEffect_opt_shape (o : option EffectId) (s : State) :
  exists m t ac, closeEffect_opt o s = set_timestamp t (set_active ac (set_tracks m s)).
Proof.
  destruct o as [e|]; simpl.
  - destruct (closeEffect_shape e s) as (m & t & ac & -> & _). eauto.
  - exists (tracks s), (timestamp_ s), (active s). by destruct s.
Qed.

(** The cleanup that a run of [#runPending] starts with. *)
Lemma pending_cleanup_shape (s : State) :
  exists m t ac,
    (if pendingCleanup s then closeEffect_opt (pendingEffect s) s else s)
    = set_timestamp t (set_active ac (set_tracks m s))
    /\ (forall a, pendingEffect s <> Some a -> m !! a = tracks s !! a).
Proof.
  destruct (pendingCleanup s), (pendingEffect s) as [p|]; simpl;
    try (exists (tracks s), (timestamp_ s), (active s); split; [by destruct s | done]).
  destruct (closeEffect_shape p s) as (m & t & ac & -> & Hm & _).
  exists m, t, ac. split; [done|]. intros a Ha. apply Hm. congruence.
Qed.

(** Recording a promotion leaves every pipeline as open as it was. *)
Lemma open_in_promoted (e e' : EffectId) (m : gmap EffectId Track) :
  open_in e' (alter promoted e m) = open_in e' m.
Proof.
  unfold open_in. destruct (decide (e = e')) as [->|Hne].
  - rewrite lookup_alter_eq. by destruct (m !! e').
  - by rewrite lookup_alter_ne.
Qed.

(** [#runSelected] writes the three selection signals and schedules
    [#runPending], nothing else. *)
Lemma runSelected_shape (s : State) :
  exists sel cfg sc d,
    runSelected s
    = set_pendingDirty d
        (set_selectedConfig sc (set_config cfg (set_selected sel s))).
Proof.
  unfold runSelected, clearSelected.
  destruct (negb (enabled s)); [by repeat eexists; destruct s|].
  destruct (negb (truthy_ostr (choose s))); by repeat eexists; destruct s.
Qed.

(** ** Teardown *)


(** ** Buffer status *)

Lemma changed_false {A} `{EqDecision A} (a b : A) :
  changed a b = false -> a = b.
Proof.
  unfold changed. intros H%bool_decide_eq_false.
  destruct (decide (a = b)); [done | contradiction].
Qed.

Lemma buffer_step_view (s s' : State) :
  buffer_view s' = buffer_view s -> buffer_step s s'.
Proof. unfold buffer_view, buffer_step. intros [= -> -> -> ->]. auto. Qed.

Lemma buffer_step_trans (s1 s2 s3 : State) :
  buffer_step s1 s2 -> buffer_step s2 s3 -> buffer_step s1 s3.
Proof.
  intros [H1 H1'] [H2 H2']. split; [congruence|]. intros Hd.
  destruct (H2' Hd) as (Hd2 & Hf2 & He2). destruct (H1' Hd2) as (? & ? & ?).
  split_and!; congruence.
Qed.

Lemma write_frame_step (v : option VideoFrame) (s : State) :
  buffer_step s (write_frame v s).
Proof.
  unfold buffer_step, write_frame. destruct s; simpl. split; [done|].
  intros [H1 H2]%orb_false_elim. apply changed_false in H2. auto.
Qed.

Lemma closeEffect_opt_view (o : option EffectId) (s : State) :
  buffer_view (closeEffect_opt o s) = buffer_view s.
Proof.
  destruct (closeEffect_opt_shape o s) as (m & t & ac & ->). by destruct s.
Qed.

Lemma clearFrame_step (s : State) : buffer_step s (clearFrame s).
Proof.
  unfold clearFrame.
  apply buffer_step_trans with (closePrev s).
  { apply buffer_step_view. unfold closePrev.
    destruct s as [? ? ? ? ? ? ? ? fr]; by destruct fr. }
  apply buffer_step_trans with (write_frame None (closePrev s)).
  { apply write_frame_step. }
  apply buffer_step_view. by destruct (write_frame None (closePrev s)).
Qed.

Lemma runPending_step (s : State) : buffer_step s (runPending s).
Proof.
  unfold runPending.
  destruct (pending_cleanup_shape s) as (m & t & ac & -> & _).
  set (s2 := set_pendingCleanup false _).
  apply buffer_step_trans with s2.
  { apply buffer_step_view. subst s2. by destruct s. }
  clearbody s2. destruct (lost s2).
  - unfold teardown.
    set (s3 := set_activeEffect None _).
    apply buffer_step_trans with s3; [|apply clearFrame_step].
    apply buffer_step_view. subst s3.
    rewrite <- (closeEffect_opt_view (activeEffect s2) s2).
    by destruct (closeEffect_opt (activeEffect s2) s2).
  - destruct (broadcast s2), (selected s2), (selectedConfig s2);
      apply buffer_step_view; by destruct s2.
Qed.

Lemma output_pre_step (e : EffectId) (name : string) (us : Z) (s : State) :
  buffer_step s (output_pre e name us s).
Proof.
  unfold Source.output_pre. destruct (Source.late _ _ _).
  { apply buffer_step_view. by destruct s. }
  destruct (frame (set_fresh (S (fresh s)) s)) eqn:Hf.
  { apply buffer_step_view. by destruct s. }
  unfold clone.
  set (s1 := set_fresh (S (fresh (set_fresh _ s))) _).
  apply buffer_step_trans with s1.
  { apply buffer_step_view. subst s1. by destruct s. }
  apply buffer_step_trans with (write_frame (Some (mkFrame (S (fresh s)) us)) s1).
  { apply write_frame_step. }
  apply buffer_step_view. subst s1. by destruct s.
Qed.

Lemma output_post_step (i : Invocation) (ok : bool) (s : State) :
  buffer_step s (output_post i ok s).
Proof.
  unfold Source.output_post. destruct (negb ok).
  { apply buffer_step_view. by destruct s. }
  destruct (Source.late _ _ _).
  { apply buffer_step_view. by destruct s. }
  unfold clone.
  set (s1 := set_fresh _ (closePrev _)).
  set (c := mkFrame _ _).
  apply buffer_step_trans with s1.
  { apply buffer_step_view. subst s1. unfold closePrev.
    destruct s as [? ? ? ? ? ? ? ? fr]; by destruct fr. }
  apply buffer_step_trans with (write_frame (Some c) s1).
  { apply write_frame_step. }
  clearbody s1 c.
  set (s2 := set_frameLog _ _).
  apply buffer_step_trans with s2.
  { apply buffer_step_view. subst s2. by destruct (write_frame (Some c) s1). }
  clearbody s2. apply buffer_step_view.
  destruct (decide _); [|by destruct s2].
  rewrite <- (closeEffect_opt_view (activeEffect s2) s2).
  by destruct (closeEffect_opt (activeEffect s2) s2).
Qed.

Lemma close_step (s : State) : buffer_step s (close s).
Proof.
  unfold close.
  apply buffer_step_trans with (clearFrame s); [apply clearFrame_step|].
  generalize (clearFrame s). clear s. intros s.
  apply buffer_step_view.
  set (s1 := clearSelected (set_signalsOpen false s)).
  assert (Hv : buffer_view s1 = buffer_view s) by (subst s1; by destruct s).
  rewrite <- Hv. clearbody s1.
  destruct (pendingCleanup s1); [|done].
  rewrite closeEffect_opt_view. by destruct s1.
Qed.

Lemma step_buffer (s s' : State) (ev : Event) :
  step fromMicro s ev = Some s' ->
  ev = RunBuffer /\ s' = runBuffer s \/ buffer_step s s'.
Proof.
  intros Hstep. destruct ev; simpl in Hstep.
  - right. injection Hstep as <-. apply buffer_step_view. by destruct s.
  - right. injection Hstep as <-. unfold buffer_step, setEnabled.
    destruct s; simpl. split; [done|].
    intros [H1 H2]%orb_false_elim. apply changed_false in H2. auto.
  - right. injection Hstep as <-. apply buffer_step_view. by destruct s.
  - right. injection Hstep as <-. apply buffer_step_view. by destruct s.
  - right. destruct (signalsOpen s); [|done]. injection Hstep as <-.
    apply buffer_step_view.
    destruct (runSelected_shape s) as (? & ? & ? & ? & ->). by destruct s.
  - right. destruct (signalsOpen s && pendingDirty s && negb (runPending_throws s));
      [|done].
    injection Hstep as <-. apply runPending_step.
  - left. destruct (signalsOpen s && bufferDirty s); [|done].
    by injection Hstep as <-.
  - right. destruct (is_open e s); [|done]. injection Hstep as <-.
    apply buffer_step_view. by destruct s.
  - right. destruct (tracks s !! e) as [t|]; [|done].
    destruct (tr_open t); [|done]. injection Hstep as <-.
    apply output_pre_step.
  - right. destruct (waiting s !! k) as [i|]; [|done]. injection Hstep as <-.
    apply buffer_step_trans with (set_waiting (delete k (waiting s)) s).
    { apply buffer_step_view. by destruct s. }
    apply output_post_step.
  - right. destruct (is_open e s); [|done]. injection Hstep as <-.
    apply buffer_step_view. apply (closeEffect_opt_view (Some e)).
  - right. injection Hstep as <-. apply close_step.
Qed.

Lemma runBuffer_invariant (s : State) :
  buffer_invariant (runBuffer s)
  /\ bufferDirty (runBuffer s) = false
  /\ (bufferStatus (runBuffer s) = filled
      <-> ~ (enabled s = true /\ frame s = None)).
Proof.
  unfold buffer_invariant, runBuffer.
  destruct s as [? en ? ? ? ? ? ? fr]; simpl.
  destruct en, fr; simpl; intuition (congruence || discriminate).
Qed.

(** C7, as the code has it.  [bufferStatus] is written by the effect
    [#runBuffer] only, which is scheduled when [frame] or [enabled]
    changes and runs while the source is open.  In every reachable state
    in which the effect is not waiting to re-run, the status is "empty"
    exactly when the source is enabled and no frame is published; and
    each run of the effect establishes this, with "filled" in every other
    case. *)
Theorem bufferStatus_follows_effect (s : State) :
  reachable fromMicro s ->
  (bufferDirty s = false -> buffer_invariant s)
  /\ buffer_invariant (runBuffer s)
  /\ bufferDirty (runBuffer s) = false
  /\ (bufferStatus (runBuffer s) = filled
      <-> ~ (enabled s = true /\ frame s = None)).
Proof.
  intros (b & en & evs & Hrun). split; [|apply runBuffer_invariant].
  assert (H0 : bufferDirty (init b en) = false -> buffer_invariant (init b en))
    by done.
  revert Hrun H0. generalize (init b en). clear b en.
  induction evs as [|ev evs IH]; intros s0 Hrun H0; simpl in Hrun.
  - by injection Hrun as <-.
  - destruct (step fromMicro s0 ev) as [s1|] eqn:Hstep; [|done].
    apply (IH s1 Hrun).
    destruct (step_buffer _ _ _ Hstep) as [[_ ->] | [Hst Hd]].
    + intros _. apply runBuffer_invariant.
    + intros Hd1. destruct (Hd Hd1) as (Hd0 & Hf & He).
      specialize (H0 Hd0). unfold buffer_invariant in *.
      by rewrite Hst, Hf, He.
Qed.

(** ** Stats *)

(** C8, as the code has it.  The stats are updated where a frame or sample
    is read from the track, before it is given to the decoder: the frame
    count goes up by one, the byte count by the payload's length, and the
    timestamp becomes the sample's.  Neither segment of the decoder's
    output callback writes the stats, and reading a sample publishes
    nothing. *)
Theorem stats_updated_on_receive (s : State) (us byteLength : Z) :
  stats (receive us byteLength s)
  = Some (mkStats (default 0 (frameCount <$> stats s) + 1) us
            (default 0 (bytesReceived <$> stats s) + byteLength))
  /\ frameLog (receive us byteLength s) = frameLog s
  /\ (forall e name us', stats (output_pre e name us' s) = stats s)
  /\ (forall i ok, stats (output_post i ok s) = stats s).
Proof.
  split_and!.
  - by destruct s.
  - by destruct s.
  - intros e name us'. unfold Source.output_pre.
    destruct s as [? ? ? ? ? ? ? ? fr]; simpl. unfold Source.late; simpl.
    destruct (Qltb _ _); simpl; [done|]. by destruct fr.
  - intros i ok. unfold Source.output_post. destruct ok; simpl; [|by destruct s].
    destruct (late _ s); [by destruct s|].
    set (s1 := set_frameLog _ _).
    assert (H1 : stats s1 = stats s).
    { subst s1. unfold closePrev. destruct s as [? ? ? ? ? ? ? ? fr]; simpl.
      by destruct fr. }
    set (s2 := if decide _ then _ else _).
    assert (H2 : stats s2 = stats s1).
    { subst s2. destruct (decide _); [|done].
      destruct (activeEffect s1) as [a|]; simpl.
      - destruct (closeEffect_shape a s1) as (m & t & ac & -> & _). by destruct s1.
      - by destruct s1. }
    rewrite <- H1, <- H2. by destruct s2.
Qed.

(** ** Selection and the pipeline *)

Lemma required_same (c1 c2 : VideoConfig) :
  same_but_coded_size c1 c2 -> required c1 = required c2.
Proof.
  intros (Hc & Hd & Ho & Hk). unfold required. by rewrite Hc, Hd, Ho, Hk.
Qed.

(** C5, as the code has it.  Let the rendition [name] be selected with
    config [c1] and the pipeline settled.  When the supported renditions
    change so that the same name is selected with a config [c2] that
    differs from [c1] only in codedWidth and codedHeight, [#runSelected]
    ends with the same values in [#selected] and [#selectedConfig]:
    [#runPending] is not scheduled, and the subscription and decoder of
    every pipeline stay as they are.  The full config [#config] does
    change. *)
Theorem coded_size_change_keeps_pipeline
    (s : State) (name : string) (c1 c2 : VideoConfig)
    (renditions : Obj VideoConfig) :
  same_but_coded_size c1 c2 ->
  selected s = Some name ->
  selectedConfig s = Some (Req (required c1)) ->
  pendingDirty s = false ->
  enabled s = true ->
  choose (set_supported renditions s) = Some name ->
  truthy_str name = true ->
  obj_get renditions name = Some c2 ->
  let s' := runSelected (set_supported renditions s) in
  selected s' = Some name
  /\ selectedConfig s' = selectedConfig s
  /\ config s' = Some (Config c2)
  /\ pendingDirty s' = false
  /\ step fromMicro s' RunPending = None
  /\ tracks s' = tracks s
  /\ pendingEffect s' = pendingEffect s
  /\ activeEffect s' = activeEffect s.
Proof.
  intros Hsame Hsel Hcfg Hdirty Hen Hch Htr Hget.
  assert (Hlk : lookup renditions name = Some (Config c2)).
  { unfold lookup. by rewrite Hget. }
  assert (He : enabled (set_supported renditions s) = true) by (by destruct s).
  assert (Hsu : supported (set_supported renditions s) = renditions)
    by (by destruct s).
  unfold runSelected, clearSelected.
  rewrite He, Hch. simpl. rewrite Htr. simpl. rewrite Hsu, Hlk. simpl.
  rewrite <- (required_same _ _ Hsame).
  destruct s; simpl in *. subst. simpl.
  unfold changed. rewrite !bool_decide_eq_false_2 by (intros H; by apply H).
  simpl. rewrite andb_false_r. split_and!; reflexivity.
Qed.

Lemma lost_false (s : State) :
  lost s = false ->
  exists b name c,
    broadcast s = Some b /\ selected s = Some name
    /\ selectedConfig s = Some c /\ enabled s = true.
Proof.
  unfold lost. destruct (broadcast s), (selected s), (selectedConfig s),
    (enabled s); simpl; try done; eauto 10.
  all: rewrite ?orb_true_r; done.
Qed.

Lemma runPending_opens (s : State) :
  lost s = false ->
  (forall a, activeEffect s = Some a -> pendingEffect s <> Some a) ->
  let s1 := runPending s in
  (exists b c,
     broadcast s = Some b /\ selectedConfig s = Some c
     /\ pendingEffect s1 = Some (fresh s)
     /\ tracks s1 !! fresh s
        = Some (mkTrack b (default "" (selected s)) c true false))
  /\ activeEffect s1 = activeEffect s
  /\ (forall a, activeEffect s = Some a -> is_open a s = true ->
        is_open a s1 = true)
  /\ frame s1 = frame s
  /\ frameLog s1 = frameLog s.
Proof.
  intros Hlost Hne. unfold runPending.
  destruct (pending_cleanup_shape s) as (m & t & ac & -> & Hm).
  destruct (lost_false s Hlost) as (b & name & c & Hb & Hn & Hc & Hen).
  set (s2 := set_pendingCleanup false _).
  assert (Hl2 : lost s2 = false) by (subst s2; destruct s; exact Hlost).
  rewrite Hl2. subst s2. destruct s; simpl in *. subst. simpl.
  unfold runTrack, is_open. simpl. split_and!; try done.
  - exists b, c. split_and!; try done. by rewrite lookup_insert_eq.
  - intros a -> Ho. destruct (decide (fresh0 = a)) as [->|Hfa].
    + by rewrite lookup_insert_eq.
    + rewrite lookup_insert_ne by done. rewrite Hm; [done|].
      by apply Hne.
Qed.

Lemma output_post_publishes (i : Invocation) (s : State) :
  pendingEffect s = Some (inv_effect i) ->
  late (vf_timestamp (inv_frame i)) s = false ->
  let s' := output_post i true s in
  (exists c, vf_timestamp c = vf_timestamp (inv_frame i)
     /\ frame s' = Some c
     /\ frameLog s' = frameLog s ++ [Emitted c])
  /\ activeEffect s' = Some (inv_effect i)
  /\ pendingEffect s' = None
  /\ active s' = Some (inv_name i)
  /\ (forall old, activeEffect s = Some old -> is_open old s' = false).
Proof.
  intros Hp Hlate. unfold Source.output_post. simpl. rewrite Hlate.
  unfold closePrev, clone. destruct s; simpl in *. subst.
  set (s1 := set_frameLog _ _).
  assert (Hs1 : pendingEffect s1 = Some (inv_effect i)).
  { subst s1. by destruct frame0. }
  destruct (decide (pendingEffect s1 = Some (inv_effect i))); [|done].
  assert (Hshape : exists m t ac,
            closeEffect_opt (activeEffect s1) s1
            = set_timestamp t (set_active ac (set_tracks m s1))
            /\ forall old tr, activeEffect s1 = Some old ->
                 m !! old = Some tr -> tr_open tr = false).
  { destruct (activeEffect s1) as [old|]; simpl.
    - destruct (closeEffect_shape old s1) as (m & t & ac & -> & _ & Hm & _).
      exists m, t, ac. split; [done|]. intros ? ? [= <-]. apply Hm.
    - exists (tracks s1), (timestamp_ s1), (active s1). split; [by destruct s1 | done]. }
  destruct Hshape as (m & t & ac & -> & Hm).
  assert (Ha1 : activeEffect s1 = activeEffect0) by (subst s1; by destruct frame0).
  assert (Hf1 : exists c, vf_timestamp c = vf_timestamp (inv_frame i)
            /\ frame s1 = Some c /\ frameLog s1 = frameLog0 ++ [Emitted c]).
  { subst s1. destruct frame0; simpl; eexists; (split; [|split; reflexivity]);
      reflexivity. }
  rewrite Ha1 in Hm. clearbody s1. clear Hs1.
  destruct s1; simpl in *. subst. unfold is_open. simpl. split_and!; try done.
  intros old Hold.
  change (open_in old (alter promoted (inv_effect i) m) = false).
  rewrite open_in_promoted. unfold open_in.
  destruct (m !! old) as [tr|] eqn:Hl; [|done].
  by apply (Hm old).
Qed.

Lemma output_post_dropped (i : Invocation) (ok : bool) (s : State) :
  ok = false \/ late (vf_timestamp (inv_frame i)) s = true ->
  let s' := output_post i ok s in
  pendingEffect s' = pendingEffect s
  /\ activeEffect s' = activeEffect s
  /\ active s' = active s
  /\ tracks s' = tracks s
  /\ frameLog s' = frameLog s
  /\ frame s' = frame s
  /\ timestamp_ s' = timestamp_ s.
Proof.
  intros H. unfold Source.output_post.
  destruct ok; simpl; [|by destruct s].
  destruct H as [H|H]; [done|]. rewrite H. by destruct s.
Qed.

(** *** Identities of the pipelines *)

Lemma ids_ok_same (s s' : State) :
  pendingEffect s' = pendingEffect s -> activeEffect s' = activeEffect s ->
  (fresh s <= fresh s')%nat ->
  ids_ok s -> ids_ok s'.
Proof.
  intros Hp Ha Hf [H1 H2]. unfold ids_ok. rewrite Hp, Ha. split.
  - intros a Hact. destruct (H1 a Hact). split; [lia | done].
  - intros p Hpen. specialize (H2 p Hpen). lia.
Qed.

Lemma runPending_ids_ok (s : State) : ids_ok s -> ids_ok (runPending s).
Proof.
  intros Hok. unfold runPending.
  destruct (pending_cleanup_shape s) as (m & t & ac & -> & _).
  set (s2 := set_pendingCleanup false _).
  assert (Hok2 : ids_ok s2).
  { subst s2. revert Hok. apply ids_ok_same; by destruct s. }
  clearbody s2. destruct (lost s2).
  - unfold teardown.
    destruct (closeEffect_opt_shape (activeEffect s2) s2) as (m' & t' & ac' & ->).
    destruct Hok2 as [_ H2]. unfold clearFrame, closePrev.
    destruct s2 as [? ? ? ? ? ? ? ? fr]; simpl in *.
    destruct fr; split; simpl; done.
  - destruct (broadcast s2) as [b|], (selected s2) as [n|],
      (selectedConfig s2) as [c|]; try done.
    destruct Hok2 as [H1 H2]. destruct s2; simpl in *. split; simpl.
    + intros a Ha. destruct (H1 a Ha). split; [lia|]. intros [= ?]. lia.
    + intros p [= <-]. lia.
Qed.

Lemma output_pre_ids_ok (e : EffectId) (name : string) (us : Z) (s : State) :
  ids_ok s -> ids_ok (output_pre e name us s).
Proof.
  unfold Source.output_pre. destruct (Source.late _ _ _).
  - apply ids_ok_same; destruct s; simpl; (done || lia).
  - destruct (frame _) eqn:Hf; apply ids_ok_same;
      destruct s; simpl; (done || lia).
Qed.

Lemma output_post_ids_ok (i : Invocation) (ok : bool) (s : State) :
  ids_ok s -> ids_ok (output_post i ok s).
Proof.
  intros Hok.
  destruct (decide (ok = false \/ late (vf_timestamp (inv_frame i)) s = true))
    as [Hd|Hd].
  - destruct (output_post_dropped i ok s Hd) as (Hp & Ha & _).
    revert Hok. apply ids_ok_same; try done.
    unfold Source.output_post. destruct ok; simpl; [|by destruct s].
    destruct Hd as [|Hd]; [done|]. rewrite Hd. by destruct s.
  - assert (ok = true) as -> by (destruct ok; tauto).
    assert (Hl : late (vf_timestamp (inv_frame i)) s = false).
    { destruct (late _ s); tauto. }
    clear Hd. unfold Source.output_post. simpl. rewrite Hl.
    unfold closePrev, clone.
    set (s1 := set_frameLog _ _).
    assert (Hok1 : ids_ok s1 /\ (fresh s < fresh s1)%nat).
    { subst s1. destruct Hok as [H1 H2].
      destruct s as [? ? ? ? ? ? ? ? fr]; simpl in *.
      destruct fr; (split; [split|]); simpl;
        try (intros a Ha; destruct (H1 a Ha); split; [lia | done]);
        try (intros p Hp; specialize (H2 p Hp); lia); lia. }
    destruct Hok1 as [[H1 H2] _]. clearbody s1.
    destruct (decide (pendingEffect s1 = Some (inv_effect i))) as [Hp|Hp].
    + destruct (closeEffect_opt_shape (activeEffect s1) s1) as (m & t & ac & ->).
      specialize (H2 _ Hp). destruct s1; simpl in *. split; simpl.
      * intros a [= <-]. by split.
      * done.
    + destruct s1; simpl in *. by split.
Qed.

Lemma step_ids_ok (s s' : State) (ev : Event) :
  ids_ok s -> step fromMicro s ev = Some s' -> ids_ok s'.
Proof.
  intros Hok Hstep. destruct ev; simpl in Hstep.
  - injection Hstep as <-. revert Hok. apply ids_ok_same; by destruct s.
  - injection Hstep as <-. revert Hok. apply ids_ok_same; by destruct s.
  - injection Hstep as <-. revert Hok. apply ids_ok_same; by destruct s.
  - injection Hstep as <-. revert Hok. apply ids_ok_same; by destruct s.
  - destruct (signalsOpen s); [|done]. injection Hstep as <-.
    revert Hok. destruct (runSelected_shape s) as (? & ? & ? & ? & ->).
    apply ids_ok_same; by destruct s.
  - destruct (signalsOpen s && pendingDirty s && negb (runPending_throws s));
      [|done].
    injection Hstep as <-. by apply runPending_ids_ok.
  - destruct (signalsOpen s && bufferDirty s); [|done].
    injection Hstep as <-. revert Hok. apply ids_ok_same; by destruct s.
  - destruct (is_open e s); [|done]. injection Hstep as <-.
    revert Hok. apply ids_ok_same; by destruct s.
  - destruct (tracks s !! e) as [t|]; [|done]. destruct (tr_open t); [|done].
    injection Hstep as <-. by apply output_pre_ids_ok.
  - destruct (waiting s !! k) as [i|]; [|done]. injection Hstep as <-.
    apply output_post_ids_ok. revert Hok. apply ids_ok_same; by destruct s.
  - destruct (is_open e s); [|done]. injection Hstep as <-.
    destruct (closeEffect_shape e s) as (m & t & ac & -> & _).
    revert Hok. apply ids_ok_same; by destruct s.
  - injection Hstep as <-. unfold close, clearFrame, closePrev.
    set (s1 := clearSelected _).
    assert (Hok1 : ids_ok s1).
    { subst s1. revert Hok.
      apply ids_ok_same; destruct s as [? ? ? ? ? ? ? ? fr]; by destruct fr. }
    clearbody s1. destruct (pendingCleanup s1); [|done].
    destruct (closeEffect_opt_shape (pendingEffect s1)
                (set_pendingCleanup false s1)) as (m & t & ac & ->).
    revert Hok1. apply ids_ok_same; by destruct s1.
Qed.

Lemma reachable_ids_ok (s : State) : reachable fromMicro s -> ids_ok s.
Proof.
  intros (b & en & evs & Hrun).
  assert (H0 : ids_ok (init b en)) by (split; intros ? [=]).
  revert Hrun H0. generalize (init b en). clear b en.
  induction evs as [|ev evs IH]; intros s0 Hrun H0; simpl in Hrun.
  - by injection Hrun as <-.
  - destruct (step fromMicro s0 ev) as [s1|] eqn:Hstep; [|done].
    eapply IH; [exact Hrun|]. by eapply step_ids_ok.
Qed.

Lemma output_post_renders (i : Invocation) (s : State) :
  pendingEffect s <> Some (inv_effect i) ->
  late (vf_timestamp (inv_frame i)) s = false ->
  let s' := output_post i true s in
  (exists c, vf_timestamp c = vf_timestamp (inv_frame i)
     /\ frame s' = Some c
     /\ frameLog s' = frameLog s ++ [Emitted c])
  /\ pendingEffect s' = pendingEffect s
  /\ activeEffect s' = activeEffect s
  /\ active s' = active s
  /\ tracks s' = tracks s.
Proof.
  intros Hp Hlate. unfold Source.output_post. simpl. rewrite Hlate.
  unfold closePrev, clone. destruct s; simpl in *.
  set (s1 := set_frameLog _ _).
  assert (Hs1 : pendingEffect s1 = pendingEffect0).
  { subst s1. by destruct frame0. }
  destruct (decide (pendingEffect s1 = Some (inv_effect i))); [congruence|].
  subst s1. destruct frame0; simpl; split_and!; try done;
    eexists; (split; [|split; reflexivity]); reflexivity.
Qed.

(** ** Order of the emitted timestamps *)

Lemma Qltb_false (a b : Q) : Qltb a b = false -> (b <= a)%Q.
Proof.
  unfold Qltb. intros H. apply Qle_alt. rewrite <- Qcompare_antisym.
  destruct (a ?= b)%Q; simpl; congruence.
Qed.

Lemma advance_same (s s' : State) :
  pendingEffect s' = pendingEffect s -> activeEffect s' = activeEffect s ->
  frameLog s' = frameLog s -> timestamp_ s' = timestamp_ s ->
  pendingEffect s = None \/ activeEffect s = None ->
  advance fromMicro s s'.
Proof.
  intros Hp Ha Hl Ht H0. split; [by rewrite Hp, Ha|].
  exists []. rewrite app_nil_r. auto.
Qed.

Lemma output_pre_advance (e : EffectId) (name : string) (us : Z) (s : State) :
  pendingEffect s = None \/ activeEffect s = None ->
  advance fromMicro s (output_pre e name us s).
Proof.
  intros H0. unfold Source.output_pre.
  destruct (Source.late fromMicro us _) eqn:Hl.
  - apply advance_same; try done; by destruct s.
  - destruct (frame (set_fresh (S (fresh s)) s)) eqn:Hf.
    + apply advance_same; try done; by destruct s.
    + split; [by destruct s|]. exists [Placeholder (mkFrame (S (fresh s)) us)].
      split; [by destruct s|]. left. split; [done | by destruct s].
Qed.

Lemma output_post_advance (i : Invocation) (ok : bool) (s : State) :
  pendingEffect s = None \/ activeEffect s = None ->
  advance fromMicro s (output_post i ok s).
Proof.
  intros H0.
  destruct (decide (ok = false \/ late (vf_timestamp (inv_frame i)) s = true))
    as [Hd|Hd].
  - destruct (output_post_dropped i ok s Hd) as (? & ? & _ & _ & ? & _ & ?).
    by apply advance_same.
  - assert (ok = true) as -> by (destruct ok; tauto).
    assert (Hl : late (vf_timestamp (inv_frame i)) s = false).
    { destruct (late _ s); tauto. }
    clear Hd. pose proof (Qltb_false _ _ Hl) as Hle.
    unfold Source.output_post. simpl. rewrite Hl. unfold closePrev, clone.
    destruct s; simpl in *.
    destruct frame0; simpl;
      (destruct (decide (pendingEffect0 = Some (inv_effect i))) as [Hp|Hp];
       [ destruct H0 as [H0|H0]; [congruence|]; subst; simpl
       | ]);
      (split; [simpl; tauto|]);
      (eexists [Emitted _]; split; [reflexivity|]; right;
       eexists; split; [reflexivity|]; split; [reflexivity | exact Hle]).
Qed.

Lemma step_advance (s s' : State) (ev : Event) :
  pipeline_event ev = true ->
  pendingEffect s = None \/ activeEffect s = None ->
  step fromMicro s ev = Some s' ->
  advance fromMicro s s'.
Proof.
  intros Hev H0 Hstep. destruct ev; try discriminate; simpl in Hstep.
  - destruct (signalsOpen s && bufferDirty s); [|done].
    injection Hstep as <-. apply advance_same; try done; by destruct s.
  - destruct (is_open e s); [|done]. injection Hstep as <-.
    apply advance_same; try done; by destruct s.
  - destruct (tracks s !! e) as [t|]; [|done]. destruct (tr_open t); [|done].
    injection Hstep as <-. by apply output_pre_advance.
  - destruct (waiting s !! k) as [i|]; [|done]. injection Hstep as <-.
    set (s1 := set_waiting _ s).
    assert (H1 : advance fromMicro s1
                   (output_post i (is_open (inv_effect i) s) s1)).
    { apply output_post_advance. subst s1. by destruct s. }
    assert (Hs1 : frameLog s1 = frameLog s /\ timestamp_ s1 = timestamp_ s)
      by (subst s1; by destruct s).
    destruct Hs1 as [Hlog Hts]. unfold advance in *.
    by rewrite Hlog, Hts in H1.
Qed.

Lemma Sorted_cons_lower (x : Q) (l : list Q) :
  Sorted Qle l -> Forall (Qle x) l -> Sorted Qle (x :: l).
Proof.
  intros Hs Hf. constructor; [done|].
  destruct l; constructor. by inversion Hf.
Qed.

(** C1, as the code has it.  Take a run of a pipeline (samples read, frames
    decoded, callbacks resumed) that starts where no pending pipeline is
    waiting to replace an active one, so that no active pipeline is closed
    during the run.  The timestamps written to [frame] after the Sync wait
    are then non-decreasing and none is below the last emitted timestamp of
    the start: a frame older than the last emitted timestamp is dropped
    before the wait and again after it.  The placeholder written before
    the wait is not part of this order. *)
Theorem emitted_timestamps_nondecreasing
    (s s' : State) (evs : list Event) :
  forallb pipeline_event evs = true ->
  pendingEffect s = None \/ activeEffect s = None ->
  run fromMicro s evs = Some s' ->
  (exists new,
     frameLog s' = frameLog s ++ new
     /\ Sorted Qle (map fromMicro (emitted new))
     /\ Forall (Qle (default 0%Q (timestamp_ s))) (map fromMicro (emitted new)))
  /\ (forall e name us, late us s = true ->
        frameLog (output_pre e name us s) = frameLog s
        /\ waiting (output_pre e name us s) = waiting s)
  /\ (forall i, late (vf_timestamp (inv_frame i)) s = true ->
        frameLog (output_post i true s) = frameLog s).
Proof.
  intros Hevs H0 Hrun. split_and!.
  - revert s H0 Hrun Hevs. induction evs as [|ev evs IH]; intros s H0 Hrun Hevs.
    + injection Hrun as <-. exists []. rewrite app_nil_r.
      split_and!; constructor.
    + simpl in Hrun, Hevs. apply andb_true_iff in Hevs as [Hev Hevs].
      destruct (step fromMicro s ev) as [s1|] eqn:Hstep; [|done].
      destruct (step_advance _ _ _ Hev H0 Hstep) as (H1 & d & Hd & Hcase).
      destruct (IH s1 H1 Hrun Hevs) as (new & Hnew & Hsorted & Hlow).
      exists (d ++ new). split; [by rewrite Hnew, Hd, app_assoc|].
      unfold emitted in *. rewrite omap_app, map_app.
      destruct Hcase as [[-> Hts] | (us & -> & Hts & Hle)]; simpl.
      * split; [done|]. by rewrite <- Hts.
      * rewrite Hts in Hlow. simpl in Hlow. split.
        -- by apply Sorted_cons_lower.
        -- constructor; [done|].
           eapply Forall_impl; [exact Hlow|]. intros t Ht.
           by eapply Qle_trans.
  - intros e name us Hl. unfold Source.output_pre.
    assert (Hl' : Source.late fromMicro us (set_fresh (S (fresh s)) s) = true)
      by (destruct s; exact Hl).
    rewrite Hl'. by destruct s.
  - intros i Hl.
    by destruct (output_post_dropped i true s (or_intror Hl)) as (_&_&_&_&?&_).
Qed.

End SourceFacts.

(** ** Worked runs *)

Lemma run_after (evs : list Event) :
  is_Some (run ms (init None false) evs) ->
  run ms (init None false) evs = Some (after evs).
Proof. unfold after. by intros [s ->]. Qed.

Lemma reachable_after (evs : list Event) :
  is_Some (run ms (init None false) evs) -> reachable ms (after evs).
Proof. intros H. exists None, false, evs. by apply run_after. Qed.

Ltac runs := apply reachable_after; vm_compute; eexists; reflexivity.

Lemma placeholder_latch_witness :
  Source.late ms 100000 (after start) = false
  /\ frame (after start) = None
  /\ exists c, vf_timestamp c = 100000
       /\ frame (Source.output_pre ms 0%nat "hd" 100000 (after start)) = Some c.
Proof.
  assert (Hl : Source.late ms 100000 (after start) = false)
    by (vm_compute; reflexivity).
  assert (Hf : frame (after start) = None) by (vm_compute; reflexivity).
  split; [exact Hl|]. split; [exact Hf|].
  destruct (placeholder_latch ms (after start) 0%nat "hd" 100000 Hl)
    as (H & _).
  destruct (H Hf) as (c & Hc & Hfr & _). exists c. split; [exact Hc | exact Hfr].
Defined.


Lemma coded_size_change_keeps_pipeline_witness :
  let s := after (start ++ [Output 0%nat 100000; Resume 0%nat]) in
  let renditions := [("sd", cfg 100 100); ("hd", cfg 1280 720)] in
  same_but_coded_size (cfg 200 200) (cfg 1280 720)
  /\ selected s = Some "hd"
  /\ selectedConfig s = Some (Req (required (cfg 200 200)))
  /\ choose (set_supported renditions s) = Some "hd"
  /\ step ms (runSelected (set_supported renditions s)) RunPending = None.
Proof.
  intros s renditions.
  assert (H1 : same_but_coded_size (cfg 200 200) (cfg 1280 720))
    by (repeat split).
  assert (H2 : selected s = Some "hd") by (vm_compute; reflexivity).
  assert (H3 : selectedConfig s = Some (Req (required (cfg 200 200))))
    by (vm_compute; reflexivity).
  assert (H4 : pendingDirty s = false) by (vm_compute; reflexivity).
  assert (H5 : enabled s = true) by (vm_compute; reflexivity).
  assert (H6 : choose (set_supported renditions s) = Some "hd")
    by (vm_compute; reflexivity).
  assert (H7 : truthy_str "hd" = true) by (vm_compute; reflexivity).
  assert (H8 : obj_get renditions "hd" = Some (cfg 1280 720))
    by (vm_compute; reflexivity).
  split_and!; try assumption.
  pose proof (coded_size_change_keeps_pipeline ms s "hd" _ _ renditions
                H1 H2 H3 H4 H5 H6 H7 H8) as H.
  exact (proj1 (proj2 (proj2 (proj2 (proj2 H))))).
Defined.

Lemma emitted_timestamps_nondecreasing_witness :
  let evs := [Output 0%nat 100000; Output 0%nat 50000; Resume 1%nat;
              Resume 0%nat] in
  forallb pipeline_event evs = true
  /\ activeEffect (after start) = None
  /\ run ms (after start) evs = Some (after (start ++ evs))
  /\ emitted (frameLog (after (start ++ evs))) = [50000; 100000]
  /\ exists new,
       frameLog (after (start ++ evs)) = frameLog (after start) ++ new
       /\ Sorted Qle (map ms (emitted new)).
Proof.
  intros evs.
  assert (H1 : forallb pipeline_event evs = true) by reflexivity.
  assert (H2 : activeEffect (after start) = None) by (vm_compute; reflexivity).
  assert (H3 : run ms (after start) evs = Some (after (start ++ evs)))
    by (vm_compute; reflexivity).
  split_and!; try assumption; [vm_compute; reflexivity|].
  destruct (emitted_timestamps_nondecreasing ms _ _ evs H1 (or_intror H2) H3)
    as ((new & Hnew & Hs & _) & _).
  exists new. split; [exact Hnew | exact Hs].
Defined.

(** C1, counterexample.  Pipeline 0 decodes a frame at 100 ms, published
    at once as the placeholder, then a frame at 50 ms.  The placeholder does
    not set [#timestamp], so the second frame is not late and is published
    when its wait ends: the published timestamps go from 100 ms to 50 ms. *)
Lemma published_timestamps_regress :
  let s := after (start ++ [Output 0%nat 100000; Output 0%nat 50000;
                            Resume 1%nat]) in
  reachable ms s
  /\ published (frameLog s) = [100000; 50000]
  /\ ~ Sorted Qle (map ms (published (frameLog s))).
Proof.
  intros s. split; [runs|].
  assert (H : published (frameLog s) = [100000; 50000])
    by (vm_compute; reflexivity).
  split; [exact H|]. rewrite H. simpl. intros Hs.
  inversion Hs as [|? ? _ Hrel]; subst. inversion Hrel as [|? ? Hle]; subst.
  unfold ms, Qle in Hle. simpl in Hle. lia.
Qed.

(** The other way the order is lost: the promotion of a pending pipeline
    closes the pipeline that was active, whose cleanup resets [#timestamp]
    just after the promoting frame set it.  Here "sd" (effect 4) replaces
    "hd"; its frame at 200 ms promotes it, and its frame at 150 ms is then
    emitted as well. *)
Example promotion_resets_timestamp :
  let switch := start ++ [Output 0%nat 100000; Resume 0%nat;
                          SetTarget (Some (mkTarget None (Some "sd")));
                          RunSelected; RunPending;
                          Output 4%nat 200000; Resume 0%nat] in
  reachable ms (after switch)
  /\ activeEffect (after switch) = Some 4%nat
  /\ timestamp_ (after switch) = None
  /\ emitted (frameLog (after (switch ++ [Output 4%nat 150000; Resume 0%nat])))
     = [100000; 200000; 150000].
Proof. intros switch. split; [runs|]. split_and!; vm_compute; reflexivity. Qed.

(** C4.  Pipeline 0 has been promoted by its first frame, so it is
    [#active] and no longer [#pending]; a second frame is waiting on Sync.
    [close()] clears the frame and closes [#signals], whose cleanup closes
    only [#pending]: the active pipeline stays open.  After [close()]
    returned, the waiting callback wins its race and publishes its frame,
    and a frame that the decoder delivers next is published as a
    placeholder. *)
Theorem frame_published_after_close :
  let s := after (start ++ [Output 0%nat 100000; Resume 0%nat;
                            Output 0%nat 133000; Close]) in
  reachable ms s
  /\ signalsOpen s = false
  /\ frame s = None
  /\ activeEffect s = Some 0%nat
  /\ is_open 0%nat s = true
  /\ (exists s' c,
        step ms s (Resume 0%nat) = Some s'
        /\ frame s' = Some c
        /\ frameLog s' = frameLog s ++ [Emitted c])
  /\ (exists s' c,
        step ms s (Output 0%nat 200000) = Some s'
        /\ frame s' = Some c
        /\ frameLog s' = frameLog s ++ [Placeholder c]).
Proof.
  intros s. split; [runs|]. split_and!; try (vm_compute; reflexivity).
  - eexists _, _. split_and!; vm_compute; reflexivity.
  - eexists _, _. split_and!; vm_compute; reflexivity.
Qed.

(** A pipeline that is still pending when [close()] runs is closed by it,
    and its suspended callback then loses the race and publishes nothing. *)
Example pending_cancelled_by_close :
  let s := after (start ++ [Output 0%nat 100000; Close]) in
  is_open 0%nat s = false
  /\ published (frameLog (after (start ++ [Output 0%nat 100000; Close;
                                           Resume 0%nat])))
     = published (frameLog s).
Proof. intros s. split; vm_compute; reflexivity. Qed.

Lemma bufferStatus_follows_effect_witness :
  let s := after (start ++ [Output 0%nat 100000; RunBuffer]) in
  reachable ms s /\ bufferDirty s = false /\ buffer_invariant s.
Proof.
  intros s.
  assert (Hr : reachable ms s) by runs.
  assert (Hd : bufferDirty s = false) by (vm_compute; reflexivity).
  split; [exact Hr|]. split; [exact Hd|].
  exact (proj1 (bufferStatus_follows_effect ms s Hr) Hd).
Defined.

(** C7, counterexample.  An enabled source with no frame has status
    "empty".  After [close()] the effect [#runBuffer] no longer runs, so when
    [enabled] is then set to false the status stays "empty" although the
    source is disabled. *)
Lemma bufferStatus_stale_after_close :
  let s := after [SetEnabled true; RunBuffer; Close; SetEnabled false] in
  reachable ms s /\ ~ buffer_invariant s.
Proof.
  intros s. split; [runs|]. unfold buffer_invariant.
  assert (Hb : bufferStatus s = empty) by (vm_compute; reflexivity).
  assert (He : enabled s = false) by (vm_compute; reflexivity).
  rewrite Hb, He. intros [H _]. destruct (H eq_refl). discriminate.
Qed.

(** Likewise a status "filled" outlives the frame that [close()] clears. *)
Example bufferStatus_filled_after_close :
  let s := after (start ++ [Output 0%nat 100000; RunBuffer; Close]) in
  bufferStatus s = filled /\ enabled s = true /\ frame s = None.
Proof. intros s. split_and!; vm_compute; reflexivity. Qed.

(** C8, counterexample.  A sample of 1200 bytes at 100 ms is read (the
    stats count it), decoded and published: the publication leaves the
    stats as they were.  A sample at -5 ms is counted when read, and its
    frame is dropped as late and never published. *)
Lemma stats_not_updated_on_publication :
  let s1 := after (start ++ [Receive 0%nat 100000 1200; Output 0%nat 100000]) in
  let s2 := after (start ++ [Receive 0%nat 100000 1200; Output 0%nat 100000;
                             Resume 0%nat]) in
  let s3 := after (start ++ [Receive 0%nat (-5000) 10; Output 0%nat (-5000)]) in
  reachable ms s2
  /\ step ms s1 (Resume 0%nat) = Some s2
  /\ emitted (frameLog s2) = emitted (frameLog s1) ++ [100000]
  /\ stats s1 = Some (mkStats 1 100000 1200)
  /\ stats s2 = stats s1
  /\ reachable ms s3
  /\ stats s3 = Some (mkStats 1 (-5000) 10)
  /\ frameLog s3 = [] /\ waiting s3 = [].
Proof.
  intros s1 s2 s3. split_and!; first [runs | vm_compute; reflexivity].
Qed.

(** * Further properties of the source *)

(** ** Selection *)

Lemma selectRendition_rounds_witness :
  (2 <= length hd_sd)%nat
  /\ (forall e, e ∈ hd_sd -> e.1 <> "")
  /\ exists name,
       Select.selectRendition hd_sd (Some (mkTarget (Some (inject_Z 9999)) None))
       = Some name.
Proof.
  assert (H1 : (2 <= length hd_sd)%nat) by (simpl; lia).
  assert (H2 : forall e, e ∈ hd_sd -> e.1 <> "").
  { intros e He. unfold hd_sd in He.
    apply elem_of_cons in He as [-> | He]; [done|].
    apply elem_of_cons in He as [-> | He]; [done|]. inversion He. }
  split; [exact H1|]. split; [exact H2|].
  destruct (selectRendition_rounds hd_sd
              (Some (mkTarget (Some (inject_Z 9999)) None)) H1 H2)
    as (name & Hname & _).
  exists name. exact Hname.
Defined.

Lemma selectRendition_none (renditions : Obj VideoConfig)
    (target : option Target) :
  Select.selectRendition renditions target = None <-> renditions = [].
Proof.
  destruct renditions as [|e0 [|e1 rest]]; simpl; [done | done |].
  split; [|done].
  destruct (Select.larger _) as [n|]; simpl.
  - destruct (truthy_str n); [done|].
    destruct (Select.smaller _) as [m|]; simpl; [|done].
    by destruct (truthy_str m).
  - destruct (Select.smaller _) as [m|]; simpl; [|done].
    by destruct (truthy_str m).
Qed.

(** [selectRendition] returns nothing only for an empty set of renditions;
    a single rendition is returned whatever its size and the target; and
    what is returned is always the name of one of the entries. *)
Theorem selectRendition_names_an_entry (renditions : Obj VideoConfig)
    (target : option Target) :
  (Select.selectRendition renditions target = None <-> renditions = [])
  /\ (forall e, renditions = [e] ->
        Select.selectRendition renditions target = Some e.1)
  /\ (forall n, Select.selectRendition renditions target = Some n ->
        n ∈ obj_keys renditions).
Proof.
  split_and!.
  - apply selectRendition_none.
  - by intros e ->.
  - intros n. apply selectRendition_key.
Qed.

Lemma selectRendition_names_an_entry_witness :
  Select.selectRendition hd_sd None = Some "hd" /\ "hd" ∈ obj_keys hd_sd.
Proof.
  assert (H : Select.selectRendition hd_sd None = Some "hd")
    by (vm_compute; reflexivity).
  split; [exact H|].
  exact (proj2 (proj2 (selectRendition_names_an_entry hd_sd None)) "hd" H).
Defined.


(** The rendition menu.  On an enabled source, choosing a supported
    rendition in the menu makes [#runSelected] select it, with its catalog
    config, whatever the pixel target, which the menu leaves as it was. *)
Theorem menu_choice_is_selected (s : State) (name : string) :
  enabled s = true ->
  truthy_str name = true ->
  obj_has (supported s) name = true ->
  let s' := runSelected (WatchUI.setActiveRendition (Some name) s) in
  selected s' = Some name
  /\ config s' = Config <$> obj_get (supported s) name
  /\ selectedConfig s' = Req <$> (required <$> obj_get (supported s) name)
  /\ target s' ≫= pixels = target s ≫= pixels.
Proof.
  intros Hen Htr Hhas.
  destruct (lookup_own _ _ Hhas) as (c & Hget & Hlk).
  unfold runSelected, clearSelected, WatchUI.setActiveRendition, choose, obj_in.
  destruct s; simpl in *. subst. rewrite Htr, Hhas. simpl. rewrite Htr. simpl.
  rewrite Hlk, Hget. simpl. split_and!; reflexivity.
Qed.

Lemma menu_choice_is_selected_witness :
  let s := set_target (Some (mkTarget (Some (inject_Z 50000)) None))
             (after start) in
  enabled s = true
  /\ obj_has (supported s) "sd" = true
  /\ selected (runSelected s) = Some "hd"
  /\ selected (runSelected (WatchUI.setActiveRendition (Some "sd") s))
     = Some "sd".
Proof.
  intros s.
  assert (H1 : enabled s = true) by (vm_compute; reflexivity).
  assert (H2 : truthy_str "sd" = true) by (vm_compute; reflexivity).
  assert (H3 : obj_has (supported s) "sd" = true) by (vm_compute; reflexivity).
  split; [exact H1|]. split; [exact H3|].
  split; [vm_compute; reflexivity|].
  exact (proj1 (menu_choice_is_selected s "sd" H1 H2 H3)).
Defined.



(** ** Decoder configuration *)



(** ** Runs *)

Section RunFacts.
Variable fromMicro : Z -> Q.

Abbreviation step := (Source.step fromMicro).
Abbreviation run := (Source.run fromMicro).
Abbreviation reachable := (Source.reachable fromMicro).
Abbreviation late := (Source.late fromMicro).
Abbreviation output_pre := (Source.output_pre fromMicro).
Abbreviation output_post := (Source.output_post fromMicro).

Lemma run_app (s : State) (evs1 evs2 : list Event) :
  run s (evs1 ++ evs2) = run s evs1 ≫= fun s1 => run s1 evs2.
Proof.
  revert s. induction evs1 as [|ev evs1 IH]; intros s; simpl; [done|].
  destruct (step s ev); [apply IH | done].
Qed.

Lemma reachable_step (s s' : State) (ev : Event) :
  reachable s -> step s ev = Some s' -> reachable s'.
Proof.
  intros (b & en & evs & Hrun) Hstep. exists b, en, (evs ++ [ev]).
  rewrite run_app, Hrun. simpl. by rewrite Hstep.
Qed.

(** Induction over the states a source can be in. *)
Lemma reachable_ind (P : State -> Prop) :
  (forall b en, P (init b en)) ->
  (forall s ev s', reachable s -> P s -> step s ev = Some s' -> P s') ->
  forall s, reachable s -> P s.
Proof.
  intros Hinit Hstep s (b & en & evs & Hrun).
  assert (Hr0 : reachable (init b en)) by (by exists b, en, []).
  revert Hrun Hr0. generalize (Hinit b en). generalize (init b en).
  clear Hinit b en.
  induction evs as [|ev evs IH]; intros s0 H0 Hrun Hr0; simpl in Hrun.
  - by injection Hrun as <-.
  - destruct (step s0 ev) as [s1|] eqn:Hs; [|done].
    apply (IH s1); [by eapply Hstep | done | by eapply reachable_step].
Qed.

Lemma run_ind (P : State -> Prop) :
  (forall s ev s', P s -> step s ev = Some s' -> P s') ->
  forall evs s s', P s -> run s evs = Some s' -> P s'.
Proof.
  intros Hstep. induction evs as [|ev evs IH]; intros s s' H0 Hrun;
    simpl in Hrun.
  - by injection Hrun as <-.
  - destruct (step s ev) as [s1|] eqn:Hs; [|done].
    apply (IH s1); [by eapply Hstep | done].
Qed.

(** *** What each operation does to the frames *)

Lemma closeEffect_opt_frame_view (o : option EffectId) (s : State) :
  frame_view (closeEffect_opt o s) = frame_view s.
Proof.
  destruct (closeEffect_opt_shape o s) as (m & t & ac & ->). by destruct s.
Qed.

Lemma clearFrame_frame_view (s : State) :
  frame_view (clearFrame s)
  = (None, waiting s, fresh s, closed_with (frame s) (closedFrames s),
     frameLog s ++ [Cleared]).
Proof.
  unfold clearFrame, closePrev, write_frame.
  destruct s as [? ? ? ? ? ? ? ? fr]; by destruct fr.
Qed.

Lemma output_pre_frame_view (e : EffectId) (name : string) (us : Z)
    (s : State) :
  frame_view (output_pre e name us s)
  = if late us s
    then (frame s, waiting s, S (fresh s), {[fresh s]} ∪ closedFrames s,
          frameLog s)
    else match frame s with
         | Some g =>
             (Some g, waiting s ++ [mkInvocation e name (mkFrame (fresh s) us)],
              S (fresh s), closedFrames s, frameLog s)
         | None =>
             (Some (mkFrame (S (fresh s)) us),
              waiting s ++ [mkInvocation e name (mkFrame (fresh s) us)],
              S (S (fresh s)), closedFrames s,
              frameLog s ++ [Placeholder (mkFrame (S (fresh s)) us)])
         end.
Proof.
  unfold Source.output_pre, Source.late, clone, write_frame, closeFrame.
  destruct s as [? ? ? ? ? ? ? ? fr]; simpl.
  destruct (Qltb _ _); [done|]. by destruct fr.
Qed.

Lemma output_post_frame_view (i : Invocation) (ok : bool) (s : State) :
  frame_view (output_post i ok s)
  = if negb ok || late (vf_timestamp (inv_frame i)) s
    then (frame s, waiting s, fresh s,
          {[handle (inv_frame i)]} ∪ closedFrames s, frameLog s)
    else (Some (mkFrame (fresh s) (vf_timestamp (inv_frame i))),
          waiting s, S (fresh s),
          {[handle (inv_frame i)]} ∪ closed_with (frame s) (closedFrames s),
          frameLog s
          ++ [Emitted (mkFrame (fresh s) (vf_timestamp (inv_frame i)))]).
Proof.
  unfold Source.output_post. destruct ok; simpl; [|by destruct s].
  destruct (late _ s) eqn:Hl; [by destruct s|].
  unfold clone. set (s1 := set_frameLog _ _).
  assert (H1 : frame_view s1
           = (Some (mkFrame (fresh s) (vf_timestamp (inv_frame i))),
              waiting s, S (fresh s), closed_with (frame s) (closedFrames s),
              frameLog s
              ++ [Emitted (mkFrame (fresh s) (vf_timestamp (inv_frame i)))])).
  { subst s1. unfold closePrev, write_frame.
    destruct s as [? ? ? ? ? ? ? ? fr]; by destruct fr. }
  clearbody s1.
  set (s2 := if decide _ then _ else _).
  assert (H2 : frame_view s2 = frame_view s1).
  { subst s2. destruct (decide _); [|done].
    rewrite <- (closeEffect_opt_frame_view (activeEffect s1) s1).
    by destruct (closeEffect_opt (activeEffect s1) s1). }
  clearbody s2. rewrite H1 in H2. clear H1 s1.
  destruct s2; simpl in *. unfold frame_view in *; simpl in *.
  by injection H2 as -> -> -> -> ->.
Qed.

Lemma lost_cleanup (s : State) (m : gmap EffectId Track) (t : option Q)
    (ac : option string) :
  lost (set_pendingCleanup false
          (set_pendingDirty false (set_timestamp t (set_active ac (set_tracks m s)))))
  = lost s.
Proof. by destruct s. Qed.

Lemma runPending_frame_view (s : State) :
  frame_view (runPending s)
  = if lost s then frame_view (clearFrame s)
    else (frame s, waiting s, S (fresh s), closedFrames s, frameLog s).
Proof.
  unfold runPending.
  destruct (pending_cleanup_shape s) as (m & t & ac & -> & _).
  rewrite lost_cleanup.
  set (s2 := set_pendingCleanup false _).
  assert (H2 : frame_view s2 = frame_view s) by (subst s2; by destruct s).
  destruct (lost s) eqn:Hl.
  - clearbody s2. unfold teardown. rewrite !clearFrame_frame_view.
    set (s3 := set_activeEffect None _).
    assert (H3 : frame_view s3 = frame_view s2).
    { subst s3. rewrite <- (closeEffect_opt_frame_view (activeEffect s2) s2).
      by destruct (closeEffect_opt (activeEffect s2) s2). }
    clearbody s3. rewrite H2 in H3. unfold frame_view in H3.
    by injection H3 as -> -> -> -> ->.
  - destruct (lost_false s Hl) as (b & n & c & Hb & Hn & Hc & _).
    assert (Hb2 : broadcast s2 = Some b) by (subst s2; by destruct s).
    assert (Hn2 : selected s2 = Some n) by (subst s2; by destruct s).
    assert (Hc2 : selectedConfig s2 = Some c) by (subst s2; by destruct s).
    rewrite Hb2, Hn2, Hc2. clearbody s2. unfold frame_view in H2.
    injection H2 as <- <- <- <- <-. by destruct s2.
Qed.

Lemma close_frame_view (s : State) :
  frame_view (close s) = frame_view (clearFrame s).
Proof.
  unfold close. generalize (clearFrame s). clear s. intros s.
  set (s1 := clearSelected (set_signalsOpen false s)).
  assert (Hv : frame_view s1 = frame_view s) by (subst s1; by destruct s).
  rewrite <- Hv. clearbody s1.
  destruct (pendingCleanup s1); [|done].
  rewrite closeEffect_opt_frame_view. by destruct s1.
Qed.

(** The frames after one event. *)
Lemma step_frame_view (s s' : State) (ev : Event) :
  step s ev = Some s' ->
  frame_view s' =
    match ev with
    | RunPending => frame_view (runPending s)
    | Output e us =>
        frame_view (output_pre e (default "" (tr_name <$> tracks s !! e)) us s)
    | Resume k =>
        match waiting s !! k with
        | Some i =>
            frame_view (output_post i (is_open (inv_effect i) s)
                          (set_waiting (delete k (waiting s)) s))
        | None => frame_view s
        end
    | Close => frame_view (clearFrame s)
    | _ => frame_view s
    end.
Proof.
  intros Hstep. destruct ev; simpl in Hstep.
  - injection Hstep as <-. by destruct s.
  - injection Hstep as <-. by destruct s.
  - injection Hstep as <-. by destruct s.
  - injection Hstep as <-. by destruct s.
  - destruct (signalsOpen s); [|done]. injection Hstep as <-.
    destruct (runSelected_shape s) as (? & ? & ? & ? & ->). by destruct s.
  - destruct (signalsOpen s && pendingDirty s && negb (runPending_throws s));
      [|done].
    by injection Hstep as <-.
  - destruct (signalsOpen s && bufferDirty s); [|done].
    injection Hstep as <-. by destruct s.
  - destruct (is_open e s); [|done]. injection Hstep as <-. by destruct s.
  - destruct (tracks s !! e) as [t|]; [|done]. destruct (tr_open t); [|done].
    by injection Hstep as <-.
  - destruct (waiting s !! k) as [i|]; [|done]. by injection Hstep as <-.
  - destruct (is_open e s); [|done]. injection Hstep as <-.
    apply (closeEffect_opt_frame_view (Some e)).
  - injection Hstep as <-. apply close_frame_view.
Qed.

(** *** Ownership of the frames *)

Lemma view_inv (s : State) a b c d e :
  frame_view s = (a, b, c, d, e) ->
  frame s = a /\ waiting s = b /\ fresh s = c /\ closedFrames s = d
  /\ frameLog s = e.
Proof. unfold frame_view. by intros [= -> -> -> -> ->]. Qed.

Lemma frames_ok_same (s s' : State) :
  frame_view s' = frame_view s -> frames_ok s -> frames_ok s'.
Proof.
  intros (Hf & Hw & Hn & Hc & Hl)%view_inv. unfold frames_ok.
  by rewrite Hf, Hw, Hn, Hc, Hl.
Qed.

Lemma frames_ok_alloc (s s' : State) :
  frame_view s' = (frame s, waiting s, S (fresh s), closedFrames s, frameLog s) ->
  frames_ok s -> frames_ok s'.
Proof.
  intros (Hf & Hw & Hn & Hc & Hl)%view_inv (H1 & H2 & H3 & H4 & H5).
  unfold frames_ok. rewrite Hf, Hw, Hn, Hc, Hl. split_and!; try done.
  - intros h Hh. specialize (H1 h Hh). lia.
  - intros f Hfr. destruct (H2 f Hfr) as (? & ? & ?). split_and!; [lia|done..].
  - intros h Hh. destruct (H3 h Hh). split; [lia | done].
Qed.

Lemma frames_ok_clear (s s' : State) :
  frame_view s' = frame_view (clearFrame s) -> frames_ok s -> frames_ok s'.
Proof.
  rewrite clearFrame_frame_view.
  intros (Hf & Hw & Hn & Hc & Hl)%view_inv (H1 & H2 & H3 & H4 & H5).
  unfold frames_ok. rewrite Hf, Hw, Hn, Hc, Hl. split_and!; try done.
  - intros h Hh. destruct (frame s) as [p|] eqn:Hp; simpl in Hh; [|by apply H1].
    apply elem_of_union in Hh as [->%elem_of_singleton | Hh]; [|by apply H1].
    by destruct (H2 p eq_refl).
  - intros h Hh. destruct (H3 h Hh) as [Hlt Hnc]. split; [done|].
    destruct (frame s) as [p|] eqn:Hp; simpl; [|done].
    destruct (H2 p eq_refl) as (_ & _ & Hpw).
    intros [->%elem_of_singleton | Hin]%elem_of_union; done.
  - intros c. unfold written. rewrite omap_app, app_nil_r. intros Hc'.
    right. destruct (H5 c Hc') as [Hfr | Hcl].
    + rewrite Hfr. simpl. set_solver.
    + destruct (frame s); simpl; set_solver.
Qed.

Lemma waiting_handles_app (l : list Invocation) (i : Invocation) :
  waiting_handles (l ++ [i]) = waiting_handles l ++ [handle (inv_frame i)].
Proof. unfold waiting_handles. by rewrite fmap_app. Qed.

Lemma frames_ok_pre (e : EffectId) (name : string) (us : Z) (s s' : State) :
  frame_view s' = frame_view (output_pre e name us s) ->
  frames_ok s -> frames_ok s'.
Proof.
  rewrite output_pre_frame_view. intros Hv (H1 & H2 & H3 & H4 & H5).
  assert (Hfresh_w : fresh s ∉ waiting_handles (waiting s)).
  { intros Hin. destruct (H3 _ Hin). lia. }
  assert (Hfresh_c : fresh s ∉ closedFrames s).
  { intros Hin. specialize (H1 _ Hin). lia. }
  destruct (late us s).
  - apply view_inv in Hv as (Hf & Hw & Hn & Hc & Hl).
    unfold frames_ok. rewrite Hf, Hw, Hn, Hc, Hl. split_and!; try done.
    + intros h [->%elem_of_singleton | Hh]%elem_of_union; [lia|].
      specialize (H1 h Hh). lia.
    + intros f Hfr. destruct (H2 f Hfr) as (? & ? & ?).
      split_and!; [lia | | done].
      intros [Heq%elem_of_singleton | Hin]%elem_of_union; [lia | done].
    + intros h Hh. destruct (H3 h Hh). split; [lia|].
      intros [->%elem_of_singleton | Hin]%elem_of_union; [lia | done].
    + intros c Hc'. destruct (H5 c Hc'); [by left | right; set_solver].
  - destruct (frame s) as [g|] eqn:Hg.
    + apply view_inv in Hv as (Hf & Hw & Hn & Hc & Hl).
      unfold frames_ok. rewrite Hf, Hw, Hn, Hc, Hl, waiting_handles_app. simpl.
      destruct (H2 g eq_refl) as (Hg1 & Hg2 & Hg3). split_and!.
      * intros h Hh. specialize (H1 h Hh). lia.
      * intros f [= <-]. split_and!; [lia | done |].
        intros [Hin | Heq%list_elem_of_singleton]%elem_of_app; [done | lia].
      * intros h [Hin | ->%list_elem_of_singleton]%elem_of_app.
        -- destruct (H3 h Hin). split; [lia | done].
        -- split; [lia | done].
      * apply NoDup_app. split_and!; [done | | apply NoDup_singleton].
        intros h Hin ->%list_elem_of_singleton. done.
      * done.
    + apply view_inv in Hv as (Hf & Hw & Hn & Hc & Hl).
      unfold frames_ok. rewrite Hf, Hw, Hn, Hc, Hl, waiting_handles_app. simpl.
      split_and!.
      * intros h Hh. specialize (H1 h Hh). lia.
      * intros f [= <-]. simpl. split_and!; [lia | |].
        -- intros Hin. specialize (H1 _ Hin). lia.
        -- intros [Hin | Heq%list_elem_of_singleton]%elem_of_app; [|lia].
           destruct (H3 _ Hin). lia.
      * intros h [Hin | ->%list_elem_of_singleton]%elem_of_app.
        -- destruct (H3 h Hin). split; [lia | done].
        -- split; [lia | done].
      * apply NoDup_app. split_and!; [done | | apply NoDup_singleton].
        intros h Hin ->%list_elem_of_singleton. done.
      * intros c. unfold written. rewrite omap_app. simpl.
        intros [Hin | ->%list_elem_of_singleton]%elem_of_app; [|by left].
        right. by destruct (H5 c Hin).
Qed.

Lemma frames_ok_post (i : Invocation) (ok : bool) (s s' : State) :
  frame_view s' = frame_view (output_post i ok s) ->
  frames_ok s ->
  (handle (inv_frame i) < fresh s)%nat ->
  handle (inv_frame i) ∉ waiting_handles (waiting s) ->
  (forall g, frame s = Some g -> handle g <> handle (inv_frame i)) ->
  frames_ok s'.
Proof.
  rewrite output_post_frame_view.
  intros Hv (H1 & H2 & H3 & H4 & H5) Hlt Hnw Hng.
  destruct (negb ok || late _ s).
  - apply view_inv in Hv as (Hf & Hw & Hn & Hc & Hl).
    unfold frames_ok. rewrite Hf, Hw, Hn, Hc, Hl. split_and!; try done.
    + intros h [->%elem_of_singleton | Hh]%elem_of_union; [done | by apply H1].
    + intros f Hfr. destruct (H2 f Hfr) as (? & ? & ?). split_and!; try done.
      intros [Heq%elem_of_singleton | Hin]%elem_of_union; [|done].
      by apply (Hng f).
    + intros h Hh. destruct (H3 h Hh). split; [done|].
      intros [->%elem_of_singleton | Hin]%elem_of_union; done.
    + intros c Hc'. destruct (H5 c Hc'); [by left | right; set_solver].
  - apply view_inv in Hv as (Hf & Hw & Hn & Hc & Hl).
    assert (Hcw : forall h, h ∈ closed_with (frame s) (closedFrames s) ->
              (h < fresh s)%nat /\ h ∉ waiting_handles (waiting s)).
    { intros h Hh. destruct (frame s) as [p|] eqn:Hp; simpl in Hh.
      - apply elem_of_union in Hh as [->%elem_of_singleton | Hh].
        + destruct (H2 p eq_refl) as (? & ? & ?). done.
        + split; [by apply H1|]. intros Hin. by destruct (H3 h Hin).
      - split; [by apply H1|]. intros Hin. by destruct (H3 h Hin). }
    unfold frames_ok. rewrite Hf, Hw, Hn, Hc, Hl. split_and!; try done.
    + intros h [->%elem_of_singleton | Hh]%elem_of_union; [lia|].
      destruct (Hcw h Hh). lia.
    + intros f [= <-]. simpl. split_and!; [lia | |].
      * intros [Heq%elem_of_singleton | Hh]%elem_of_union; [lia|].
        destruct (Hcw _ Hh). lia.
      * intros Hin. destruct (H3 _ Hin). lia.
    + intros h Hh. destruct (H3 h Hh). split; [lia|].
      intros [->%elem_of_singleton | Hin]%elem_of_union; [done|].
      by destruct (Hcw h Hin).
    + intros c. unfold written. rewrite omap_app. simpl.
      intros [Hin | ->%list_elem_of_singleton]%elem_of_app; [|by left].
      right. destruct (H5 c Hin) as [Hfr | Hcl].
      * rewrite Hfr. simpl. set_solver.
      * destruct (frame s); simpl; set_solver.
Qed.

Lemma waiting_handles_delete (l : list Invocation) (k : nat) (i : Invocation) :
  l !! k = Some i -> NoDup (waiting_handles l) ->
  NoDup (waiting_handles (delete k l))
  /\ (handle (inv_frame i) ∉ waiting_handles (delete k l))
  /\ (handle (inv_frame i) ∈ waiting_handles l)
  /\ (forall h, h ∈ waiting_handles (delete k l) -> h ∈ waiting_handles l).
Proof.
  revert k. induction l as [|j l IH]; intros k Hk Hnd; [done|].
  unfold waiting_handles in *. simpl in *.
  apply NoDup_cons in Hnd as [Hj Hnd]. destruct k as [|k]; simpl in *.
  - injection Hk as ->. split_and!; [done | done | left | by right].
  - destruct (IH k Hk Hnd) as (Hd & Hni & Hin & Hsub). split_and!.
    + apply NoDup_cons. split; [|done]. intros Hin'. by apply Hj, Hsub.
    + intros [Heq | Hin']%elem_of_cons; [|done]. apply Hj. by rewrite <- Heq.
    + by right.
    + intros h [-> | Hh]%elem_of_cons; [left | right; by apply Hsub].
Qed.

Lemma step_frames_ok (s s' : State) (ev : Event) :
  frames_ok s -> step s ev = Some s' -> frames_ok s'.
Proof.
  intros Hok Hstep. pose proof (step_frame_view _ _ _ Hstep) as Hv.
  destruct ev; try (by eapply frames_ok_same).
  - rewrite runPending_frame_view in Hv. destruct (lost s).
    + by eapply frames_ok_clear.
    + by eapply frames_ok_alloc.
  - by eapply frames_ok_pre.
  - destruct (waiting s !! k) as [i|] eqn:Hk; [|by eapply frames_ok_same].
    destruct Hok as (H1 & H2 & H3 & H4 & H5).
    destruct (waiting_handles_delete _ _ _ Hk H4) as (Hd & Hni & Hin & Hsub).
    set (s1 := set_waiting (delete k (waiting s)) s) in *.
    assert (Hs1 : frame s1 = frame s /\ waiting s1 = delete k (waiting s)
              /\ fresh s1 = fresh s /\ closedFrames s1 = closedFrames s
              /\ frameLog s1 = frameLog s) by (subst s1; by destruct s).
    destruct Hs1 as (Hf1 & Hw1 & Hn1 & Hc1 & Hl1).
    eapply frames_ok_post; [exact Hv | | | |].
    + unfold frames_ok. rewrite Hf1, Hw1, Hn1, Hc1, Hl1. split_and!; try done.
      * intros f Hfr. destruct (H2 f Hfr) as (? & ? & Hnw).
        split_and!; try done. intros Hin'. by apply Hnw, Hsub.
      * intros h Hh. by apply H3, Hsub.
    + rewrite Hn1. by destruct (H3 _ Hin).
    + by rewrite Hw1.
    + rewrite Hf1. intros g Hg Heq. destruct (H2 g Hg) as (_ & _ & Hnw).
      apply Hnw. by rewrite Heq.
  - by eapply frames_ok_clear.
Qed.

Lemma reachable_frames_ok (s : State) : reachable s -> frames_ok s.
Proof.
  apply reachable_ind.
  - intros b en. unfold frames_ok. simpl. split_and!; try done.
    + intros h Hh. inversion Hh.
    + constructor.
    + intros c Hc. inversion Hc.
  - intros s0 ev s1 _. apply step_frames_ok.
Qed.

(** *** What each operation does to the pipelines *)

Lemma open_in_close_in (e e' : EffectId) (m : gmap EffectId Track) :
  open_in e' (close_in e m)
  = if decide (e' = e) then false else open_in e' m.
Proof.
  unfold open_in, close_in. destruct (m !! e) as [t|] eqn:Hl.
  - destruct (tr_open t) eqn:Ho.
    + destruct (decide (e' = e)) as [->|Hne].
      * by rewrite lookup_insert_eq.
      * by rewrite lookup_insert_ne.
    + destruct (decide (e' = e)) as [->|Hne]; [by rewrite Hl | done].
  - destruct (decide (e' = e)) as [->|Hne]; [by rewrite Hl | done].
Qed.

Lemma close_in_key (e e' : EffectId) (m : gmap EffectId Track) :
  is_Some (close_in e m !! e') -> is_Some (m !! e').
Proof.
  unfold close_in. destruct (m !! e) as [t|] eqn:Hl; [|done].
  destruct (tr_open t); [|done].
  destruct (decide (e' = e)) as [->|Hne].
  - by rewrite Hl.
  - by rewrite lookup_insert_ne.
Qed.

Lemma open_in_close_in_opt (o : option EffectId) (e' : EffectId)
    (m : gmap EffectId Track) :
  open_in e' (close_in_opt o m) = true ->
  open_in e' m = true /\ o <> Some e'.
Proof.
  destruct o as [e|]; simpl; [|done]. rewrite open_in_close_in.
  destruct (decide (e' = e)); [done|]. intros H. split; [done | congruence].
Qed.

Lemma close_in_opt_key (o : option EffectId) (e' : EffectId)
    (m : gmap EffectId Track) :
  is_Some (close_in_opt o m !! e') -> is_Some (m !! e').
Proof. destruct o; [apply close_in_key | done]. Qed.

Lemma closeEffect_pipe_view (e : EffectId) (s : State) :
  pipe_view (closeEffect e s)
  = (close_in e (tracks s), pendingEffect s, activeEffect s,
     pendingCleanup s, fresh s).
Proof.
  unfold closeEffect, close_in, pipe_view.
  destruct (tracks s !! e) as [t|]; [|done]. destruct (tr_open t); [|done].
  destruct (decide (activeEffect s = Some e)), (tr_active t); by destruct s.
Qed.

Lemma closeEffect_opt_pipe_view (o : option EffectId) (s : State) :
  pipe_view (closeEffect_opt o s)
  = (close_in_opt o (tracks s), pendingEffect s, activeEffect s,
     pendingCleanup s, fresh s).
Proof. destruct o; [apply closeEffect_pipe_view | done]. Qed.

Lemma pipe_inv (s : State) a b c d e :
  pipe_view s = (a, b, c, d, e) ->
  tracks s = a /\ pendingEffect s = b /\ activeEffect s = c
  /\ pendingCleanup s = d /\ fresh s = e.
Proof. unfold pipe_view. by intros [= -> -> -> -> ->]. Qed.

Lemma runPending_pipe_view (s : State) :
  pipe_view (runPending s)
  = if lost s
    then (close_in_opt (activeEffect s) (cleaned s), pendingEffect s, None,
          false, fresh s)
    else (<[fresh s := mkTrack (default 0%nat (broadcast s))
                         (default "" (selected s))
                         (default Bare (selectedConfig s)) true false]>
            (cleaned s),
          Some (fresh s), activeEffect s, true, S (fresh s)).
Proof.
  unfold runPending, cleaned.
  set (s1 := if pendingCleanup s then _ else s).
  assert (H1 : pipe_view s1
           = ((if pendingCleanup s
               then close_in_opt (pendingEffect s) (tracks s) else tracks s),
              pendingEffect s, activeEffect s, pendingCleanup s, fresh s)).
  { subst s1. destruct (pendingCleanup s) eqn:Hpc.
    - rewrite closeEffect_opt_pipe_view. by rewrite Hpc.
    - unfold pipe_view. by rewrite Hpc. }
  assert (Hl1 : lost (set_pendingCleanup false (set_pendingDirty false s1))
                = lost s).
  { subst s1. destruct (pendingCleanup s); [|by destruct s].
    destruct (closeEffect_opt_shape (pendingEffect s) s) as (m & t & ac & ->).
    apply lost_cleanup. }
  assert (Hsig : broadcast s1 = broadcast s /\ selected s1 = selected s
            /\ selectedConfig s1 = selectedConfig s).
  { subst s1. destruct (pendingCleanup s); [|done].
    destruct (closeEffect_opt_shape (pendingEffect s) s) as (m & t & ac & ->).
    by destruct s. }
  clearbody s1. rewrite Hl1.
  apply pipe_inv in H1 as (Ht & Hp & Ha & Hc & Hn).
  set (s2 := set_pendingCleanup false _).
  assert (H2 : pipe_view s2
           = (tracks s1, pendingEffect s1, activeEffect s1, false, fresh s1))
    by (subst s2; by destruct s1).
  assert (Hsig2 : broadcast s2 = broadcast s /\ selected s2 = selected s
            /\ selectedConfig s2 = selectedConfig s).
  { subst s2. destruct Hsig as (<- & <- & <-). by destruct s1. }
  clearbody s2. apply pipe_inv in H2 as (Ht2 & Hp2 & Ha2 & Hc2 & Hn2).
  destruct (lost s) eqn:Hl.
  - unfold teardown, clearFrame, closePrev, write_frame.
    set (s3 := closeEffect_opt (activeEffect s2) s2).
    pose proof (closeEffect_opt_pipe_view (activeEffect s2) s2) as H3.
    fold s3 in H3. apply pipe_inv in H3 as (Ht3 & Hp3 & Ha3 & Hc3 & Hn3).
    rewrite Ht2, Ha2, Ht, Ha in Ht3.
    rewrite <- Ht3, <- Hp, <- Hp2, <- Hp3, <- Hn, <- Hn2, <- Hn3.
    rewrite Hc2 in Hc3. clearbody s3. clear -Hc3.
    destruct s3 as [? ? ? ? ? ? ? ? fr]; simpl in *. subst. by destruct fr.
  - destruct (lost_false s Hl) as (b & n & c & Hb & Hsel & Hcfg & _).
    destruct Hsig2 as (Hb2 & Hsel2 & Hcfg2).
    rewrite Hb2, Hsel2, Hcfg2, Hb, Hsel, Hcfg. simpl.
    rewrite <- Ht, <- Ht2, <- Ha, <- Ha2, <- Hn, <- Hn2.
    by destruct s2.
Qed.

Lemma output_pre_pipe_view (e : EffectId) (name : string) (us : Z)
    (s : State) :
  exists n, (fresh s <= n)%nat
    /\ pipe_view (output_pre e name us s)
       = (tracks s, pendingEffect s, activeEffect s, pendingCleanup s, n).
Proof.
  unfold Source.output_pre. destruct (Source.late _ _ _).
  - exists (S (fresh s)). split; [lia | by destruct s].
  - destruct (frame (set_fresh (S (fresh s)) s)) eqn:Hf.
    + exists (S (fresh s)). split; [lia | by destruct s].
    + exists (S (S (fresh s))). split; [lia | by destruct s].
Qed.

Lemma output_post_pipe_view (i : Invocation) (ok : bool) (s : State) :
  pipe_view (output_post i ok s)
  = if negb ok || late (vf_timestamp (inv_frame i)) s
    then pipe_view s
    else if decide (pendingEffect s = Some (inv_effect i))
    then (alter promoted (inv_effect i)
            (close_in_opt (activeEffect s) (tracks s)), None,
          Some (inv_effect i), pendingCleanup s, S (fresh s))
    else (tracks s, pendingEffect s, activeEffect s, pendingCleanup s,
          S (fresh s)).
Proof.
  unfold Source.output_post. destruct ok; simpl; [|by destruct s].
  destruct (late _ s) eqn:Hl; [by destruct s|].
  unfold clone. set (s1 := set_frameLog _ _).
  assert (H1 : pipe_view s1
           = (tracks s, pendingEffect s, activeEffect s, pendingCleanup s,
              S (fresh s))).
  { subst s1. unfold closePrev, write_frame.
    destruct s as [? ? ? ? ? ? ? ? fr]; by destruct fr. }
  clearbody s1. apply pipe_inv in H1 as (Ht & Hp & Ha & Hc & Hn).
  rewrite <- Hp.
  destruct (decide (pendingEffect s1 = Some (inv_effect i))).
  - pose proof (closeEffect_opt_pipe_view (activeEffect s1) s1) as H2.
    set (s2 := closeEffect_opt (activeEffect s1) s1) in *.
    apply pipe_inv in H2 as (Ht2 & Hp2 & Ha2 & Hc2 & Hn2).
    rewrite <- Ht, <- Ha, <- Ht2, <- Hc, <- Hc2, <- Hn, <- Hn2.
    clearbody s2. by destruct s2.
  - rewrite <- Ht, <- Ha, <- Hc, <- Hn. by destruct s1.
Qed.

Lemma close_pipe_view (s : State) :
  pipe_view (close s)
  = (cleaned s, pendingEffect s, activeEffect s, false, fresh s).
Proof.
  unfold close, cleaned.
  set (s1 := clearFrame s).
  assert (H1 : pipe_view s1 = pipe_view s).
  { subst s1. unfold clearFrame, closePrev, write_frame.
    destruct s as [? ? ? ? ? ? ? ? fr]; by destruct fr. }
  clearbody s1. apply pipe_inv in H1 as (Ht & Hp & Ha & Hc & Hn).
  set (s2 := clearSelected (set_signalsOpen false s1)).
  assert (H2 : pipe_view s2 = pipe_view s1) by (subst s2; by destruct s1).
  clearbody s2. apply pipe_inv in H2 as (Ht2 & Hp2 & Ha2 & Hc2 & Hn2).
  rewrite Hc2, Hc. destruct (pendingCleanup s) eqn:Hpc.
  - rewrite closeEffect_opt_pipe_view.
    rewrite <- Ht, <- Hp, <- Ha, <- Hn, <- Ht2, <- Hp2, <- Ha2, <- Hn2.
    by destruct s2.
  - rewrite <- Ht, <- Hp, <- Ha, <- Hn, <- Ht2, <- Hp2, <- Ha2, <- Hn2.
    unfold pipe_view. by rewrite Hc2, Hc.
Qed.

(** The pipelines after one event. *)
Lemma step_pipe_view (s s' : State) (ev : Event) :
  step s ev = Some s' ->
  match ev with
  | RunPending => pipe_view s' = pipe_view (runPending s)
  | Output _ _ =>
      exists n, (fresh s <= n)%nat
        /\ pipe_view s'
           = (tracks s, pendingEffect s, activeEffect s, pendingCleanup s, n)
  | Resume k =>
      exists i, waiting s !! k = Some i
        /\ pipe_view s'
           = pipe_view (output_post i (is_open (inv_effect i) s)
                          (set_waiting (delete k (waiting s)) s))
  | DecoderError e =>
      pipe_view s'
      = (close_in e (tracks s), pendingEffect s, activeEffect s,
         pendingCleanup s, fresh s)
  | Close =>
      pipe_view s'
      = (cleaned s, pendingEffect s, activeEffect s, false, fresh s)
  | _ => pipe_view s' = pipe_view s
  end.
Proof.
  intros Hstep. destruct ev; simpl in Hstep.
  - injection Hstep as <-. by destruct s.
  - injection Hstep as <-. by destruct s.
  - injection Hstep as <-. by destruct s.
  - injection Hstep as <-. by destruct s.
  - destruct (signalsOpen s); [|done]. injection Hstep as <-.
    destruct (runSelected_shape s) as (? & ? & ? & ? & ->). by destruct s.
  - destruct (signalsOpen s && pendingDirty s && negb (runPending_throws s));
      [|done].
    by injection Hstep as <-.
  - destruct (signalsOpen s && bufferDirty s); [|done].
    injection Hstep as <-. by destruct s.
  - destruct (is_open e s); [|done]. injection Hstep as <-. by destruct s.
  - destruct (tracks s !! e) as [t|]; [|done]. destruct (tr_open t); [|done].
    injection Hstep as <-. apply output_pre_pipe_view.
  - destruct (waiting s !! k) as [i|]; [|done]. injection Hstep as <-.
    by exists i.
  - destruct (is_open e s); [|done]. injection Hstep as <-.
    apply closeEffect_pipe_view.
  - injection Hstep as <-. apply close_pipe_view.
Qed.

(** *** No pipeline is orphaned *)

Lemma pipelines_ok_view (s : State) m p a c n :
  pipe_view s = (m, p, a, c, n) ->
  pipelines_ok s
  <-> (forall e t, m !! e = Some t -> (e < n)%nat)
      /\ (forall e, open_in e m = true -> p = Some e \/ a = Some e)
      /\ (forall e, p = Some e -> open_in e m = true -> c = true).
Proof.
  intros (<- & <- & <- & <- & <-)%pipe_inv. reflexivity.
Qed.

Lemma open_in_cleaned (s : State) (e : EffectId) :
  pipelines_ok s -> open_in e (cleaned s) = true ->
  open_in e (tracks s) = true /\ pendingEffect s <> Some e.
Proof.
  intros (_ & _ & H3) Ho. unfold cleaned in Ho.
  destruct (pendingCleanup s) eqn:Hpc.
  - by apply open_in_close_in_opt.
  - split; [done|]. intros Hp. specialize (H3 e Hp Ho). congruence.
Qed.

Lemma cleaned_key (s : State) (e : EffectId) :
  is_Some (cleaned s !! e) -> is_Some (tracks s !! e).
Proof.
  unfold cleaned. destruct (pendingCleanup s); [|done].
  apply close_in_opt_key.
Qed.

Lemma step_pipelines_ok (s s' : State) (ev : Event) :
  pipelines_ok s -> step s ev = Some s' -> pipelines_ok s'.
Proof.
  intros Hok Hstep. pose proof (step_pipe_view _ _ _ Hstep) as Hv.
  pose proof Hok as (H1 & H2 & H3).
  assert (Hsame : forall s1, pipe_view s1 = pipe_view s -> pipelines_ok s1).
  { intros s1 Hs1. by apply (pipelines_ok_view s1 _ _ _ _ _ Hs1). }
  assert (Hcleaned : forall e, open_in e (cleaned s) = true ->
            activeEffect s = Some e).
  { intros e Ho. destruct (open_in_cleaned s e Hok Ho) as [Ho' Hnp].
    destruct (H2 e Ho'); [done | done]. }
  destruct ev; try (by apply Hsame).
  - (* RunPending *)
    rewrite runPending_pipe_view in Hv. destruct (lost s).
    + apply (pipelines_ok_view _ _ _ _ _ _ Hv).
      assert (Hnone : forall e,
                open_in e (close_in_opt (activeEffect s) (cleaned s)) = true ->
                False).
      { intros e [Ho Hna]%open_in_close_in_opt. by apply Hna, Hcleaned. }
      split_and!.
      * intros e t Ht. destruct (cleaned_key s e) as [t' Ht'].
        { apply (close_in_opt_key (activeEffect s)). by exists t. }
        by eapply H1.
      * intros e Ho. by destruct (Hnone e).
      * intros e _ Ho. by destruct (Hnone e).
    + apply (pipelines_ok_view _ _ _ _ _ _ Hv). split_and!.
      * intros e t. destruct (decide (e = fresh s)) as [->|Hne]; [lia|].
        rewrite lookup_insert_ne by done. intros Ht.
        destruct (cleaned_key s e) as [t' Ht']; [by exists t|].
        specialize (H1 _ _ Ht'). lia.
      * intros e. unfold open_in.
        destruct (decide (e = fresh s)) as [->|Hne]; [by left|].
        rewrite lookup_insert_ne by done. intros Ho. right.
        by apply Hcleaned.
      * done.
  - (* Output *)
    destruct Hv as (n & Hn & Hv). apply (pipelines_ok_view _ _ _ _ _ _ Hv).
    split_and!; try done. intros e0 t Ht. specialize (H1 _ _ Ht). lia.
  - (* Resume *)
    destruct Hv as (i & Hk & Hv). rewrite output_post_pipe_view in Hv.
    set (s1 := set_waiting _ s) in *.
    assert (Hs1 : pipe_view s1 = pipe_view s) by (subst s1; by destruct s).
    assert (Hl1 : late (vf_timestamp (inv_frame i)) s1
                  = late (vf_timestamp (inv_frame i)) s)
      by (subst s1; by destruct s).
    apply pipe_inv in Hs1 as (Ht1 & Hp1 & Ha1 & Hc1 & Hn1).
    rewrite Hl1, Ht1, Hp1, Ha1, Hc1, Hn1 in Hv.
    destruct (negb _ || _).
    + apply Hsame. rewrite Hv. unfold pipe_view.
      by rewrite Ht1, Hp1, Ha1, Hc1, Hn1.
    + destruct (decide (pendingEffect s = Some (inv_effect i))) as [Hp|Hp].
      * apply (pipelines_ok_view _ _ _ _ _ _ Hv). split_and!.
        -- intros e t Ht. destruct (close_in_opt_key (activeEffect s) e (tracks s))
             as [t' Ht'].
           { apply (lookup_alter_is_Some promoted _ (inv_effect i)).
             by exists t. }
           specialize (H1 _ _ Ht'). lia.
        -- intros e. rewrite open_in_promoted.
           intros [Ho Hna]%open_in_close_in_opt. right.
           destruct (H2 e Ho) as [Hpe | Hae]; [congruence | done].
        -- done.
      * apply (pipelines_ok_view _ _ _ _ _ _ Hv). split_and!; try done.
        intros e t Ht. specialize (H1 _ _ Ht). lia.
  - (* DecoderError *)
    apply (pipelines_ok_view _ _ _ _ _ _ Hv). split_and!.
    + intros e0 t Ht. destruct (close_in_key e e0 (tracks s)) as [t' Ht'];
        [by exists t|]. by eapply H1.
    + intros e0. rewrite open_in_close_in.
      destruct (decide (e0 = e)); [done | apply H2].
    + intros e0 Hp. rewrite open_in_close_in.
      destruct (decide (e0 = e)); [done | by apply H3].
  - (* Close *)
    apply (pipelines_ok_view _ _ _ _ _ _ Hv). split_and!.
    + intros e t Ht. destruct (cleaned_key s e) as [t' Ht']; [by exists t|].
      by eapply H1.
    + intros e Ho. right. by apply Hcleaned.
    + intros e Hp Ho. destruct (open_in_cleaned s e Hok Ho). done.
Qed.

Lemma reachable_pipelines_ok (s : State) : reachable s -> pipelines_ok s.
Proof.
  apply reachable_ind.
  - intros b en. split_and!; intros e; unfold is_open; simpl;
      try (by rewrite lookup_empty).
  - intros s0 ev s1 _. apply step_pipelines_ok.
Qed.

(** *** Stats, selection and the timestamp *)

Lemma closeEffect_opt_inputs_view (o : option EffectId) (s : State) :
  inputs_view (closeEffect_opt o s) = inputs_view s.
Proof.
  destruct (closeEffect_opt_shape o s) as (m & t & ac & ->). by destruct s.
Qed.

Lemma clearFrame_inputs_view (s : State) :
  inputs_view (clearFrame s) = inputs_view s.
Proof.
  unfold clearFrame, closePrev, write_frame.
  destruct s as [? ? ? ? ? ? ? ? fr]; by destruct fr.
Qed.

Lemma runPending_inputs_view (s : State) :
  inputs_view (runPending s) = inputs_view s.
Proof.
  unfold runPending.
  destruct (pending_cleanup_shape s) as (m & t & ac & -> & _).
  set (s2 := set_pendingCleanup false _).
  assert (H2 : inputs_view s2 = inputs_view s) by (subst s2; by destruct s).
  clearbody s2. rewrite <- H2. destruct (lost s2).
  - unfold teardown. rewrite clearFrame_inputs_view.
    rewrite <- (closeEffect_opt_inputs_view (activeEffect s2) s2).
    by destruct (closeEffect_opt (activeEffect s2) s2).
  - assert (H : forall b n c,
              inputs_view
                (runTrack (fresh s2) b n c
                   (set_pendingCleanup true
                      (set_pendingEffect (Some (fresh s2))
                         (set_fresh (S (fresh s2)) s2))))
              = inputs_view s2) by (intros; by destruct s2).
    destruct (broadcast s2), (selected s2), (selectedConfig s2);
      first [done | apply H].
Qed.

Lemma output_pre_inputs_view (e : EffectId) (name : string) (us : Z)
    (s : State) :
  inputs_view (output_pre e name us s) = inputs_view s.
Proof.
  unfold Source.output_pre, Source.late, clone, write_frame, closeFrame.
  destruct s as [? ? ? ? ? ? ? ? fr]; simpl.
  destruct (Qltb _ _); [done|]. by destruct fr.
Qed.

Lemma output_post_inputs_view (i : Invocation) (ok : bool) (s : State) :
  inputs_view (output_post i ok s) = inputs_view s.
Proof.
  unfold Source.output_post. destruct ok; simpl; [|by destruct s].
  destruct (late _ s); [by destruct s|].
  unfold clone. set (s1 := set_frameLog _ _).
  assert (H1 : inputs_view s1 = inputs_view s).
  { subst s1. unfold closePrev, write_frame.
    destruct s as [? ? ? ? ? ? ? ? fr]; by destruct fr. }
  clearbody s1. rewrite <- H1.
  destruct (decide _); [|by destruct s1].
  rewrite <- (closeEffect_opt_inputs_view (activeEffect s1) s1).
  by destruct (closeEffect_opt (activeEffect s1) s1).
Qed.

Lemma close_inputs_view (s : State) :
  inputs_view (close s) = (stats s, None, None, None, false).
Proof.
  unfold close. pose proof (clearFrame_inputs_view s) as H1.
  revert H1. generalize (clearFrame s). intros s1 H1.
  set (s2 := clearSelected (set_signalsOpen false s1)).
  assert (H2 : inputs_view s2 = (stats s, None, None, None, false)).
  { subst s2. unfold inputs_view in *. injection H1 as <- _ _ _ _.
    by destruct s1. }
  clearbody s2. rewrite <- H2. destruct (pendingCleanup s2); [|done].
  rewrite closeEffect_opt_inputs_view. by destruct s2.
Qed.

Lemma step_inputs_view (s s' : State) (ev : Event) :
  step s ev = Some s' ->
  inputs_view s' =
    match ev with
    | RunSelected => inputs_view (runSelected s)
    | Receive _ us n => inputs_view (receive us n s)
    | Close => (stats s, None, None, None, false)
    | _ => inputs_view s
    end.
Proof.
  intros Hstep. destruct ev; simpl in Hstep.
  - injection Hstep as <-. by destruct s.
  - injection Hstep as <-. by destruct s.
  - injection Hstep as <-. by destruct s.
  - injection Hstep as <-. by destruct s.
  - destruct (signalsOpen s); [|done]. by injection Hstep as <-.
  - destruct (signalsOpen s && pendingDirty s && negb (runPending_throws s));
      [|done].
    injection Hstep as <-. apply runPending_inputs_view.
  - destruct (signalsOpen s && bufferDirty s); [|done].
    injection Hstep as <-. by destruct s.
  - destruct (is_open e s); [|done]. by injection Hstep as <-.
  - destruct (tracks s !! e) as [t|]; [|done]. destruct (tr_open t); [|done].
    injection Hstep as <-. apply output_pre_inputs_view.
  - destruct (waiting s !! k) as [i|]; [|done]. injection Hstep as <-.
    rewrite output_post_inputs_view. by destruct s.
  - destruct (is_open e s); [|done]. injection Hstep as <-.
    apply (closeEffect_opt_inputs_view (Some e)).
  - injection Hstep as <-. apply close_inputs_view.
Qed.

Lemma closeEffect_opt_timestamp (o : option EffectId) (s : State) :
  timestamp_ (closeEffect_opt o s)
  = match o with
    | Some e =>
        if is_open e s && bool_decide (activeEffect s = Some e)
        then None else timestamp_ s
    | None => timestamp_ s
    end.
Proof.
  destruct o as [e|]; [|done]. unfold closeEffect_opt, closeEffect, is_open.
  destruct (tracks s !! e) as [t|]; [|done].
  destruct (tr_open t); [|done]. simpl.
  destruct (decide (activeEffect s = Some e)) as [Ha|Ha].
  - rewrite bool_decide_eq_true_2 by done. destruct (tr_active t); by destruct s.
  - rewrite bool_decide_eq_false_2 by done. destruct (tr_active t); by destruct s.
Qed.

(** A timestamp is reset or kept by every transition but one: a callback
    that resumes with a frame that is not late records that frame's. *)
Lemma timestamp_kept (s s' : State) :
  timestamp_ s' = timestamp_ s \/ timestamp_ s' = None ->
  forall t, timestamp_ s' = Some t -> timestamp_ s = Some t.
Proof. intros [-> | ->]; done. Qed.

Lemma closeEffect_opt_resets (o : option EffectId) (s : State) :
  timestamp_ (closeEffect_opt o s) = timestamp_ s
  \/ timestamp_ (closeEffect_opt o s) = None.
Proof.
  rewrite closeEffect_opt_timestamp. destruct o; [|by left].
  destruct (_ && _); [by right | by left].
Qed.

Lemma runPending_resets (s : State) :
  timestamp_ (runPending s) = timestamp_ s \/ timestamp_ (runPending s) = None.
Proof.
  unfold runPending.
  set (s1 := if pendingCleanup s then _ else s).
  assert (H1 : timestamp_ s1 = timestamp_ s \/ timestamp_ s1 = None).
  { subst s1. destruct (pendingCleanup s); [|by left].
    apply closeEffect_opt_resets. }
  clearbody s1. set (s2 := set_pendingCleanup false _).
  assert (H2 : timestamp_ s2 = timestamp_ s1) by (subst s2; by destruct s1).
  clearbody s2.
  assert (H3 : timestamp_ s2 = timestamp_ s \/ timestamp_ s2 = None)
    by (rewrite H2; exact H1).
  clear H1 H2 s1. destruct (lost s2).
  - unfold teardown.
    destruct (closeEffect_opt_resets (activeEffect s2) s2) as [H4 | H4].
    + rewrite <- H4 in H3.
      revert H3. generalize (closeEffect_opt (activeEffect s2) s2).
      intros s3 H3. unfold clearFrame, closePrev, write_frame.
      destruct s3 as [? ? ? ? ? ? ? ? fr]; by destruct fr.
    + right. revert H4. generalize (closeEffect_opt (activeEffect s2) s2).
      intros s3 H4. unfold clearFrame, closePrev, write_frame.
      destruct s3 as [? ? ? ? ? ? ? ? fr]; by destruct fr.
  - destruct (broadcast s2), (selected s2), (selectedConfig s2); try done.
    by destruct s2.
Qed.

Lemma output_post_timestamp (i : Invocation) (ok : bool) (s : State) :
  if negb ok || late (vf_timestamp (inv_frame i)) s
  then timestamp_ (output_post i ok s) = timestamp_ s
  else timestamp_ (output_post i ok s)
       = Some (fromMicro (vf_timestamp (inv_frame i)))
       \/ timestamp_ (output_post i ok s) = None.
Proof.
  unfold Source.output_post. destruct ok; simpl; [|by destruct s].
  destruct (late _ s); [by destruct s|].
  unfold clone. set (s1 := set_frameLog _ _).
  assert (H1 : timestamp_ s1 = Some (fromMicro (vf_timestamp (inv_frame i)))).
  { subst s1. unfold closePrev, write_frame.
    destruct s as [? ? ? ? ? ? ? ? fr]; by destruct fr. }
  clearbody s1. rewrite <- H1.
  destruct (decide _); [|left; by destruct s1].
  destruct (closeEffect_opt_resets (activeEffect s1) s1) as [H | H];
    [left | right]; rewrite <- H;
    by destruct (closeEffect_opt (activeEffect s1) s1).
Qed.

Lemma close_resets (s : State) :
  timestamp_ (close s) = timestamp_ s \/ timestamp_ (close s) = None.
Proof.
  unfold close.
  assert (H1 : timestamp_ (clearFrame s) = timestamp_ s).
  { unfold clearFrame, closePrev, write_frame.
    destruct s as [? ? ? ? ? ? ? ? fr]; by destruct fr. }
  rewrite <- H1. generalize (clearFrame s). intros s1.
  set (s2 := clearSelected (set_signalsOpen false s1)).
  assert (H2 : timestamp_ s2 = timestamp_ s1) by (subst s2; by destruct s1).
  clearbody s2. rewrite <- H2.
  destruct (pendingCleanup s2); [|by left].
  destruct (closeEffect_opt_resets (pendingEffect s2)
              (set_pendingCleanup false s2))
    as [H | H]; [left | right]; rewrite H; by destruct s2.
Qed.

Lemma step_timestamp (s s' : State) (ev : Event) (t : Q) :
  step s ev = Some s' -> timestamp_ s' = Some t ->
  timestamp_ s = Some t
  \/ exists us, late us s = false /\ t = fromMicro us.
Proof.
  intros Hstep Ht. destruct ev; simpl in Hstep.
  - injection Hstep as <-. left. by destruct s.
  - injection Hstep as <-. left. by destruct s.
  - injection Hstep as <-. left. by destruct s.
  - injection Hstep as <-. left. by destruct s.
  - destruct (signalsOpen s); [|done]. injection Hstep as <-. left.
    revert Ht. destruct (runSelected_shape s) as (? & ? & ? & ? & ->). by destruct s.
  - destruct (signalsOpen s && pendingDirty s && negb (runPending_throws s));
      [|done].
    injection Hstep as <-. left.
    by apply (timestamp_kept _ _ (runPending_resets s)).
  - destruct (signalsOpen s && bufferDirty s); [|done].
    injection Hstep as <-. left. by destruct s.
  - destruct (is_open e s); [|done]. injection Hstep as <-. left.
    by destruct s.
  - destruct (tracks s !! e) as [tr|]; [|done]. destruct (tr_open tr); [|done].
    injection Hstep as <-. left. revert Ht.
    unfold Source.output_pre, Source.late, clone, write_frame, closeFrame.
    destruct s as [? ? ? ? ? ? ? ? fr]; simpl.
    destruct (Qltb _ _); [done|]. by destruct fr.
  - destruct (waiting s !! k) as [i|]; [|done]. injection Hstep as <-.
    set (s1 := set_waiting _ s) in *.
    assert (Hs1 : timestamp_ s1 = timestamp_ s) by (subst s1; by destruct s).
    assert (Hl1 : late (vf_timestamp (inv_frame i)) s1
                  = late (vf_timestamp (inv_frame i)) s)
      by (subst s1; by destruct s).
    pose proof (output_post_timestamp i (is_open (inv_effect i) s) s1) as H.
    rewrite Hl1 in H. destruct (negb _ || _) eqn:Hd.
    + left. by rewrite <- Hs1, <- H.
    + apply orb_false_elim in Hd as [_ Hd]. right.
      exists (vf_timestamp (inv_frame i)). split; [done|].
      destruct H as [H | H]; rewrite H in Ht; [by injection Ht | done].
  - destruct (is_open e s); [|done]. injection Hstep as <-. left.
    by apply (timestamp_kept _ _ (closeEffect_opt_resets (Some e) s)).
  - injection Hstep as <-. left.
    by apply (timestamp_kept _ _ (close_resets s)).
Qed.

(** What is published by one event passed the check against the
    timestamp of the state it happened in. *)
Lemma step_published (s s' : State) (ev : Event) :
  step s ev = Some s' ->
  exists d, published (frameLog s') = published (frameLog s) ++ d
    /\ Forall (fun us => late us s = false) d.
Proof.
  intros Hstep. pose proof (step_frame_view _ _ _ Hstep) as Hv.
  assert (Hsame : forall s1, frame_view s' = frame_view s1 ->
            frameLog s1 = frameLog s \/ frameLog s1 = frameLog s ++ [Cleared] ->
            exists d, published (frameLog s') = published (frameLog s) ++ d
              /\ Forall (fun us => late us s = false) d).
  { intros s1 Hs1 Hl. exists [].
    assert (Hlog : frameLog s' = frameLog s1).
    { unfold frame_view in Hs1. by injection Hs1. }
    rewrite Hlog, app_nil_r. split; [|constructor].
    destruct Hl as [-> | ->]; [done|].
    unfold published. by rewrite omap_app, app_nil_r. }
  assert (Hclear : frameLog (clearFrame s) = frameLog s ++ [Cleared]).
  { pose proof (clearFrame_frame_view s) as H. unfold frame_view in H.
    by injection H. }
  destruct ev; try (apply (Hsame s); [exact Hv | by left]).
  - rewrite runPending_frame_view in Hv. destruct (lost s).
    + apply (Hsame (clearFrame s)); [exact Hv | by right].
    + apply view_inv in Hv as (_ & _ & _ & _ & Hl). exists [].
      rewrite Hl, app_nil_r. split; [done | constructor].
  - rewrite output_pre_frame_view in Hv. destruct (late us s) eqn:Hlate.
    + apply view_inv in Hv as (_ & _ & _ & _ & Hl). exists [].
      rewrite Hl, app_nil_r. split; [done | constructor].
    + destruct (frame s).
      * apply view_inv in Hv as (_ & _ & _ & _ & Hl). exists [].
        rewrite Hl, app_nil_r. split; [done | constructor].
      * apply view_inv in Hv as (_ & _ & _ & _ & Hl). exists [us].
        rewrite Hl. unfold published. rewrite omap_app. simpl.
        split; [done|]. by constructor.
  - destruct (waiting s !! k) as [i|];
      [|apply (Hsame s); [exact Hv | by left]].
    rewrite output_post_frame_view in Hv.
    set (s1 := set_waiting _ s) in *.
    assert (Hl1 : late (vf_timestamp (inv_frame i)) s1
                  = late (vf_timestamp (inv_frame i)) s)
      by (subst s1; by destruct s).
    assert (Hlog1 : frameLog s1 = frameLog s) by (subst s1; by destruct s).
    rewrite Hl1, Hlog1 in Hv. destruct (negb _ || _) eqn:Hd.
    + apply view_inv in Hv as (_ & _ & _ & _ & Hl). exists [].
      rewrite Hl, app_nil_r. split; [done | constructor].
    + apply orb_false_elim in Hd as [_ Hd].
      apply view_inv in Hv as (_ & _ & _ & _ & Hl).
      exists [vf_timestamp (inv_frame i)].
      rewrite Hl. unfold published. rewrite omap_app. simpl.
      split; [done|]. by constructor.
  - apply (Hsame (clearFrame s)); [exact Hv | by right].
Qed.

(** ** Frames *)

(** In every reachable state the frame exposed through [frame] has not
    been closed, nor has the frame of any callback suspended at its wait,
    and those frames are distinct objects: closing one never closes what
    the renderer or another callback holds. *)
Theorem published_frame_is_open (s : State) :
  reachable s ->
  (forall f, frame s = Some f -> handle f ∉ closedFrames s)
  /\ (forall i, i ∈ waiting s -> handle (inv_frame i) ∉ closedFrames s)
  /\ (forall f i, frame s = Some f -> i ∈ waiting s ->
        handle f <> handle (inv_frame i)).
Proof.
  intros (H1 & H2 & H3 & H4 & H5)%reachable_frames_ok.
  assert (Hin : forall i, i ∈ waiting s ->
            handle (inv_frame i) ∈ waiting_handles (waiting s)).
  { intros i Hi. unfold waiting_handles.
    apply list_elem_of_fmap. by exists i. }
  split_and!.
  - intros f Hf. by destruct (H2 f Hf) as (_ & ? & _).
  - intros i Hi. by destruct (H3 _ (Hin i Hi)).
  - intros f i Hf Hi Heq. destruct (H2 f Hf) as (_ & _ & Hnw).
    apply Hnw. rewrite Heq. by apply Hin.
Qed.

(** In every reachable state each frame that was ever written to [frame]
    is either the one still published or has been closed: replacing or
    clearing the published frame never leaks it. *)
Theorem replaced_frames_are_closed (s : State) (c : VideoFrame) :
  reachable s ->
  c ∈ written (frameLog s) ->
  frame s = Some c \/ handle c ∈ closedFrames s.
Proof.
  intros (_ & _ & _ & _ & H5)%reachable_frames_ok. apply H5.
Qed.

Lemma waiting_handles_delete_elem (l : list Invocation) (k : nat)
    (i : Invocation) (h : nat) :
  l !! k = Some i -> h ∈ waiting_handles l ->
  h = handle (inv_frame i) \/ h ∈ waiting_handles (delete k l).
Proof.
  revert k. induction l as [|j l IH]; intros k Hk Hh; [done|].
  unfold waiting_handles in *. simpl in *. destruct k as [|k]; simpl in *.
  - injection Hk as ->. apply elem_of_cons in Hh as [-> | Hh]; auto.
  - apply elem_of_cons in Hh as [-> | Hh]; [right; left|].
    destruct (IH k Hk Hh); [by left | right; by right].
Qed.

Lemma closed_with_mono (o : option VideoFrame) (c : gset nat) (h : nat) :
  h ∈ c -> h ∈ closed_with o c.
Proof.
  destruct o; simpl; [|done]. intros H. apply elem_of_union. by right.
Qed.

Lemma step_owned (h : nat) (s s' : State) (ev : Event) :
  step s ev = Some s' ->
  h ∈ closedFrames s \/ h ∈ waiting_handles (waiting s) ->
  h ∈ closedFrames s' \/ h ∈ waiting_handles (waiting s').
Proof.
  intros Hstep Hown. pose proof (step_frame_view _ _ _ Hstep) as Hv.
  assert (Hsame : frame_view s' = frame_view s ->
            h ∈ closedFrames s' \/ h ∈ waiting_handles (waiting s')).
  { unfold frame_view. by intros [= _ -> _ -> _]. }
  assert (Hclear : frame_view s' = frame_view (clearFrame s) ->
            h ∈ closedFrames s' \/ h ∈ waiting_handles (waiting s')).
  { rewrite clearFrame_frame_view. intros (_ & -> & _ & -> & _)%view_inv.
    destruct Hown; [left; by apply closed_with_mono | by right]. }
  destruct ev; try (by apply Hsame).
  - rewrite runPending_frame_view in Hv. destruct (lost s); [by apply Hclear|].
    apply view_inv in Hv as (_ & -> & _ & -> & _). done.
  - rewrite output_pre_frame_view in Hv.
    destruct (late us s); [|destruct (frame s)];
      apply view_inv in Hv as (_ & -> & _ & -> & _).
    + destruct Hown; [left; apply elem_of_union; by right | by right].
    + rewrite waiting_handles_app.
      destruct Hown; [by left | right; apply elem_of_app; by left].
    + rewrite waiting_handles_app.
      destruct Hown; [by left | right; apply elem_of_app; by left].
  - destruct (waiting s !! k) as [i|] eqn:Hk; [|by apply Hsame].
    rewrite output_post_frame_view in Hv.
    set (s1 := set_waiting _ s) in *.
    assert (Hs1 : waiting s1 = delete k (waiting s)
              /\ closedFrames s1 = closedFrames s /\ frame s1 = frame s)
      by (subst s1; by destruct s).
    destruct Hs1 as (Hw1 & Hc1 & Hf1). rewrite Hw1, Hc1, Hf1 in Hv.
    assert (Hown' : h ∈ {[handle (inv_frame i)]} ∪ closedFrames s
              \/ h ∈ waiting_handles (delete k (waiting s))).
    { destruct Hown as [Hc | Hw].
      - left. apply elem_of_union. by right.
      - destruct (waiting_handles_delete_elem _ _ _ _ Hk Hw) as [-> | Hd].
        + left. apply elem_of_union. left. by apply elem_of_singleton.
        + by right. }
    destruct (negb _ || _); apply view_inv in Hv as (_ & -> & _ & -> & _).
    + done.
    + destruct Hown' as [[Hi | Hc]%elem_of_union | Hw]; [| |by right].
      * left. apply elem_of_union. by left.
      * left. apply elem_of_union. right. by apply closed_with_mono.
  - by apply Hclear.
Qed.

Lemma step_closed_mono (h : nat) (s s' : State) (ev : Event) :
  step s ev = Some s' -> h ∈ closedFrames s -> h ∈ closedFrames s'.
Proof.
  intros Hstep Hh. pose proof (step_frame_view _ _ _ Hstep) as Hv.
  assert (Hsame : frame_view s' = frame_view s -> h ∈ closedFrames s').
  { unfold frame_view. by intros [= _ _ _ -> _]. }
  assert (Hclear : frame_view s' = frame_view (clearFrame s) ->
            h ∈ closedFrames s').
  { rewrite clearFrame_frame_view. intros (_ & _ & _ & -> & _)%view_inv.
    by apply closed_with_mono. }
  destruct ev; try (by apply Hsame).
  - rewrite runPending_frame_view in Hv. destruct (lost s); [by apply Hclear|].
    by apply view_inv in Hv as (_ & _ & _ & -> & _).
  - rewrite output_pre_frame_view in Hv.
    destruct (late us s); [|destruct (frame s)];
      apply view_inv in Hv as (_ & _ & _ & -> & _); try done.
    apply elem_of_union. by right.
  - destruct (waiting s !! k) as [i|]; [|by apply Hsame].
    rewrite output_post_frame_view in Hv.
    assert (Hs1 : closedFrames (set_waiting (delete k (waiting s)) s)
                  = closedFrames s) by (by destruct s).
    rewrite Hs1 in Hv.
    destruct (negb _ || _); apply view_inv in Hv as (_ & _ & _ & -> & _).
    + apply elem_of_union. by right.
    + apply elem_of_union. right. by apply closed_with_mono.
  - by apply Hclear.
Qed.

Lemma elem_of_delete_or {A} (l : list A) (k : nat) (x y : A) :
  l !! k = Some y -> x ∈ l -> x = y \/ x ∈ delete k l.
Proof.
  revert k. induction l as [|z l IH]; intros k Hk Hx; [done|].
  destruct k as [|k]; simpl in *.
  - injection Hk as ->. apply elem_of_cons in Hx as [-> | Hx]; auto.
  - apply elem_of_cons in Hx as [-> | Hx]; [right; left|].
    destruct (IH k Hk Hx); [by left | right; by right].
Qed.

Lemma step_waiting (i : Invocation) (s s' : State) (ev : Event) :
  step s ev = Some s' -> i ∈ waiting s ->
  i ∈ waiting s' \/ handle (inv_frame i) ∈ closedFrames s'.
Proof.
  intros Hstep Hi. pose proof (step_frame_view _ _ _ Hstep) as Hv.
  assert (Hsame : frame_view s' = frame_view s -> i ∈ waiting s').
  { unfold frame_view. by intros [= _ -> _ _ _]. }
  assert (Hclear : frame_view s' = frame_view (clearFrame s) -> i ∈ waiting s').
  { rewrite clearFrame_frame_view. by intros (_ & -> & _)%view_inv. }
  destruct ev; try (left; by apply Hsame).
  - left. rewrite runPending_frame_view in Hv.
    destruct (lost s); [by apply Hclear|].
    by apply view_inv in Hv as (_ & -> & _).
  - left. rewrite output_pre_frame_view in Hv.
    destruct (late us s); [|destruct (frame s)];
      apply view_inv in Hv as (_ & -> & _); try done;
      apply elem_of_app; by left.
  - destruct (waiting s !! k) as [j|] eqn:Hk; [|left; by apply Hsame].
    rewrite output_post_frame_view in Hv.
    assert (Hs1 : waiting (set_waiting (delete k (waiting s)) s)
                  = delete k (waiting s)) by (by destruct s).
    rewrite Hs1 in Hv.
    destruct (elem_of_delete_or _ _ _ _ Hk Hi) as [-> | Hd].
    + right. destruct (negb _ || _);
        apply view_inv in Hv as (_ & _ & _ & -> & _);
        apply elem_of_union; left; by apply elem_of_singleton.
    + left. destruct (negb _ || _); by apply view_inv in Hv as (_ & -> & _).
  - left. by apply Hclear.
Qed.

(** The frame the decoder hands to the callback (it gets the identity
    [fresh s]) is never lost: at any later time it has been closed, or its
    callback is still suspended at the wait and holds it. *)
Theorem decoded_frame_is_closed_or_waiting
    (s s1 s2 : State) (e : EffectId) (us : Z) (evs : list Event) :
  step s (Output e us) = Some s1 ->
  run s1 evs = Some s2 ->
  fresh s ∈ closedFrames s2
  \/ exists i, i ∈ waiting s2 /\ inv_frame i = mkFrame (fresh s) us.
Proof.
  intros Hstep Hrun.
  set (P := fun s0 : State =>
              fresh s ∈ closedFrames s0
              \/ exists i, i ∈ waiting s0 /\ inv_frame i = mkFrame (fresh s) us).
  assert (HP1 : P s1).
  { subst P. simpl.
    pose proof (step_frame_view _ _ _ Hstep) as Hv. simpl in Hv.
    rewrite output_pre_frame_view in Hv.
    destruct (late us s); [|destruct (frame s)];
      apply view_inv in Hv as (_ & Hw & _ & Hc & _).
    - left. rewrite Hc. apply elem_of_union. left. by apply elem_of_singleton.
    - right.
      exists (mkInvocation e (default "" (tr_name <$> tracks s !! e))
                (mkFrame (fresh s) us)).
      split; [|reflexivity]. rewrite Hw.
      apply elem_of_app. right. by apply list_elem_of_singleton.
    - right.
      exists (mkInvocation e (default "" (tr_name <$> tracks s !! e))
                (mkFrame (fresh s) us)).
      split; [|reflexivity]. rewrite Hw.
      apply elem_of_app. right. by apply list_elem_of_singleton. }
  apply (run_ind P) with (evs := evs) (s := s1); [|done|done].
  intros s0 ev s' [Hc | (i & Hi & Hfi)] Hst.
  - left. by eapply step_closed_mono.
  - destruct (step_waiting i _ _ _ Hst Hi) as [Hw | Hcl].
    + right. by exists i.
    + left. by rewrite Hfi in Hcl.
Qed.

(** ** Pipelines *)

(** In every reachable state an open pipeline (a track subscription with
    its decoder) is the one held in [#pending] or the one held in
    [#active]: at most two are open, and none is left running without a
    reference through which it can be closed. *)
Theorem open_pipeline_is_pending_or_active (s : State) (e : EffectId) :
  reachable s ->
  is_open e s = true ->
  pendingEffect s = Some e \/ activeEffect s = Some e.
Proof. intros (_ & H2 & _)%reachable_pipelines_ok. apply H2. Qed.

Lemma open_in_cleaned_tracks (s : State) (e : EffectId) :
  open_in e (cleaned s) = true -> open_in e (tracks s) = true.
Proof.
  unfold cleaned. destruct (pendingCleanup s); [|done].
  by intros []%open_in_close_in_opt.
Qed.

Lemma step_open_mono (s s' : State) (ev : Event) :
  step s ev = Some s' ->
  (fresh s <= fresh s')%nat
  /\ (forall e, (e < fresh s)%nat -> is_open e s' = true -> is_open e s = true)
  /\ (signalsOpen s = false ->
      (forall e, is_Some (tracks s' !! e) -> is_Some (tracks s !! e))
      /\ (forall e, is_open e s' = true -> is_open e s = true)).
Proof.
  intros Hstep. pose proof (step_pipe_view _ _ _ Hstep) as Hv.
  assert (Hsame : pipe_view s' = pipe_view s ->
            (fresh s <= fresh s')%nat
            /\ (forall e, (e < fresh s)%nat -> is_open e s' = true ->
                  is_open e s = true)
            /\ (signalsOpen s = false ->
                (forall e, is_Some (tracks s' !! e) -> is_Some (tracks s !! e))
                /\ (forall e, is_open e s' = true -> is_open e s = true))).
  { unfold pipe_view, is_open. intros [= -> _ _ _ ->]. done. }
  destruct ev; try (by apply Hsame).
  - rewrite runPending_pipe_view in Hv. simpl in Hstep.
    destruct (signalsOpen s) eqn:Hso; [|done].
    destruct (lost s); apply pipe_inv in Hv as (Ht & _ & _ & _ & Hn);
      unfold is_open; rewrite Ht, Hn.
    + split_and!; [done | | done]. intros e _ [Ho _]%open_in_close_in_opt.
      by apply open_in_cleaned_tracks.
    + split_and!; [lia | | done]. intros e He. unfold open_in.
      rewrite lookup_insert_ne by lia. apply open_in_cleaned_tracks.
  - destruct Hv as (n & Hn & Hv). apply pipe_inv in Hv as (Ht & _ & _ & _ & Hf).
    unfold is_open. by rewrite Ht, Hf.
  - destruct Hv as (i & Hk & Hv). rewrite output_post_pipe_view in Hv.
    set (s1 := set_waiting _ s) in *.
    assert (Hs1 : pipe_view s1 = pipe_view s) by (subst s1; by destruct s).
    apply pipe_inv in Hs1 as (Ht1 & Hp1 & Ha1 & Hc1 & Hn1).
    destruct (negb _ || _).
    + apply Hsame. rewrite Hv. unfold pipe_view.
      by rewrite Ht1, Hp1, Ha1, Hc1, Hn1.
    + destruct (decide _) as [Hdec|Hdec];
        apply pipe_inv in Hv as (Ht & _ & _ & _ & Hn);
        unfold is_open; rewrite Ht, Hn, ?Ht1, ?Hn1.
      * assert (Ho : forall e m,
                  open_in e (alter promoted (inv_effect i)
                               (close_in_opt (activeEffect s1) m)) = true ->
                  open_in e m = true).
        { intros e m. rewrite open_in_promoted.
          by intros [? _]%open_in_close_in_opt. }
        split_and!; [lia | |].
        -- intros e _. apply Ho.
        -- intros _. split.
           ++ intros e He. apply (close_in_opt_key (activeEffect s1)).
              by apply (lookup_alter_is_Some promoted _ (inv_effect i)).
           ++ intros e. apply Ho.
      * split_and!; [lia | done | done].
  - apply pipe_inv in Hv as (Ht & _ & _ & _ & Hn).
    assert (Ho : forall e0, open_in e0 (close_in e (tracks s)) = true ->
              open_in e0 (tracks s) = true).
    { intros e0. rewrite open_in_close_in.
      by destruct (decide _) as [Hdec|Hdec]. }
    unfold is_open. rewrite Ht, Hn. split_and!; [done | |].
    + intros e0 _. apply Ho.
    + intros _. split; [|exact Ho]. intros e0. apply close_in_key.
  - apply pipe_inv in Hv as (Ht & _ & _ & _ & Hn).
    unfold is_open. rewrite Ht, Hn. split_and!; [done | |].
    + intros e _. apply open_in_cleaned_tracks.
    + intros _. split.
      * intros e. apply cleaned_key.
      * intros e. apply open_in_cleaned_tracks.
Qed.

(** A pipeline that has been closed is never reopened, whatever happens
    next: selecting its rendition again opens a new subscription and a new
    decoder under a new effect. *)
Theorem closed_pipeline_stays_closed
    (s s' : State) (e : EffectId) (t : Track) (evs : list Event) :
  reachable s ->
  tracks s !! e = Some t ->
  tr_open t = false ->
  run s evs = Some s' ->
  is_open e s' = false.
Proof.
  intros (H1 & _)%reachable_pipelines_ok Ht Hopen Hrun.
  set (P := fun s0 : State => (e < fresh s0)%nat /\ is_open e s0 = false).
  assert (HP : P s).
  { split; [by eapply H1|]. unfold is_open. by rewrite Ht. }
  assert (HP' : P s'); [|by destruct HP'].
  apply (run_ind P) with (evs := evs) (s := s); [|done|done].
  intros s0 ev s1 [Hlt Hcl] Hstep.
  destruct (step_open_mono _ _ _ Hstep) as (Hf & Hm & _). split; [lia|].
  destruct (is_open e s1) eqn:Ho; [|done].
  specialize (Hm e Hlt Ho). congruence.
Qed.

(** ** After [close()] *)

(** What [close()] clears stays cleared. *)
Lemma closed_selection_cleared (s : State) :
  reachable s -> signalsOpen s = false ->
  selected s = None /\ config s = None /\ selectedConfig s = None.
Proof.
  apply (reachable_ind (fun s => signalsOpen s = false ->
           selected s = None /\ config s = None /\ selectedConfig s = None)).
  - done.
  - intros s0 ev s1 _ IH Hstep Hso1.
    pose proof (step_inputs_view _ _ _ Hstep) as Hi.
    destruct ev; simpl in Hstep;
      try (unfold inputs_view in Hi; injection Hi as _ Hsel Hcfg Hsc Hso;
           rewrite Hsel, Hcfg, Hsc; apply IH; congruence).
    + destruct (signalsOpen s0) eqn:Hso0; [|done]. injection Hstep as <-.
      exfalso. revert Hso1.
      destruct (runSelected_shape s0) as (? & ? & ? & ? & ->).
      destruct s0; simpl in *. congruence.
    + unfold inputs_view in Hi.
      injection Hi as _ Hsel Hcfg Hsc Hso. rewrite Hsel, Hcfg, Hsc.
      destruct s0; simpl in *. apply IH. congruence.
    + unfold inputs_view in Hi. by injection Hi as _ -> -> -> _.
Qed.

(** Once [#signals] is closed it stays closed: no effect of the source
    runs again.  The selection signals, cleared by the cleanups that
    [close()] runs, stay undefined; the buffer status keeps its value; no
    new track is subscribed and no pipeline is opened. *)
Theorem closed_source_is_inert (s s' : State) (evs : list Event) :
  reachable s ->
  signalsOpen s = false ->
  run s evs = Some s' ->
  signalsOpen s' = false
  /\ selected s' = None
  /\ config s' = None
  /\ selectedConfig s' = None
  /\ bufferStatus s' = bufferStatus s
  /\ (forall e, is_Some (tracks s' !! e) -> is_Some (tracks s !! e))
  /\ (forall e, is_open e s' = true -> is_open e s = true).
Proof.
  intros Hreach Hclosed Hrun.
  set (P := fun s0 : State =>
              reachable s0
              /\ signalsOpen s0 = false
              /\ bufferStatus s0 = bufferStatus s
              /\ (forall e, is_Some (tracks s0 !! e) -> is_Some (tracks s !! e))
              /\ (forall e, is_open e s0 = true -> is_open e s = true)).
  assert (HP : P s') .
  { apply (run_ind P) with (evs := evs) (s := s); [|by subst P|done].
    intros s0 ev s1 (Hr & Hso & Hbs & Hkeys & Hopen) Hstep.
    pose proof (step_inputs_view _ _ _ Hstep) as Hi.
    destruct (step_open_mono _ _ _ Hstep) as (_ & _ & Hk).
    destruct (Hk Hso) as [Hk1 Hk2].
    assert (Hso1 : signalsOpen s1 = false).
    { destruct ev; simpl in Hstep; rewrite ?Hso in Hstep; try done;
        unfold inputs_view in Hi; injection Hi as _ _ _ _ ->;
        try done; by destruct s0. }
    assert (Hb : bufferStatus s1 = bufferStatus s0).
    { destruct (step_buffer _ _ _ _ Hstep) as [[-> _] | [Hb _]]; [|done].
      simpl in Hstep. by rewrite Hso in Hstep. }
    subst P. simpl. split_and!; try congruence.
    - by eapply reachable_step.
    - intros e He. by apply Hkeys, Hk1.
    - intros e He. by apply Hopen, Hk2. }
  destruct HP as (Hr' & Hso' & Hbs' & Hkeys' & Hopen').
  destruct (closed_selection_cleared s' Hr' Hso') as (? & ? & ?).
  by split_and!.
Qed.

(** After [close()] on a source whose active pipeline, if any, is no
    longer open (in particular a source that never showed a frame), no
    frame is published any more and [frame] stays undefined, whatever
    happens next: callbacks still suspended lose their race, and no decoder
    is left to deliver frames. *)
Theorem nothing_published_after_close (s s' : State) (evs : list Event) :
  reachable s ->
  (forall a, activeEffect s = Some a -> is_open a s = false) ->
  run (close s) evs = Some s' ->
  published (frameLog s') = published (frameLog (close s))
  /\ frame s' = None
  /\ (forall e, is_open e s' = false).
Proof.
  intros Hreach Hact Hrun.
  pose proof (reachable_pipelines_ok s Hreach) as Hok.
  set (P := fun s0 : State =>
              signalsOpen s0 = false
              /\ (forall e, is_open e s0 = false)
              /\ frame s0 = None
              /\ published (frameLog s0) = published (frameLog (close s))).
  assert (HP : P (close s)).
  { subst P. simpl. split_and!; [| | |done].
    - pose proof (close_inputs_view s) as H. unfold inputs_view in H.
      by injection H.
    - intros e. destruct (is_open e (close s)) eqn:Ho; [|done].
      pose proof (close_pipe_view s) as Hv.
      apply pipe_inv in Hv as (Ht & _). unfold is_open in Ho.
      rewrite Ht in Ho. destruct (open_in_cleaned s e Hok Ho) as [Ho' Hnp].
      destruct Hok as (_ & H2 & _). destruct (H2 e Ho') as [Hp | Ha];
        [done|]. specialize (Hact e Ha). unfold is_open in Hact.
      unfold open_in in Ho'. congruence.
    - pose proof (close_frame_view s) as Hv.
      rewrite clearFrame_frame_view in Hv. by apply view_inv in Hv as (-> & _). }
  assert (HP' : P s'); [|by destruct HP' as (_ & ? & ? & ?)].
  apply (run_ind P) with (evs := evs) (s := close s); [|done|done].
  clear. intros s0 ev s1 (Hso & Hcl & Hfr & Hpub) Hstep.
  pose proof (step_inputs_view _ _ _ Hstep) as Hi.
  destruct (step_open_mono _ _ _ Hstep) as (_ & _ & Hk).
  destruct (Hk Hso) as [_ Hk2].
  pose proof (step_frame_view _ _ _ Hstep) as Hv.
  assert (Hclear : frame_view (clearFrame s0)
                   = (None, waiting s0, fresh s0, closedFrames s0,
                      frameLog s0 ++ [Cleared])).
  { rewrite clearFrame_frame_view. by rewrite Hfr. }
  assert (Hpc : published (frameLog s0 ++ [Cleared]) = published (frameLog s0)).
  { unfold published. by rewrite omap_app, app_nil_r. }
  subst P. simpl. split_and!.
  - destruct ev; simpl in Hstep; rewrite ?Hso in Hstep; try done;
      unfold inputs_view in Hi; injection Hi as _ _ _ _ ->;
      try done; by destruct s0.
  - intros e. destruct (is_open e s1) eqn:Ho; [|done].
    specialize (Hk2 e Ho). by rewrite Hcl in Hk2.
  - destruct ev; simpl in Hstep; rewrite ?Hso, ?Hcl in Hstep; try done;
      try (unfold frame_view in Hv; injection Hv as -> _ _ _ _; done).
    + destruct (tracks s0 !! e) as [t|] eqn:Ht; [|done].
      specialize (Hcl e). unfold is_open in Hcl. rewrite Ht in Hcl.
      by rewrite Hcl in Hstep.
    + destruct (waiting s0 !! k) as [i|]; [|done].
      rewrite output_post_frame_view in Hv. rewrite Hcl in Hv. simpl in Hv.
      apply view_inv in Hv as (-> & _). by destruct s0.
    + rewrite Hclear in Hv. by apply view_inv in Hv as (-> & _).
  - rewrite <- Hpub.
    destruct ev; simpl in Hstep; rewrite ?Hso, ?Hcl in Hstep; try done;
      try (unfold frame_view in Hv; injection Hv as _ _ _ _ ->; done).
    + destruct (tracks s0 !! e) as [t|] eqn:Ht; [|done].
      specialize (Hcl e). unfold is_open in Hcl. rewrite Ht in Hcl.
      by rewrite Hcl in Hstep.
    + destruct (waiting s0 !! k) as [i|]; [|done].
      rewrite output_post_frame_view in Hv. rewrite Hcl in Hv. simpl in Hv.
      apply view_inv in Hv as (_ & _ & _ & _ & ->). by destruct s0.
    + rewrite Hclear in Hv. apply view_inv in Hv as (_ & _ & _ & _ & ->).
      exact Hpc.
Qed.

(** ** Timestamps *)

Lemma not_late_nonneg (s : State) (us : Z) :
  (forall t, timestamp_ s = Some t -> (0 <= t)%Q) ->
  late us s = false -> (0 <= fromMicro us)%Q.
Proof.
  intros Hts Hl. apply Qltb_false in Hl.
  destruct (timestamp_ s) as [t|]; simpl in Hl; [|done].
  eapply Qle_trans; [|exact Hl]. by apply Hts.
Qed.

(** In every reachable state the last emitted timestamp is not negative
    and no frame with a negative timestamp has been written to [frame]; a
    decoded frame with a negative timestamp is late in every reachable
    state, so it is dropped before the wait. *)
Theorem no_negative_timestamp (s : State) :
  reachable s ->
  (forall t, timestamp_ s = Some t -> (0 <= t)%Q)
  /\ Forall (fun us => (0 <= fromMicro us)%Q) (published (frameLog s))
  /\ (forall us, (fromMicro us < 0)%Q -> late us s = true).
Proof.
  intros Hreach.
  assert (Hnn : nonneg fromMicro s).
  { revert s Hreach. apply reachable_ind.
    - intros b en. split; [done | constructor].
    - intros s ev s' _ [Hts Hpub] Hstep. split.
      + intros t Ht. destruct (step_timestamp _ _ _ _ Hstep Ht)
          as [Hold | (us & Hl & ->)]; [by apply Hts|].
        by eapply not_late_nonneg.
      + destruct (step_published _ _ _ Hstep) as (d & -> & Hd).
        apply Forall_app. split; [done|].
        eapply Forall_impl; [exact Hd|]. intros us Hl. simpl in Hl.
        by eapply not_late_nonneg. }
  destruct Hnn as [Hts Hpub]. split_and!; [done | done |].
  intros us Hneg. unfold Source.late. apply Qltb_true.
  eapply Qlt_le_trans; [exact Hneg|].
  destruct (timestamp_ s) as [t|]; simpl; [by apply Hts | done].
Qed.

(** When [#runPending] tears down an open active pipeline, the last
    emitted timestamp is forgotten, so after the source is disabled and
    enabled again no frame with a timestamp of zero or more is late,
    however far back the stream restarts. *)
Theorem teardown_resets_timestamp (s : State) (a : EffectId) :
  reachable s ->
  lost s = true ->
  activeEffect s = Some a ->
  is_open a s = true ->
  timestamp_ (runPending s) = None
  /\ (forall us, (0 <= fromMicro us)%Q -> late us (runPending s) = false).
Proof.
  intros Hreach Hlost Ha Ho.
  assert (Hts : timestamp_ (runPending s) = None).
  { destruct (proj1 (reachable_ids_ok fromMicro s Hreach) a Ha) as [_ Hnp].
    unfold runPending.
    destruct (pending_cleanup_shape s) as (m & t & ac & -> & Hm).
    rewrite lost_cleanup, Hlost.
    set (s2 := set_pendingCleanup false _).
    assert (Ha2 : activeEffect s2 = Some a) by (subst s2; by destruct s).
    assert (Ho2 : is_open a s2 = true).
    { subst s2. unfold is_open in *. destruct s; simpl in *.
      by rewrite (Hm a Hnp). }
    clearbody s2. unfold teardown. rewrite Ha2.
    pose proof (closeEffect_opt_timestamp (Some a) s2) as Hc.
    lazy iota beta in Hc.
    rewrite Ho2, Ha2, bool_decide_eq_true_2 in Hc by done. simpl in Hc.
    change (closeEffect_opt (Some a) s2) with (closeEffect a s2) in *.
    revert Hc. generalize (closeEffect a s2). intros s3 Hc.
    unfold clearFrame, closePrev, write_frame.
    destruct s3 as [? ? ? ? ? ? ? ? fr]; by destruct fr. }
  split; [exact Hts|]. intros us Hus. unfold Source.late. rewrite Hts. simpl.
  unfold Qltb. destruct (fromMicro us ?= 0)%Q eqn:Hc; try done.
  apply Qlt_alt in Hc. by apply Qlt_not_le in Hc.
Qed.

(** ** Selection and stats *)

Lemma obj_has_get {V} (o : Obj V) (k : string) :
  obj_has o k = true -> exists v, obj_get o k = Some v.
Proof. unfold obj_has. destruct (obj_get o k); [eauto | done]. Qed.

Lemma runSelected_selection_ok (s : State) : selection_ok (runSelected s).
Proof.
  unfold runSelected, clearSelected, selection_ok.
  destruct (negb (enabled s)); [by destruct s|].
  destruct (choose s) as [n|] eqn:Hch; [|by destruct s]. simpl.
  destruct (truthy_str n) eqn:Htr; [|by destruct s]. simpl.
  assert (Hlk : (exists c, lookup (supported s) n = Some (Config c))
                \/ (inherited n = true
                    /\ lookup (supported s) n = Some (Inherited n))).
  { unfold lookup. destruct (obj_get (supported s) n) as [c|] eqn:Hget;
      [by left; exists c|]. right.
    destruct (choose_key s n Hch) as [Hhas | [_ Hin]].
    - unfold obj_has in Hhas. by rewrite Hget in Hhas.
    - by rewrite Hin. }
  destruct Hlk as [[c Hc] | [Hin Hc]]; rewrite Hc; destruct s; simpl;
    (split; [done|]).
  - left. by exists c.
  - by right.
Qed.


(** The selection lasts as long as [#runSelected] finds something to
    select.  A run on a disabled source, or with no supported rendition
    and a manual choice that names nothing [#supported] inherits, leaves
    the three selection signals undefined; if a rendition was selected
    [#runPending] is scheduled, and it will find a precondition
    missing. *)
Theorem selection_cleared_when_nothing_chosen (s : State) :
  enabled s = false
  \/ (supported s = []
      /\ forall m, target s ≫= rendition = Some m -> inherited m = false) ->
  let s' := runSelected s in
  selected s' = None
  /\ config s' = None
  /\ selectedConfig s' = None
  /\ (is_Some (selected s) -> pendingDirty s' = true)
  /\ lost s' = true.
Proof.
  intros H.
  assert (Hs : runSelected s
               = set_pendingDirty
                   (pendingDirty s
                    || (changed (selected s) None
                        || changed (selectedConfig s) None))
                   (clearSelected s)).
  { unfold runSelected.
    destruct H as [-> | [Hsup Hman]]; [destruct s; reflexivity|].
    destruct (negb (enabled s)); [destruct s; reflexivity|].
    assert (Hch : choose s = None).
    { unfold choose. rewrite Hsup.
      destruct (target s ≫= rendition) as [m|] eqn:Hm; simpl; [|done].
      unfold obj_in, obj_has. simpl. rewrite (Hman m eq_refl).
      by rewrite andb_false_r. }
    rewrite Hch. destruct s; reflexivity. }
  simpl. rewrite Hs. unfold lost, clearSelected.
  destruct s; simpl. split_and!; try done.
  - intros [n ->]. by rewrite orb_true_r.
  - by rewrite orb_true_r.
Qed.

(** The stats count what was read from the tracks: over any run, the
    frame count grows by the number of samples read, the byte count by the
    sum of their lengths, and the timestamp is that of the last sample
    read (the stats are unchanged when none was). *)
Theorem stats_count_samples (s s' : State) (evs : list Event) :
  run s evs = Some s' ->
  stat_frames s' = stat_frames s + Z.of_nat (length (samples evs))
  /\ stat_bytes s' = stat_bytes s + foldr Z.add 0 (snd <$> samples evs)
  /\ match last (samples evs) with
     | Some p => timestamp <$> stats s' = Some p.1
     | None => stats s' = stats s
     end.
Proof.
  revert s. induction evs as [|ev evs IH]; intros s Hrun; simpl in Hrun.
  - injection Hrun as <-. simpl. split_and!; [lia | lia | done].
  - destruct (step s ev) as [s1|] eqn:Hstep; [|done].
    destruct (IH s1 Hrun) as (Hf & Hb & Hl).
    pose proof (step_inputs_view _ _ _ Hstep) as Hi.
    assert (Hcase : (exists e us n, ev = Receive e us n
                       /\ stats s1 = stats (receive us n s))
              \/ (samples (ev :: evs) = samples evs /\ stats s1 = stats s)).
    { destruct ev; unfold inputs_view in Hi; injection Hi as -> _ _ _ _;
        try (right; split; [reflexivity | done]).
      - right. split; [reflexivity|].
        destruct (runSelected_shape s) as (? & ? & ? & ? & ->). by destruct s.
      - left. by eexists _, _, _. }
    destruct Hcase as [(e & us & n & -> & Hst) | [Hsame Hst]].
    + change (samples (Receive e us n :: evs)) with ((us, n) :: samples evs).
      rewrite fmap_cons. cbn [length foldr snd].
      unfold stat_frames, stat_bytes in *. rewrite Hst in Hf, Hb.
      assert (Hr : stats (receive us n s)
                   = Some (mkStats (default 0 (frameCount <$> stats s) + 1) us
                             (default 0 (bytesReceived <$> stats s) + n)))
        by (by destruct s).
      rewrite Hr in Hf, Hb. simpl in Hf, Hb. split_and!; [lia | lia |].
      rewrite last_cons. destruct (last (samples evs)); [done|].
      by rewrite Hl, Hst, Hr.
    + rewrite Hsame. unfold stat_frames, stat_bytes in *.
      rewrite Hst in Hf, Hb, Hl. done.
Qed.

(** ** Decoder errors *)

(** The decoder's error callback closes the effect of its pipeline and
    does nothing else.  The pipeline is closed; the last emitted timestamp
    is forgotten exactly when the failed pipeline was the active one; and
    [active] is set back to undefined exactly when the pipeline had been
    promoted.  No other field of the source changes: the pipeline stays
    referenced by [#pending] or [#active], the frame stays published,
    [#runPending] is not scheduled (so nothing resubscribes), and the other
    pipelines are not touched. *)
Theorem decoder_error_stops_pipeline (s s' : State) (e : EffectId) :
  step s (DecoderError e) = Some s' ->
  exists t,
    tracks s !! e = Some t
    /\ tr_open t = true
    /\ tracks s' = <[e := closed t]> (tracks s)
    /\ is_open e s' = false
    /\ timestamp_ s'
       = (if bool_decide (activeEffect s = Some e) then None
          else timestamp_ s)
    /\ active s' = (if tr_active t then None else active s)
    /\ s' = set_timestamp (timestamp_ s')
              (set_active (active s') (set_tracks (tracks s') s))
    /\ pendingEffect s' = pendingEffect s
    /\ activeEffect s' = activeEffect s
    /\ frame s' = frame s
    /\ pendingDirty s' = pendingDirty s.
Proof.
  simpl. unfold is_open, closeEffect.
  destruct (tracks s !! e) as [t|] eqn:Ht; [|discriminate].
  destruct (tr_open t) eqn:Ho; [|discriminate].
  intros [= <-]. exists t. split; [done|]. split; [done|].
  destruct (decide (activeEffect s = Some e)) as [Ha|Ha];
    [rewrite bool_decide_eq_true_2 by done
    |rewrite bool_decide_eq_false_2 by done];
    destruct (tr_active t); destruct s; simpl in *;
    rewrite lookup_insert_eq; by split_and!.
Qed.

(** ** Switching renditions *)

Lemma name_in_close_in (e e' : EffectId) (m : gmap EffectId Track) :
  name_in e' (close_in e m) = name_in e' m.
Proof.
  unfold name_in, close_in. destruct (m !! e) as [t|] eqn:Hl; [|done].
  destruct (tr_open t); [|done]. destruct (decide (e' = e)) as [->|Hne].
  - by rewrite lookup_insert_eq, Hl.
  - by rewrite lookup_insert_ne.
Qed.

Lemma name_in_close_in_opt (o : option EffectId) (e' : EffectId)
    (m : gmap EffectId Track) :
  name_in e' (close_in_opt o m) = name_in e' m.
Proof. destruct o; [apply name_in_close_in | done]. Qed.

Lemma name_in_cleaned (s : State) (e : EffectId) :
  name_in e (cleaned s) = name_in e (tracks s).
Proof.
  unfold cleaned. destruct (pendingCleanup s); [|done].
  apply name_in_close_in_opt.
Qed.

Lemma name_in_promoted (e e' : EffectId) (m : gmap EffectId Track) :
  name_in e' (alter promoted e m) = name_in e' m.
Proof.
  unfold name_in. destruct (decide (e = e')) as [->|Hne].
  - rewrite lookup_alter_eq. by destruct (m !! e').
  - by rewrite lookup_alter_ne.
Qed.

(** No event renames a track. *)
Lemma step_name_in (s s' : State) (ev : Event) (e : EffectId) :
  pipelines_ok s -> step s ev = Some s' -> is_Some (tracks s !! e) ->
  name_in e (tracks s') = name_in e (tracks s).
Proof.
  intros (H1 & _) Hstep [t Ht]. pose proof (step_pipe_view _ _ _ Hstep) as Hv.
  assert (Hsame : pipe_view s' = pipe_view s ->
            name_in e (tracks s') = name_in e (tracks s)).
  { unfold pipe_view. by intros [= -> _ _ _ _]. }
  destruct ev; try (by apply Hsame).
  - rewrite runPending_pipe_view in Hv.
    destruct (lost s); apply pipe_inv in Hv as (-> & _).
    + by rewrite name_in_close_in_opt, name_in_cleaned.
    + specialize (H1 _ _ Ht). unfold name_in at 1.
      rewrite lookup_insert_ne by lia. apply name_in_cleaned.
  - destruct Hv as (n & _ & Hv). by apply pipe_inv in Hv as (-> & _).
  - destruct Hv as (i & Hk & Hv). rewrite output_post_pipe_view in Hv.
    set (s1 := set_waiting _ s) in *.
    assert (Hs1 : pipe_view s1 = pipe_view s) by (subst s1; by destruct s).
    apply pipe_inv in Hs1 as (Ht1 & Hp1 & Ha1 & Hc1 & Hn1).
    destruct (negb _ || _).
    + apply Hsame. rewrite Hv. unfold pipe_view.
      by rewrite Ht1, Hp1, Ha1, Hc1, Hn1.
    + destruct (decide _) as [Hdec|Hdec];
        apply pipe_inv in Hv as (-> & _); rewrite Ht1; [|done].
      by rewrite name_in_promoted, name_in_close_in_opt.
  - apply pipe_inv in Hv as (-> & _). apply name_in_close_in.
  - apply pipe_inv in Hv as (-> & _). apply name_in_cleaned.
Qed.

(** A callback is suspended only by [Output], with the name of its
    track. *)
Lemma step_waiting_from (i : Invocation) (s s' : State) (ev : Event) :
  step s ev = Some s' -> i ∈ waiting s' ->
  i ∈ waiting s
  \/ exists e us t,
       ev = Output e us /\ tracks s !! e = Some t
       /\ i = mkInvocation e (tr_name t) (mkFrame (fresh s) us).
Proof.
  intros Hstep Hi. pose proof (step_frame_view _ _ _ Hstep) as Hv.
  assert (Hsame : frame_view s' = frame_view s -> i ∈ waiting s).
  { unfold frame_view. intros [= _ Hw _ _ _]. by rewrite <- Hw. }
  assert (Hclear : frame_view s' = frame_view (clearFrame s) -> i ∈ waiting s).
  { rewrite clearFrame_frame_view. intros (_ & Hw & _)%view_inv.
    by rewrite <- Hw. }
  destruct ev; try (left; by apply Hsame).
  - left. rewrite runPending_frame_view in Hv.
    destruct (lost s); [by apply Hclear|].
    apply view_inv in Hv as (_ & Hw & _). by rewrite <- Hw.
  - simpl in Hstep. destruct (tracks s !! e) as [t|] eqn:Ht; [|done].
    simpl in Hv. rewrite output_pre_frame_view in Hv.
    destruct (late us s); [|destruct (frame s)];
      apply view_inv in Hv as (_ & Hw & _); rewrite Hw in Hi; auto;
      apply elem_of_app in Hi as [Hi | Hi]; auto;
      apply list_elem_of_singleton in Hi; right; by exists e, us, t.
  - left. destruct (waiting s !! k) as [j|] eqn:Hk; [|by apply Hsame].
    rewrite output_post_frame_view in Hv.
    assert (Hs1 : waiting (set_waiting (delete k (waiting s)) s)
                  = delete k (waiting s)) by (by destruct s).
    rewrite Hs1 in Hv.
    destruct (negb _ || _); apply view_inv in Hv as (_ & Hw & _);
      rewrite Hw in Hi; by eapply list_elem_of_delete_inv.
  - left. by apply Hclear.
Qed.

Lemma step_names_ok (s s' : State) (ev : Event) :
  pipelines_ok s -> names_ok s -> step s ev = Some s' -> names_ok s'.
Proof.
  intros Hok Hn Hstep i Hi.
  destruct (step_waiting_from i _ _ _ Hstep Hi)
    as [Hold | (e & us & t & -> & Ht & ->)].
  - rewrite (step_name_in s s' ev); [by apply Hn | done | done |].
    specialize (Hn i Hold). unfold name_in in Hn.
    destruct (tracks s !! inv_effect i); [eauto | done].
  - pose proof (step_pipe_view _ _ _ Hstep) as (n & _ & Hv).
    apply pipe_inv in Hv as (-> & _). unfold name_in. simpl. by rewrite Ht.
Qed.

Lemma reachable_names_ok (s : State) : reachable s -> names_ok s.
Proof.
  apply reachable_ind.
  - intros b en i Hi. inversion Hi.
  - intros s0 ev s1 Hr Hn Hstep.
    eapply step_names_ok; [|exact Hn|exact Hstep].
    by apply reachable_pipelines_ok.
Qed.

(** What a run of [#runSelected] that selects another rendition leaves. *)
Lemma runSelected_switch (s : State) (n' : string) (c : VideoConfig) :
  selected (runSelected s) = Some n' ->
  selected s <> Some n' ->
  obj_get (supported s) n' = Some c ->
  runSelected s
  = set_pendingDirty true
      (set_selectedConfig (Some (Req (required c)))
         (set_config (Some (Config c)) (set_selected (Some n') s))).
Proof.
  intros Hsel Hne Hget.
  assert (Hen : enabled s = true).
  { destruct (enabled s) eqn:He; [done|]. exfalso. revert Hsel.
    unfold runSelected. rewrite He. simpl. by destruct s. }
  assert (Hch : choose s = Some n' /\ truthy_str n' = true).
  { revert Hsel. unfold runSelected, clearSelected. rewrite Hen. simpl.
    destruct (choose s) as [m|]; simpl; [|by destruct s].
    destruct (truthy_str m) eqn:Htr; simpl; [|by destruct s].
    destruct s; simpl. by intros [= ->]. }
  destruct Hch as [Hch Htr].
  assert (Hlk : lookup (supported s) n' = Some (Config c)).
  { unfold lookup. by rewrite Hget. }
  assert (Hchg : changed (selected s) (Some n') = true).
  { unfold changed. by apply bool_decide_eq_true_2. }
  unfold runSelected, clearSelected. rewrite Hen, Hch. simpl.
  rewrite Htr. simpl. rewrite Hlk.
  destruct s; simpl in *. rewrite Hchg. simpl. by rewrite orb_true_r.
Qed.

(** C3.  In every reachable state:

    - a run of [#runSelected] that selects another rendition of
      [#supported] schedules [#runPending], and on a source with a
      broadcast that run opens a pending pipeline subscribed to the new
      track, leaving the active pipeline open and referenced and the
      published frame as it is;

    - while a pipeline is pending, reading samples, decoding frames and
      the part of a callback before its wait never promote it, and the
      active pipeline keeps publishing: a callback of another pipeline
      that resumes, wins its race and is not late publishes its frame and
      changes no pipeline;

    - a callback of the pending pipeline that resumes, wins its race and is
      not late publishes its frame, closes the pipeline that was active,
      makes the pending one active and sets [active] to the name of its
      track; one that loses the race or is late publishes nothing and
      changes no pipeline.  The promotion is therefore made by the first
      frame of the pending pipeline that is published. *)
Theorem pending_promoted_by_first_frame (s : State) :
  reachable s ->
  (forall s1 n' c b,
     step s RunSelected = Some s1 ->
     selected s1 = Some n' ->
     selected s <> Some n' ->
     obj_get (supported s) n' = Some c ->
     broadcast s = Some b ->
     pendingDirty s1 = true
     /\ exists s2,
          step s1 RunPending = Some s2
          /\ pendingEffect s2 = Some (fresh s)
          /\ tracks s2 !! fresh s
             = Some (mkTrack b n' (Req (required c)) true false)
          /\ activeEffect s2 = activeEffect s
          /\ (forall a, activeEffect s = Some a -> is_open a s = true ->
                is_open a s2 = true)
          /\ frame s2 = frame s
          /\ frameLog s2 = frameLog s)
  /\ (forall p t ev s',
        pendingEffect s = Some p ->
        tracks s !! p = Some t ->
        step s ev = Some s' ->
        match ev with
        | Receive _ _ _ | Output _ _ =>
            pendingEffect s' = Some p
            /\ activeEffect s' = activeEffect s
            /\ active s' = active s
            /\ tracks s' = tracks s
        | Resume k =>
            exists i,
              waiting s !! k = Some i
              /\ if is_open (inv_effect i) s
                    && negb (late (vf_timestamp (inv_frame i)) s)
                 then
                   (exists c, vf_timestamp c = vf_timestamp (inv_frame i)
                      /\ frame s' = Some c
                      /\ frameLog s' = frameLog s ++ [Emitted c])
                   /\ if decide (inv_effect i = p)
                      then activeEffect s' = Some p
                           /\ pendingEffect s' = None
                           /\ active s' = Some (tr_name t)
                           /\ is_open p s' = true
                           /\ (forall a, activeEffect s = Some a ->
                                 is_open a s' = false)
                      else pendingEffect s' = Some p
                           /\ activeEffect s' = activeEffect s
                           /\ active s' = active s
                           /\ tracks s' = tracks s
                 else pendingEffect s' = Some p
                      /\ activeEffect s' = activeEffect s
                      /\ active s' = active s
                      /\ tracks s' = tracks s
                      /\ frameLog s' = frameLog s
                      /\ frame s' = frame s
        | _ => True
        end).
Proof.
  intros Hreach. split.
  - intros s1 n' c b Hstep Hsel Hne Hget Hb.
    pose proof (reachable_step _ _ _ Hreach Hstep) as Hr1.
    simpl in Hstep. destruct (signalsOpen s) eqn:Hso; [|done].
    injection Hstep as <-.
    pose proof (runSelected_switch s n' c Hsel Hne Hget) as Hs1.
    assert (Hen : enabled s = true).
    { destruct (enabled s) eqn:He; [done|]. exfalso. revert Hsel.
      unfold runSelected. rewrite He. simpl. by destruct s. }
    assert (Htr : truthy_str n' = true).
    { pose proof (runSelected_selection_ok s) as Hok.
      unfold selection_ok in Hok. rewrite Hsel in Hok. by destruct Hok. }
    assert (Hf : forall s1,
              s1 = set_pendingDirty true
                     (set_selectedConfig (Some (Req (required c)))
                        (set_config (Some (Config c))
                           (set_selected (Some n') s))) ->
              signalsOpen s1 = true /\ pendingDirty s1 = true
              /\ lost s1 = false /\ runPending_throws s1 = false
              /\ broadcast s1 = Some b
              /\ selectedConfig s1 = Some (Req (required c))
              /\ activeEffect s1 = activeEffect s
              /\ frame s1 = frame s /\ frameLog s1 = frameLog s
              /\ fresh s1 = fresh s /\ tracks s1 = tracks s).
    { intros s1 ->. unfold runPending_throws, lost.
      destruct s; simpl in *. subst. rewrite Htr. by split_and!. }
    specialize (Hf _ Hs1). revert Hsel Hr1 Hf.
    generalize (runSelected s). clear Hs1. intros s1 Hsel Hr1 Hf.
    destruct Hf as (Hso1 & Hd1 & Hl1 & Hth1 & Hb1 & Hc1 & Ha1 & Hfr1 & Hlog1
                    & Hn1 & Ht1).
    split; [done|]. exists (runPending s1).
    assert (Hids : forall a, activeEffect s1 = Some a ->
              pendingEffect s1 <> Some a).
    { intros a Ha. by destruct (proj1 (reachable_ids_ok fromMicro s1 Hr1) a Ha). }
    destruct (runPending_opens s1 Hl1 Hids)
      as ((b0 & c0 & Hb0 & Hc0 & Hp & Htk) & Hact & Hopen & Hfr & Hlog).
    rewrite Hb1 in Hb0. injection Hb0 as <-.
    rewrite Hc1 in Hc0. injection Hc0 as <-.
    rewrite Hsel in Htk. simpl in Htk. rewrite Hn1 in Hp, Htk.
    split_and!; try congruence.
    + simpl. by rewrite Hso1, Hd1, Hth1.
    + intros a Ha Ho. apply Hopen; [congruence|].
      unfold is_open in *. by rewrite Ht1.
  - intros p t ev s' Hp Ht Hstep. destruct ev; try exact I.
    + simpl in Hstep. destruct (is_open e s); [|done].
      injection Hstep as <-. by destruct s.
    + simpl in Hstep. destruct (tracks s !! e) as [t0|]; [|done].
      destruct (tr_open t0); [|done]. injection Hstep as <-.
      unfold Source.output_pre, Source.late, clone, write_frame, closeFrame.
      destruct s as [? ? ? ? ? ? ? ? fr]; simpl in *.
      destruct (Qltb _ _); [done|]. by destruct fr.
    + simpl in Hstep. destruct (waiting s !! k) as [i|] eqn:Hk; [|done].
      injection Hstep as <-. exists i. split; [done|].
      set (s1 := set_waiting (delete k (waiting s)) s).
      assert (Hs1 : pendingEffect s1 = pendingEffect s
                /\ activeEffect s1 = activeEffect s
                /\ active s1 = active s /\ tracks s1 = tracks s
                /\ frameLog s1 = frameLog s /\ frame s1 = frame s
                /\ late (vf_timestamp (inv_frame i)) s1
                   = late (vf_timestamp (inv_frame i)) s)
        by (subst s1; by destruct s).
      destruct Hs1 as (Hp1 & Ha1 & Hac1 & Ht1 & Hl1 & Hf1 & Hlate1).
      destruct (is_open (inv_effect i) s) eqn:Ho; simpl.
      2:{ destruct (output_post_dropped fromMicro i false s1 (or_introl eq_refl))
            as (H1 & H2 & H3 & H4 & H5 & H6 & _).
          split_and!; congruence. }
      destruct (late (vf_timestamp (inv_frame i)) s) eqn:Hlate; simpl.
      { destruct (output_post_dropped fromMicro i true s1 (or_intror Hlate1))
          as (H1 & H2 & H3 & H4 & H5 & H6 & _).
        split_and!; congruence. }
      clear Hlate. rename Hlate1 into Hlate.
      destruct (decide (inv_effect i = p)) as [Hip|Hip].
      * assert (Hpi : pendingEffect s1 = Some (inv_effect i)) by congruence.
        destruct (output_post_publishes fromMicro i s1 Hpi Hlate)
          as ((c & Hc1 & Hc2 & Hc3) & H2 & H3 & H4 & H5).
        assert (Hname : inv_name i = tr_name t).
        { pose proof (reachable_names_ok s Hreach i) as Hn.
          unfold name_in in Hn. rewrite Hip, Ht in Hn. simpl in Hn.
          assert (Hin : i ∈ waiting s) by (by eapply list_elem_of_lookup_2).
          specialize (Hn Hin). by injection Hn. }
        split; [exists c; split_and!; congruence|].
        split_and!; try congruence.
        -- pose proof (output_post_pipe_view i true s1) as Hv.
           rewrite Hlate in Hv. simpl in Hv.
           destruct (decide (pendingEffect s1 = Some (inv_effect i)));
             [|done].
           apply pipe_inv in Hv as (Htk & _).
           change (open_in p (tracks (output_post i true s1)) = true).
           rewrite Htk, <- Hip, open_in_promoted.
           destruct (activeEffect s1) as [a|] eqn:Hact; simpl.
           ++ rewrite open_in_close_in.
              destruct (decide (inv_effect i = a)) as [Hia|_].
              ** exfalso.
                 destruct (proj1 (reachable_ids_ok fromMicro s Hreach) a)
                   as [_ Hn]; [congruence|].
                 apply Hn. congruence.
              ** rewrite Ht1. exact Ho.
           ++ rewrite Ht1. exact Ho.
        -- intros a Ha. apply H5. congruence.
      * assert (Hpi : pendingEffect s1 <> Some (inv_effect i)) by congruence.
        destruct (output_post_renders fromMicro i s1 Hpi Hlate)
          as ((c & Hc1 & Hc2 & Hc3) & H2 & H3 & H4 & H5).
        split; [exists c; split_and!; congruence|].
        split_and!; congruence.
Qed.

End RunFacts.

(** ** From the catalog to the selection *)

Section ChainFacts.
Variable isConfigSupported : Supported.DecoderConfig -> bool.
Variable toBytes : string -> list Byte.byte.
Variable isConfigSupported_throws : Supported.DecoderConfig -> bool.
Variable toBytes_throws : string -> bool.

Abbreviation probe := (Supported.probe toBytes).
Abbreviation throws :=
  (Supported.throws toBytes isConfigSupported_throws toBytes_throws).
Abbreviation runSupported :=
  (Supported.runSupported isConfigSupported toBytes isConfigSupported_throws
     toBytes_throws).

Lemma obj_get_key {V} (o : Obj V) (k : string) (v : V) :
  obj_get o k = Some v -> k ∈ obj_keys o.
Proof.
  induction o as [|[k' v'] o IH]; simpl; [done|].
  destruct (decide (k' = k)) as [->|Hne].
  - intros _. left.
  - intros H. right. by apply IH.
Qed.

Lemma obj_get_filter {V} (P : string * V -> bool) (o : Obj V)
    (k : string) (v : V) :
  NoDup (obj_keys o) ->
  obj_get (List.filter P o) k = Some v ->
  obj_get o k = Some v /\ P (k, v) = true.
Proof.
  induction o as [|[k' v'] o IH]; simpl; [done|].
  intros [Hk Hnd]%NoDup_cons. destruct (P (k', v')) eqn:HP; simpl.
  - destruct (decide (k' = k)) as [->|Hne].
    + intros [= <-]. by split.
    + by apply IH.
  - intros Hget. destruct (IH Hnd Hget) as [Ho HPk].
    destruct (decide (k' = k)) as [->|Hne]; [|by split].
    exfalso. apply Hk. by eapply obj_get_key.
Qed.

(** A rendition reaches the selection only through the capability filter.
    Take a catalog with distinct, non-empty rendition names, none of them
    [__proto__], on which neither [Hex.toBytes] nor the decoder throws and
    of which the decoder supports at least one.  [#runSupported] then
    writes [#supported], and [#runSelected] run on an enabled source with
    that value selects a rendition of the catalog that the decoder
    supports, with its catalog config, whatever the pixel target, and
    whatever the manual choice as long as that does not name a property of
    [Object.prototype]. *)
Theorem selected_rendition_is_supported (renditions : Obj VideoConfig)
    (s : State) :
  NoDup (obj_keys renditions) ->
  "__proto__" ∉ obj_keys renditions ->
  (forall n, n ∈ obj_keys renditions -> n <> "") ->
  (forall e, e ∈ renditions -> throws e.2 = false) ->
  (exists e, e ∈ renditions /\ isConfigSupported (probe e.2) = true) ->
  enabled s = true ->
  (forall m, target s ≫= rendition = Some m -> inherited m = false) ->
  exists sup warned,
    runSupported (Some renditions)
    = Supported.Written (Supported.mkBuilt sup None) warned
    /\ let s' := runSelected (set_supported sup s) in
       exists n c,
         selected s' = Some n
         /\ config s' = Some (Config c)
         /\ selectedConfig s' = Some (Req (required c))
         /\ obj_get renditions n = Some c
         /\ isConfigSupported (probe c) = true.
Proof.
  intros Hnd Hpr Hnames Hth (e & He & Hsup) Hen Hman.
  set (keep := fun e : string * VideoConfig => isConfigSupported (probe e.2)).
  set (sup := List.filter keep renditions).
  exists sup. eexists. split.
  { unfold Supported.runSupported. simpl.
    rewrite (fold_check isConfigSupported toBytes isConfigSupported_throws
               toBytes_throws renditions [] None); try done.
    intros k Hk. inversion Hk. }
  assert (Hne : sup <> []).
  { intros Hnil. assert (Hin : In e sup).
    { apply filter_In. split; [by apply list_elem_of_In | exact Hsup]. }
    rewrite Hnil in Hin. inversion Hin. }
  set (s1 := set_supported sup s).
  assert (Hs1 : supported s1 = sup /\ enabled s1 = true
                /\ target s1 = target s) by (by destruct s).
  destruct Hs1 as (Hs1 & Hen1 & Htg).
  assert (Hch : exists n, choose s1 = Some n).
  { unfold choose. rewrite Hs1.
    destruct (truthy_ostr (target s1 ≫= rendition) && _) eqn:Hm.
    - apply andb_true_iff in Hm as [Hm _].
      destruct (target s1 ≫= rendition) as [m|]; [eauto | done].
    - destruct (Select.selectRendition sup (target s1)) as [n|] eqn:Hsel;
        [eauto|]. by apply selectRendition_none in Hsel. }
  destruct Hch as [n Hch].
  assert (Hhas : obj_has sup n = true).
  { destruct (choose_key _ _ Hch) as [Hhas | [Hm Hin]]; [by rewrite <- Hs1|].
    rewrite Htg in Hm. rewrite (Hman n Hm) in Hin. discriminate Hin. }
  destruct (lookup_own _ _ Hhas) as (c & Hc & Hlk).
  destruct (obj_get_filter keep renditions n c Hnd Hc) as [Hget Hkeep].
  assert (Htr : truthy_str n = true).
  { unfold truthy_str. destruct (decide (n = "")) as [Hn|]; [|done].
    exfalso. by apply (Hnames n); [eapply obj_get_key|]. }
  exists n, c. unfold runSelected, clearSelected. rewrite Hen1, Hch. simpl.
  rewrite Htr. simpl. rewrite Hs1, Hlk.
  split_and!; try done; by destruct s.
Qed.

End ChainFacts.

(** ** Worked runs for the properties above *)

Lemma published_frame_is_open_witness :
  let s := after (start ++ [Output 0%nat 100000; Output 0%nat 150000]) in
  reachable ms s
  /\ is_Some (frame s)
  /\ forall f, frame s = Some f -> handle f ∉ closedFrames s.
Proof.
  intros s. assert (Hr : reachable ms s) by runs.
  split; [exact Hr|]. split; [vm_compute; eexists; reflexivity|].
  exact (proj1 (published_frame_is_open ms s Hr)).
Defined.

Lemma replaced_frames_are_closed_witness :
  let s := after (start ++ [Output 0%nat 100000; Resume 0%nat]) in
  let c := mkFrame 2%nat 100000 in
  reachable ms s
  /\ c ∈ written (frameLog s)
  /\ frame s <> Some c
  /\ (frame s = Some c \/ handle c ∈ closedFrames s).
Proof.
  intros s c. assert (Hr : reachable ms s) by runs.
  assert (Hw : written (frameLog s) = [c; mkFrame 3%nat 100000])
    by (vm_compute; reflexivity).
  assert (Hc : c ∈ written (frameLog s)) by (rewrite Hw; constructor).
  assert (Hf : frame s = Some (mkFrame 3%nat 100000))
    by (vm_compute; reflexivity).
  split; [exact Hr|]. split; [exact Hc|].
  split; [rewrite Hf; discriminate|].
  exact (replaced_frames_are_closed ms s c Hr Hc).
Defined.

Lemma decoded_frame_is_closed_or_waiting_witness :
  let s := after start in
  let s1 := after (start ++ [Output 0%nat 100000]) in
  let s2 := after (start ++ [Output 0%nat 100000; Resume 0%nat]) in
  step ms s (Output 0%nat 100000) = Some s1
  /\ run ms s1 [Resume 0%nat] = Some s2
  /\ (fresh s ∈ closedFrames s2
      \/ exists i, i ∈ waiting s2 /\ inv_frame i = mkFrame (fresh s) 100000).
Proof.
  intros s s1 s2.
  assert (H1 : step ms s (Output 0%nat 100000) = Some s1)
    by (vm_compute; reflexivity).
  assert (H2 : run ms s1 [Resume 0%nat] = Some s2)
    by (vm_compute; reflexivity).
  split; [exact H1|]. split; [exact H2|].
  exact (decoded_frame_is_closed_or_waiting ms s s1 s2 0%nat 100000 _ H1 H2).
Defined.

Lemma open_pipeline_is_pending_or_active_witness :
  reachable ms (after start)
  /\ is_open 0%nat (after start) = true
  /\ (pendingEffect (after start) = Some 0%nat
      \/ activeEffect (after start) = Some 0%nat).
Proof.
  assert (Hr : reachable ms (after start)) by runs.
  assert (Ho : is_open 0%nat (after start) = true)
    by (vm_compute; reflexivity).
  split; [exact Hr|]. split; [exact Ho|].
  exact (open_pipeline_is_pending_or_active ms (after start) 0%nat Hr Ho).
Defined.

Lemma closed_pipeline_stays_closed_witness :
  let s := after (start ++ [Output 0%nat 100000; Resume 0%nat;
                            SetEnabled false; RunPending]) in
  let t := mkTrack 7%nat "hd" (Req (required (cfg 200 200))) false true in
  let evs := [SetEnabled true; RunPending] in
  reachable ms s
  /\ tracks s !! 0%nat = Some t
  /\ (exists s', run ms s evs = Some s'
        /\ is_Some (pendingEffect s') /\ is_open 0%nat s' = false).
Proof.
  intros s t evs. assert (Hr : reachable ms s) by runs.
  assert (Ht : tracks s !! 0%nat = Some t) by (vm_compute; reflexivity).
  assert (Hrun : run ms s evs = Some (after ((start ++ [Output 0%nat 100000;
                   Resume 0%nat; SetEnabled false; RunPending]) ++ evs)))
    by (vm_compute; reflexivity).
  split; [exact Hr|]. split; [exact Ht|].
  eexists. split; [exact Hrun|].
  split; [vm_compute; eexists; reflexivity|].
  exact (closed_pipeline_stays_closed ms s _ 0%nat t evs Hr Ht eq_refl Hrun).
Defined.

Lemma closed_source_is_inert_witness :
  let s := after (start ++ [Close]) in
  let evs := [SetEnabled false; SetSupported []; SetTarget None] in
  reachable ms s
  /\ signalsOpen s = false
  /\ selected (after start) = Some "hd"
  /\ exists s', run ms s evs = Some s'
       /\ enabled s' = false
       /\ selected s' = None
       /\ bufferStatus s' = bufferStatus s.
Proof.
  intros s evs. assert (Hr : reachable ms s) by runs.
  assert (Hc : signalsOpen s = false) by (vm_compute; reflexivity).
  assert (Hrun : run ms s evs = Some (after ((start ++ [Close]) ++ evs)))
    by (vm_compute; reflexivity).
  split; [exact Hr|]. split; [exact Hc|]. split; [vm_compute; reflexivity|].
  eexists. split; [exact Hrun|].
  split; [vm_compute; reflexivity|].
  destruct (closed_source_is_inert ms s _ evs Hr Hc Hrun)
    as (_ & Hsel & _ & _ & Hb & _).
  split; [exact Hsel | exact Hb].
Defined.

Lemma nothing_published_after_close_witness :
  let s := after (start ++ [Output 0%nat 100000]) in
  let evs := [Resume 0%nat; SetEnabled false] in
  reachable ms s
  /\ activeEffect s = None
  /\ waiting s = [first_call]
  /\ exists s', run ms (close s) evs = Some s'
       /\ published (frameLog s') = published (frameLog (close s))
       /\ frame s' = None.
Proof.
  intros s evs. assert (Hr : reachable ms s) by runs.
  assert (Ha : activeEffect s = None) by (vm_compute; reflexivity).
  assert (Hrun : run ms (close s) evs
                 = Some (after (start ++ [Output 0%nat 100000; Close] ++ evs)))
    by (vm_compute; reflexivity).
  split; [exact Hr|]. split; [exact Ha|].
  split; [vm_compute; reflexivity|].
  eexists. split; [exact Hrun|].
  assert (Hno : forall a, activeEffect s = Some a -> is_open a s = false).
  { intros a H. rewrite Ha in H. discriminate H. }
  destruct (nothing_published_after_close ms s _ evs Hr Hno Hrun)
    as (H1 & H2 & _).
  split; [exact H1 | exact H2].
Defined.

Lemma no_negative_timestamp_witness :
  let s := after (start ++ [Output 0%nat 100000; Resume 0%nat]) in
  reachable ms s
  /\ (ms (-1) < 0)%Q
  /\ timestamp_ s = Some (ms 100000)
  /\ (0 <= ms 100000)%Q
  /\ late ms (-1) s = true.
Proof.
  intros s. assert (Hr : reachable ms s) by runs.
  assert (Hn : (ms (-1) < 0)%Q) by (vm_compute; reflexivity).
  assert (Ht : timestamp_ s = Some (ms 100000)) by (vm_compute; reflexivity).
  destruct (no_negative_timestamp ms s Hr) as (H1 & _ & H3).
  split; [exact Hr|]. split; [exact Hn|]. split; [exact Ht|].
  split; [exact (H1 _ Ht) | exact (H3 _ Hn)].
Defined.

Lemma teardown_resets_timestamp_witness :
  let s := after (start ++ [Output 0%nat 100000; Resume 0%nat;
                            SetEnabled false]) in
  reachable ms s
  /\ lost s = true
  /\ activeEffect s = Some 0%nat
  /\ is_open 0%nat s = true
  /\ timestamp_ s = Some (ms 100000)
  /\ timestamp_ (runPending s) = None
  /\ late ms 0 (runPending s) = false.
Proof.
  intros s. assert (Hr : reachable ms s) by runs.
  assert (Hl : lost s = true) by (vm_compute; reflexivity).
  assert (Ha : activeEffect s = Some 0%nat) by (vm_compute; reflexivity).
  assert (Ho : is_open 0%nat s = true) by (vm_compute; reflexivity).
  assert (Hz : (0 <= ms 0)%Q) by (vm_compute; discriminate).
  destruct (teardown_resets_timestamp ms s 0%nat Hr Hl Ha Ho) as [H1 H2].
  split_and!; try assumption; [vm_compute; reflexivity|].
  exact (H2 0 Hz).
Defined.


Lemma selection_cleared_when_nothing_chosen_witness :
  let s := after (start ++ [SetEnabled false]) in
  enabled s = false
  /\ selected s = Some "hd"
  /\ selected (runSelected s) = None
  /\ pendingDirty (runSelected s) = true.
Proof.
  intros s.
  assert (He : enabled s = false) by (vm_compute; reflexivity).
  assert (Hs : selected s = Some "hd") by (vm_compute; reflexivity).
  destruct (selection_cleared_when_nothing_chosen s (or_introl He))
    as (H1 & _ & _ & H4 & _).
  split; [exact He|]. split; [exact Hs|]. split; [exact H1|].
  apply H4. rewrite Hs. eexists. reflexivity.
Defined.

Lemma stats_count_samples_witness :
  let evs := [Receive 0%nat 100000 10; Output 0%nat 100000;
              Receive 0%nat 133000 20] in
  exists s', run ms (after start) evs = Some s'
    /\ stat_frames s' = stat_frames (after start) + 2
    /\ stat_bytes s' = stat_bytes (after start) + 30.
Proof.
  intros evs.
  assert (Hrun : run ms (after start) evs = Some (after (start ++ evs)))
    by (vm_compute; reflexivity).
  eexists. split; [exact Hrun|].
  destruct (stats_count_samples ms (after start) _ evs Hrun) as (H1 & H2 & _).
  split; [exact H1 | exact H2].
Defined.

Lemma decoder_error_stops_pipeline_witness :
  let s := after (start ++ [Output 0%nat 100000; Resume 0%nat]) in
  let s' := after (start ++ [Output 0%nat 100000; Resume 0%nat;
                             DecoderError 0%nat]) in
  step ms s (DecoderError 0%nat) = Some s'
  /\ active s = Some "hd"
  /\ is_Some (timestamp_ s)
  /\ activeEffect s' = Some 0%nat
  /\ is_Some (frame s')
  /\ is_open 0%nat s' = false
  /\ active s' = None
  /\ timestamp_ s' = None.
Proof.
  intros s s'.
  assert (H : step ms s (DecoderError 0%nat) = Some s')
    by (vm_compute; reflexivity).
  destruct (decoder_error_stops_pipeline ms s s' 0%nat H)
    as (t & _ & _ & _ & H1 & _).
  split; [exact H|]. split; [vm_compute; reflexivity|].
  split; [vm_compute; eexists; reflexivity|].
  split; [vm_compute; reflexivity|].
  split; [vm_compute; eexists; reflexivity|].
  split; [exact H1|]. split; vm_compute; reflexivity.
Defined.

Lemma selected_rendition_is_supported_witness :
  let ok := fun d => bool_decide (Supported.dc_codedWidth d = Some 100) in
  let never := fun _ : Supported.DecoderConfig => false in
  let s := set_target (Some (mkTarget None (Some "hd")))
             (set_enabled true (init None false)) in
  NoDup (obj_keys hd_sd)
  /\ exists sup warned,
       Supported.runSupported ok (fun _ => []) never (fun _ => false)
         (Some hd_sd)
       = Supported.Written (Supported.mkBuilt sup None) warned
       /\ exists n c,
            selected (runSelected (set_supported sup s)) = Some n
            /\ obj_get hd_sd n = Some c
            /\ ok (Supported.probe (fun _ => []) c) = true.
Proof.
  intros ok never s.
  assert (H1 : NoDup (obj_keys hd_sd)).
  { apply (bool_decide_unpack _). vm_compute. exact I. }
  assert (H2 : "__proto__" ∉ obj_keys hd_sd).
  { apply (bool_decide_unpack _). vm_compute. exact I. }
  assert (H3 : forall n, n ∈ obj_keys hd_sd -> n <> "").
  { intros n Hn. unfold hd_sd in Hn. simpl in Hn.
    apply elem_of_cons in Hn as [-> | Hn]; [discriminate|].
    apply elem_of_cons in Hn as [-> | Hn]; [discriminate|]. inversion Hn. }
  assert (H4 : forall e, e ∈ hd_sd ->
            Supported.throws (fun _ => []) never (fun _ => false) e.2 = false).
  { intros e _. unfold Supported.throws. destruct (container e.2); [done|].
    destruct (description e.2); simpl; [by rewrite andb_false_r | done]. }
  assert (H5 : exists e, e ∈ hd_sd
                 /\ ok (Supported.probe (fun _ => []) e.2) = true).
  { exists ("sd", cfg 100 100). split; [constructor | reflexivity]. }
  assert (H6 : enabled s = true) by reflexivity.
  assert (H7 : forall m, target s ≫= rendition = Some m -> inherited m = false).
  { intros m [= <-]. reflexivity. }
  split; [exact H1|].
  destruct (selected_rendition_is_supported ok (fun _ => []) never
              (fun _ => false) hd_sd s H1 H2 H3 H4 H5 H6 H7)
    as (sup & warned & Hrun & n & c & Hs & _ & _ & Hg & Hk).
  exists sup, warned. split; [exact Hrun|].
  exists n, c. split; [exact Hs|]. split; [exact Hg | exact Hk].
Defined.

(** C3, a worked switch.  "hd" is active as pipeline 0 and the viewer
    chooses "sd".  [#runSelected] selects it and [#runPending] opens
    pipeline 4 on "sd" while pipeline 0 stays open; a frame of pipeline 0
    is still published and changes no pipeline; the first frame of
    pipeline 4 that is published promotes it, closes pipeline 0 and sets
    [active] to "sd". *)
Lemma pending_promoted_by_first_frame_witness :
  let pre := start ++ [Output 0%nat 100000; Resume 0%nat;
                       SetTarget (Some (mkTarget None (Some "sd")))] in
  let s := after pre in
  let sB := after (pre ++ [RunSelected; RunPending; Output 0%nat 133000;
                           Output 4%nat 200000]) in
  reachable ms s
  /\ reachable ms sB
  /\ activeEffect s = Some 0%nat
  /\ is_open 0%nat s = true
  /\ (exists s2,
        step ms (after (pre ++ [RunSelected])) RunPending = Some s2
        /\ pendingEffect s2 = Some 4%nat
        /\ activeEffect s2 = Some 0%nat
        /\ is_open 0%nat s2 = true)
  /\ (exists s' c,
        step ms sB (Resume 0%nat) = Some s'
        /\ frame s' = Some c
        /\ vf_timestamp c = 133000
        /\ pendingEffect s' = Some 4%nat
        /\ activeEffect s' = Some 0%nat)
  /\ (exists s',
        step ms sB (Resume 1%nat) = Some s'
        /\ activeEffect s' = Some 4%nat
        /\ pendingEffect s' = None
        /\ active s' = Some "sd"
        /\ is_open 0%nat s' = false).
Proof.
  intros pre s sB.
  assert (Hr : reachable ms s) by runs.
  assert (HrB : reachable ms sB) by runs.
  assert (Ha : activeEffect s = Some 0%nat) by (vm_compute; reflexivity).
  assert (Ho : is_open 0%nat s = true) by (vm_compute; reflexivity).
  split; [exact Hr|]. split; [exact HrB|]. split; [exact Ha|].
  split; [exact Ho|]. split; [|split].
  - assert (H1 : step ms s RunSelected = Some (after (pre ++ [RunSelected])))
      by (vm_compute; reflexivity).
    assert (H2 : selected (after (pre ++ [RunSelected])) = Some "sd")
      by (vm_compute; reflexivity).
    assert (H3 : selected s <> Some "sd").
    { assert (Hs : selected s = Some "hd") by (vm_compute; reflexivity).
      rewrite Hs. discriminate. }
    assert (H4 : obj_get (supported s) "sd" = Some (cfg 100 100))
      by (vm_compute; reflexivity).
    assert (H5 : broadcast s = Some 7%nat) by (vm_compute; reflexivity).
    assert (Hf : fresh s = 4%nat) by (vm_compute; reflexivity).
    destruct (proj1 (pending_promoted_by_first_frame ms s Hr)
                _ "sd" (cfg 100 100) 7%nat H1 H2 H3 H4 H5)
      as (_ & s2 & Hstep & Hp & _ & Hact & Hopen & _).
    exists s2. split; [exact Hstep|]. rewrite Hf in Hp.
    split; [exact Hp|]. rewrite Ha in Hact. split; [exact Hact|].
    exact (Hopen 0%nat Ha Ho).
  - set (t := mkTrack 7%nat "sd" (Req (required (cfg 100 100))) true false).
    assert (Hp : pendingEffect sB = Some 4%nat) by (vm_compute; reflexivity).
    assert (Ht : tracks sB !! 4%nat = Some t) by (vm_compute; reflexivity).
    set (s' := after (pre ++ [RunSelected; RunPending; Output 0%nat 133000;
                              Output 4%nat 200000; Resume 0%nat])).
    assert (Hstep : step ms sB (Resume 0%nat) = Some s')
      by (vm_compute; reflexivity).
    destruct (proj2 (pending_promoted_by_first_frame ms sB HrB)
                4%nat t (Resume 0%nat) s' Hp Ht Hstep) as (i & Hk & H).
    assert (Hw : waiting sB !! 0%nat
                 = Some (mkInvocation 0%nat "hd" (mkFrame 5%nat 133000)))
      by (vm_compute; reflexivity).
    rewrite Hw in Hk. injection Hk as <-.
    cbn [inv_effect inv_frame vf_timestamp] in H.
    assert (Hc : is_open 0%nat sB && negb (Source.late ms 133000 sB) = true)
      by (vm_compute; reflexivity).
    rewrite Hc in H. destruct H as ((c & Hc1 & Hc2 & _) & Hd).
    revert Hd. destruct (decide (0%nat = 4%nat)) as [Heq|_];
      [discriminate Heq|]. intros (Hp' & Ha' & _).
    assert (HaB : activeEffect sB = Some 0%nat) by (vm_compute; reflexivity).
    rewrite HaB in Ha'.
    exists s', c. split; [exact Hstep|]. split; [exact Hc2|].
    split; [exact Hc1|]. split; [exact Hp' | exact Ha'].
  - set (t := mkTrack 7%nat "sd" (Req (required (cfg 100 100))) true false).
    assert (Hp : pendingEffect sB = Some 4%nat) by (vm_compute; reflexivity).
    assert (Ht : tracks sB !! 4%nat = Some t) by (vm_compute; reflexivity).
    set (s' := after (pre ++ [RunSelected; RunPending; Output 0%nat 133000;
                              Output 4%nat 200000; Resume 1%nat])).
    assert (Hstep : step ms sB (Resume 1%nat) = Some s')
      by (vm_compute; reflexivity).
    destruct (proj2 (pending_promoted_by_first_frame ms sB HrB)
                4%nat t (Resume 1%nat) s' Hp Ht Hstep) as (i & Hk & H).
    assert (Hw : waiting sB !! 1%nat
                 = Some (mkInvocation 4%nat "sd" (mkFrame 6%nat 200000)))
      by (vm_compute; reflexivity).
    rewrite Hw in Hk. injection Hk as <-.
    cbn [inv_effect inv_frame vf_timestamp] in H.
    assert (Hc : is_open 4%nat sB && negb (Source.late ms 200000 sB) = true)
      by (vm_compute; reflexivity).
    rewrite Hc in H. destruct H as (_ & Hd).
    revert Hd. destruct (decide (4%nat = 4%nat)) as [_|Hne];
      [|by destruct Hne]. intros (H1 & H2 & H3 & _ & H5).
    assert (HaB : activeEffect sB = Some 0%nat) by (vm_compute; reflexivity).
    exists s'. split; [exact Hstep|]. split; [exact H1|]. split; [exact H2|].
    split; [exact H3 | exact (H5 0%nat HaB)].
Defined.

(** C5, counterexample.  The renditions "sd" (100x100) and "hd" (200x200)
    differ only in their coded size.  With "hd" active as pipeline 0, the
    viewer chooses "sd": [#selectedConfig] ends with the same value, but
    [#selected] changes, so [#runPending] runs and opens pipeline 4, whose
    first published frame closes pipeline 0 with its subscription and its
    decoder. *)
Lemma coded_size_switch_restarts_pipeline :
  let pre := start ++ [Output 0%nat 100000; Resume 0%nat] in
  let switch := pre ++ [SetTarget (Some (mkTarget None (Some "sd")));
                        RunSelected; RunPending;
                        Output 4%nat 200000; Resume 0%nat] in
  same_but_coded_size (cfg 200 200) (cfg 100 100)
  /\ reachable ms (after switch)
  /\ config (after pre) = Some (Config (cfg 200 200))
  /\ config (after switch) = Some (Config (cfg 100 100))
  /\ selectedConfig (after switch) = selectedConfig (after pre)
  /\ activeEffect (after pre) = Some 0%nat
  /\ is_open 0%nat (after pre) = true
  /\ activeEffect (after switch) = Some 4%nat
  /\ is_open 0%nat (after switch) = false.
Proof.
  intros pre switch. split; [by repeat split|]. split; [runs|].
  split_and!; vm_compute; reflexivity.
Qed.

(** A manual choice that names a property [#supported] inherits.  The
    test [manual in supported] accepts "constructor", so it is selected
    although no rendition has that name; [#config] is what the lookup
    finds, [#selectedConfig] has no codec and no container, and the run of
    [#runPending] that follows ends in the TypeError of [#runTrack]. *)
Example inherited_name_is_selected :
  let s := after (start ++ [SetTarget (Some (mkTarget None (Some "constructor")));
                            RunSelected]) in
  reachable ms s
  /\ obj_has (supported s) "constructor" = false
  /\ selected s = Some "constructor"
  /\ config s = Some (Inherited "constructor")
  /\ selectedConfig s = Some Bare
  /\ runPending_throws s = true
  /\ step ms s RunPending = None.
Proof. intros s. split; [runs|]. split_and!; vm_compute; reflexivity. Qed.
